(** * Covid-19 feature pipeline: a shallow embedding of [covid/data_utils.py]

    The Python module works on pandas data frames.  We model a frame
    column by column, as pandas stores it: the two key columns
    [Country_Code] and [DateTime] are typed lists, every other column is a
    list of numbers kept in a finite map from the column name.

    Numbers idealise binary64: a finite value is an exact rational, and the
    three special values the code can meet (both infinities and NaN) are
    kept with their IEEE rules.  Rounding, overflow and the sign of zero are
    not modelled. *)

From Stdlib Require Import QArith Lqa ZArith Lia Ascii.
From Stdlib Require OrderedTypeEx.
From stdpp Require Import gmap strings list fin_maps option sorting pretty.

(** ** Numbers *)

Inductive num : Type :=
  | Fin (q : Q)
  | PInf
  | NInf
  | NaN.

Definition num_neg (x : num) : num :=
  match x with
  | Fin q => Fin (- q)
  | PInf => NInf
  | NInf => PInf
  | NaN => NaN
  end.

Definition num_add (x y : num) : num :=
  match x, y with
  | NaN, _ | _, NaN => NaN
  | PInf, NInf | NInf, PInf => NaN
  | PInf, _ | _, PInf => PInf
  | NInf, _ | _, NInf => NInf
  | Fin a, Fin b => Fin (a + b)
  end.

Definition num_sub (x y : num) : num := num_add x (num_neg y).

(** An infinity of sign [pos] scaled by a finite factor [q]. *)
Definition inf_scaled (pos : bool) (q : Q) : num :=
  match (q ?= 0)%Q with
  | Eq => NaN
  | Gt => if pos then PInf else NInf
  | Lt => if pos then NInf else PInf
  end.

Definition num_mul (x y : num) : num :=
  match x, y with
  | NaN, _ | _, NaN => NaN
  | PInf, PInf | NInf, NInf => PInf
  | PInf, NInf | NInf, PInf => NInf
  | PInf, Fin q | Fin q, PInf => inf_scaled true q
  | NInf, Fin q | Fin q, NInf => inf_scaled false q
  | Fin a, Fin b => Fin (a * b)
  end.

(** Division follows numpy: a finite non-zero value over zero is an
    infinity, zero over zero is NaN. *)
Definition num_div (x y : num) : num :=
  match x, y with
  | NaN, _ | _, NaN => NaN
  | (PInf | NInf), (PInf | NInf) => NaN
  | Fin _, (PInf | NInf) => Fin 0
  | PInf, Fin q => if Qle_bool 0 q then PInf else NInf
  | NInf, Fin q => if Qle_bool 0 q then NInf else PInf
  | Fin a, Fin b =>
      if Qeq_bool b 0 then
        match (a ?= 0)%Q with Eq => NaN | Gt => PInf | Lt => NInf end
      else Fin (a / b)
  end.

(** [x == 0] and [x > 0] as pandas evaluates them cell by cell. *)
Definition num_is0 (x : num) : bool :=
  match x with Fin q => Qeq_bool q 0 | _ => false end.

Definition num_gt0 (x : num) : bool :=
  match x with
  | Fin q => negb (Qle_bool q 0)
  | PInf => true
  | _ => false
  end.

Definition is_nan (x : num) : bool :=
  match x with NaN => true | _ => false end.

Definition is_fin (x : num) : bool :=
  match x with Fin _ => true | _ => false end.

(** Equality of cells up to the representation of a rational. *)
Definition num_eq (x y : num) : Prop :=
  match x, y with
  | Fin a, Fin b => (a == b)%Q
  | PInf, PInf | NInf, NInf | NaN, NaN => True
  | _, _ => False
  end.

Definition of_Z (z : Z) : num := Fin (inject_Z z).

(** ** Series *)

Abbreviation Series := (list num).

(** [s.fillna(v)] *)
Definition fillna (v : num) (s : Series) : Series :=
  (λ x, if is_nan x then v else x) <$> s.

(** [s.replace(to_replace=0, method='ffill')]: the cells equal to zero are
    masked and padded with the last cell that is not; a masked cell with
    nothing before it keeps its value. *)
Fixpoint pad (last : option num) (s : Series) : Series :=
  match s with
  | [] => []
  | x :: s' =>
      if num_is0 x then default x last :: pad last s'
      else x :: pad (Some x) s'
  end.

Definition replace_ffill (s : Series) : Series := pad None s.

(** [s.cumsum()]: numpy's running sum over the cells with NaN read as 0,
    and NaN put back where it was. *)
Fixpoint running (acc : num) (s : Series) : Series :=
  match s with
  | [] => []
  | x :: s' => let acc' := num_add acc x in acc' :: running acc' s'
  end.

Definition np_cumsum (s : Series) : Series :=
  match s with
  | [] => []
  | x :: s' => x :: running x s'
  end.

Definition cumsum (s : Series) : Series :=
  zip_with (λ x r, if is_nan x then NaN else r) s
           (np_cumsum (fillna (Fin 0) s)).

(** [s.diff()]: NaN in the first cell, then each cell minus the one before. *)
Fixpoint diff_from (prev : num) (s : Series) : Series :=
  match s with
  | [] => []
  | x :: s' => num_sub x prev :: diff_from x s'
  end.

Definition diff (s : Series) : Series :=
  match s with
  | [] => []
  | x :: s' => NaN :: diff_from x s'
  end.

(** [s[mask]]: the cells where the mask holds, in order. *)
Fixpoint select {A} (mask : list bool) (s : list A) : list A :=
  match mask, s with
  | b :: mask', x :: s' => if b then x :: select mask' s' else select mask' s'
  | _, _ => []
  end.

(** [s[mask] = vals], with [vals] holding one cell per selected row. *)
Fixpoint assign {A} (mask : list bool) (vals : list A) (s : list A) : list A :=
  match mask, s with
  | b :: mask', x :: s' =>
      if b then
        match vals with
        | v :: vals' => v :: assign mask' vals' s'
        | [] => x :: assign mask' [] s'
        end
      else x :: assign mask' vals s'
  | _, _ => s
  end.

(** [s.take(perm)]: the cells at the given positions. *)
Definition take_rows {A} (d : A) (perm : list nat) (s : list A) : list A :=
  (λ i, default d (s !! i)) <$> perm.

(** A series assigned to a column of an [n]-row frame is aligned on the
    row labels; with the default labels 0..n-1 on both sides this keeps
    the first [n] cells and leaves NaN where the series has none. *)
Definition align (n : nat) (s : Series) : Series :=
  take n (s ++ replicate (n - length s) NaN).

(** ** Frames *)

Record DataFrame : Type := mkDF {
  Country_Code : list string;
  DateTime : list Z;
  cols : gmap string (list num)
}.

Definition nrows (df : DataFrame) : nat := length (Country_Code df).

(** [df[col]]; [None] stands for the [KeyError] of a missing column. *)
Definition getitem (df : DataFrame) (col : string) : option Series :=
  cols df !! col.

(** [df[col] = s] for a series over the rows of [df]. *)
Definition setitem (col : string) (s : Series) (df : DataFrame) : DataFrame :=
  mkDF (Country_Code df) (DateTime df) (<[col := s]> (cols df)).

(** [df[col] = v] for a scalar [v]. *)
Definition setscalar (col : string) (v : num) (df : DataFrame) : DataFrame :=
  setitem col (replicate (nrows df) v) df.

(** [df.loc[mask, col] = vals]; a column that does not exist yet is
    created with NaN in the rows outside the mask. *)
Definition loc_set (mask : list bool) (col : string) (vals : Series)
    (df : DataFrame) : DataFrame :=
  setitem col
    (assign mask vals (default (replicate (nrows df) NaN) (cols df !! col))) df.

(** [df.Country_Code == c] *)
Definition code_mask (c : string) (df : DataFrame) : list bool :=
  (λ k, bool_decide (k = c)) <$> Country_Code df.

(** [df.Country_Code.unique()]: the codes in order of first appearance. *)
Fixpoint unique (l : list string) : list string :=
  match l with
  | [] => []
  | x :: l' => x :: filter (λ y, y ≠ x) (unique l')
  end.

(** A [for] loop whose body may raise. *)
Fixpoint for_each {A S} (body : S → A → option S) (l : list A) (s : S)
    : option S :=
  match l with
  | [] => Some s
  | x :: l' => s' ← body s x; for_each body l' s'
  end.

(** ** Column names *)

Module COL.
Definition c1 := "C1_School_closing".
Definition c2 := "C2_Workplace_closing".
Definition c3 := "C3_Cancel_public_events".
Definition c4 := "C4_Restrictions_on_gatherings".
Definition c5 := "C5_Close_public_transport".
Definition c6 := "C6_Stay_at_home_requirements".
Definition c7 := "C7_Restrictions_on_internal_movement".
Definition c8 := "C8_International_travel_controls".
Definition h1 := "H1_Public_information_campaigns".
Definition cc := "ConfirmedCases".
Definition cd := "ConfirmedDeaths".
Definition rc := "Recovered".
Definition ac := "Active".
Definition dcc := "DailyConfirmedCases".
Definition dcd := "DailyConfirmedDeaths".
Definition drc := "DailyRecovered".
Definition dac := "DailyActive".
Definition si := "StringencyIndex".
Definition ci_cols := [h1; c1; c2; c3; c4; c5; c6; c7; c8].
Definition si_cols := ["S1"; "S2"; "S3"; "S4"; "S5"; "S6"; "S7"; "S8"; "S9"].
End COL.

Module FEATURE.
Definition stringency := "st".
Definition stringency_sum := "St".
Definition mobility := "mt".
Definition mobility_sum := "Mt".
Definition public_information := "S1".
Definition school_closing := "S2".
Definition workplace_closing := "S3".
Definition cancel_public_events := "S4".
Definition restrictions_on_gatherings := "S5".
Definition close_public_transport := "S6".
Definition stay_at_home_requirements := "S7".
Definition restrictions_on_internal_movement := "S8".
Definition international_travel_controls := "S9".
End FEATURE.

(** ** Strings *)

(** [s.split('_')[0]]: the text before the first underscore. *)
Fixpoint split_head (s : string) : string :=
  match s with
  | EmptyString => EmptyString
  | String a s' => if Ascii.eqb a "_"%char then EmptyString else String a (split_head s')
  end.

(** [s[1:]] *)
Definition drop_first (s : string) : string :=
  match s with
  | EmptyString => EmptyString
  | String _ s' => s'
  end.

Definition digit_of (a : Ascii.ascii) : option N :=
  let n := N_of_ascii a in
  if ((48 <=? n) && (n <=? 57))%N then Some (n - 48)%N else None.

Fixpoint parse_digits (acc : N) (s : string) : option N :=
  match s with
  | EmptyString => Some acc
  | String a s' => d ← digit_of a; parse_digits (10 * acc + d)%N s'
  end.

(** [int(s)] on a string of decimal digits; [None] stands for the
    [ValueError] of anything else (signs and blanks are not modelled). *)
Definition int (s : string) : option N :=
  match s with
  | EmptyString => None
  | _ => parse_digits 0 s
  end.

(** ** The Mobility Transformer *)

(** general scope weight *)
Definition w : Q := 0.28375.

(** normalization factor *)
Definition nf : Q := 1.

(** [nf * (si / d * (1 - w) + (w * si_g))], cell by cell. *)
Definition blend (d : Q) (si si_g : num) : num :=
  num_mul (Fin nf)
    (num_add (num_mul (num_div si (Fin d)) (Fin (1 - w)))
             (num_mul (Fin w) si_g)).

(** [nf * si / 4], cell by cell. *)
Definition quarter (si : num) : num :=
  num_div (num_mul (Fin nf) si) (Fin 4).

(** The index of an indicator from the head of its column name: 9 for
    [H1], the number after the first letter otherwise. *)
Definition index_of (s_id : string) : option N :=
  if decide (s_id = "H1") then Some 9%N else int (drop_first s_id).

(** The value [l_i] written to the column of indicator [idx] in a frame
    of [n] rows. *)
Definition level (idx : N) (n : nat) (si si_g : Series) : Series :=
  if decide (idx ∈ [3; 5; 7; 9]%N) then align n (zip_with (blend 2) si si_g)
  else if decide (idx ∈ [1; 2; 6]%N) then align n (zip_with (blend 3) si si_g)
  else if decide (idx ∈ [4]%N) then align n (zip_with (blend 4) si si_g)
  else if decide (idx ∈ [8]%N) then align n (quarter <$> si)
  else replicate n (Fin 0).

Definition transform_to_mobility (df old_df : DataFrame) (column : string)
    (has_flag : bool) : option DataFrame :=
  let s_id := split_head column in
  idx ← index_of s_id;
  let m_id := "S" +:+ pretty idx in
  (* set initial values *)
  si ← getitem old_df column;
  (* set Si general initially to 1 because C8 needs a multiplication by 1 *)
  let si_g0 := (λ x, num_add (num_mul x (Fin 0)) (Fin 1)) <$> si in
  si_g ← (if has_flag then getitem old_df (s_id +:+ "_Flag") else Some si_g0);
  let l_i := level idx (nrows df) si si_g in
  Some (setitem m_id l_i (setscalar m_id (Fin 0) df)).

(** ** Sorting the rows *)

(** Order of two rows on [(Country_Code, DateTime)]; the third component
    is the position of the row before the sort. *)
Definition key_leb (a b : string * Z * nat) : bool :=
  if String.eqb a.1.1 b.1.1 then (a.1.2 <=? b.1.2)%Z
  else String.ltb a.1.1 b.1.1.

Definition sort_order (codes : list string) (dates : list Z) : list nat :=
  snd <$> merge_sort (λ a b, Is_true (key_leb a b))
            (imap (λ i k, (k, i)) (zip codes dates)).

(** [df.sort_values(by=['Country_Code', 'DateTime'], ignore_index=True)] *)
Definition sort_values (df : DataFrame) : DataFrame :=
  let perm := sort_order (Country_Code df) (DateTime df) in
  mkDF (take_rows EmptyString perm (Country_Code df))
       (take_rows 0%Z perm (DateTime df))
       (take_rows NaN perm <$> cols df).

(** The first loop of [extend_data]: every indicator column is
    transformed, the one met when the counter [i] is 8 without its flag. *)
Definition transform_all (df old_df : DataFrame) : option DataFrame :=
  fst <$> for_each
      (λ '(df, i) s_col,
         df' ← transform_to_mobility df old_df s_col (negb (i =? 8)%nat);
         Some (df', S i))
      COL.ci_cols (df, 0%nat).

Definition extend_data (df old_df : DataFrame) : option DataFrame :=
  df ← transform_all df old_df;
  (* fill all NaN with zero *)
  let df := mkDF (Country_Code df) (DateTime df) (fillna (Fin 0) <$> cols df) in
  (* sort values *)
  let df := sort_values df in
  (* create some new feature columns *)
  let df := setscalar "mt" (Fin 0) df in
  let df := setscalar "Mt" (Fin 0) df in
  let df := setscalar "pt" (Fin 0) df in
  let df := setscalar "Pt" (Fin 0) df in
  let df := setscalar "st" (Fin 0) df in
  let df := setscalar "St" (Fin 0) df in
  Some df.

(** ** The Temporal Continuity Filler *)

(** [df.loc[mask]]: the rows where the mask holds. *)
Definition loc (mask : list bool) (df : DataFrame) : DataFrame :=
  mkDF (select mask (Country_Code df)) (select mask (DateTime df))
       (select mask <$> cols df).

(** [sub[columns].sum(axis=1)] over the [n] rows of a frame: the row
    sums, NaN counting as 0. *)
Definition sum_axis1 (n : nat) (columns : list Series) : Series :=
  foldl (zip_with (λ a x, num_add a (if is_nan x then Fin 0 else x)))
        (replicate n (Fin 0)) columns.

(** One statement [df.loc[m, target] = rhs(df.loc[m])] of a loop over the
    countries, with [m] the mask [df.Country_Code == c_code]: the right
    side is computed on the rows of the country and written back to them. *)
Definition loc_update (c_code target : string)
    (rhs : DataFrame → option Series) (df : DataFrame) : option DataFrame :=
  let m := code_mask c_code df in
  vals ← rhs (loc m df);
  Some (loc_set m target vals df).

(** [sub[col].replace(to_replace=0, method='ffill')] *)
Definition ffill_of (col : string) (sub : DataFrame) : option Series :=
  replace_ffill <$> getitem sub col.

(** [sub[COL.si_cols].sum(axis=1) / 9] *)
Definition mean_si (sub : DataFrame) : option Series :=
  ss ← mapM (getitem sub) COL.si_cols;
  Some ((λ x, num_div x (Fin 9)) <$> sum_axis1 (nrows sub) ss).

(** Body of the loop over the countries. *)
Definition fill_country (df : DataFrame) (c_code : string) : option DataFrame :=
  df ← for_each (λ df col, loc_update c_code col (ffill_of col) df)
        COL.si_cols df;
  df ← loc_update c_code "ConfirmedCases" (ffill_of "ConfirmedCases") df;
  df ← loc_update c_code "ConfirmedDeaths" (ffill_of "ConfirmedDeaths") df;
  df ← loc_update c_code "Recovered" (ffill_of "Recovered") df;
  df ← loc_update c_code "StringencyIndex" (ffill_of "StringencyIndex") df;
  (* compute m(t|L) *)
  df ← loc_update c_code "pt" mean_si df;
  df ← loc_update c_code "Pt" (λ sub, cumsum <$> getitem sub "pt") df;
  df ← loc_update c_code "mt"
        (λ sub, fmap (M:=list) (num_sub (Fin 1)) <$> getitem sub "pt") df;
  df ← loc_update c_code "Mt" (λ sub, cumsum <$> getitem sub "mt") df;
  df ← loc_update c_code "st"
        (λ sub, fmap (M:=list) (λ x, num_div x (Fin 100))
                  <$> getitem sub "StringencyIndex") df;
  loc_update c_code "St" (λ sub, cumsum <$> getitem sub "st") df.

Definition fill_missing_values (df : DataFrame) : option DataFrame :=
  for_each fill_country (unique (Country_Code df)) df.

(** ** The population join *)

(** Modelled from the spec: [WorldPopulationData] is not part of the
    sources.  The provider is a table keyed by country code with a numeric
    population, here the map [wp]; the left join keeps the rows and their
    order and gives NaN to the rows whose code has no population. *)
Definition add_world_population_data (wp : gmap string num) (df : DataFrame)
    : DataFrame :=
  setitem "Population" ((λ c, default NaN (wp !! c)) <$> Country_Code df) df.

(** ** The Feature Synthesizer *)

(** [dates.min()], nothing for an empty selection. *)
Definition dates_min (dates : list Z) : option Z :=
  match dates with
  | [] => None
  | d :: dates' => Some (foldr Z.min d dates')
  end.

(** [(dates - dates.min()).dt.days.values] *)
Definition days_count (dates : list Z) : Series :=
  match dates_min dates with
  | Some d0 => (λ d, of_Z (d - d0)) <$> dates
  | None => []
  end.

(** Body of the loop over the countries. *)
Definition features_country (df : DataFrame) (c : string) : option DataFrame :=
  cases ← getitem df "ConfirmedCases";
  let m := zip_with andb (code_mask c df) (num_gt0 <$> cases) in
  let dates := DateTime (loc m df) in
  let df := loc_set m "DaysCountFromFirstCase" (days_count dates) df in
  df ← loc_update c "DailyConfirmedCases"
        (λ sub, diff <$> getitem sub "ConfirmedCases") df;
  df ← loc_update c "DailyConfirmedDeaths"
        (λ sub, diff <$> getitem sub "ConfirmedDeaths") df;
  df ← loc_update c "DailyRecovered"
        (λ sub, diff <$> getitem sub "Recovered") df;
  loc_update c "DailyActive" (λ sub, diff <$> getitem sub "Active") df.

(** [df[target] = df[a] op df[b]] *)
Definition set_binop (target : string) (op : num → num → num) (a b : string)
    (df : DataFrame) : option DataFrame :=
  x ← getitem df a;
  y ← getitem df b;
  Some (setitem target (zip_with op x y) df).

(** [df[col].fillna(0, inplace=True)] *)
Definition fillna_inplace (col : string) (df : DataFrame) : option DataFrame :=
  s ← getitem df col;
  Some (setitem col (fillna (Fin 0) s) df).

Definition create_features (df : DataFrame) : option DataFrame :=
  cases ← getitem df "ConfirmedCases";
  deaths ← getitem df "ConfirmedDeaths";
  recovered ← getitem df "Recovered";
  let df := setitem "Active"
      (zip_with num_sub (zip_with num_sub cases deaths) recovered) df in
  df ← set_binop "RelativeConfirmedCases" num_div "ConfirmedCases" "Population" df;
  df ← set_binop "RelativeConfirmedDeaths" num_div "ConfirmedDeaths" "Population" df;
  df ← set_binop "RelativeRecovered" num_div "Recovered" "Population" df;
  df ← set_binop "RelativeActive" num_div "Active" "Population" df;
  let df := setscalar "DailyConfirmedCases" (Fin 0) df in
  let df := setscalar "DailyConfirmedDeaths" (Fin 0) df in
  let df := setscalar "DailyRecovered" (Fin 0) df in
  let df := setscalar "DailyActive" (Fin 0) df in
  let df := setscalar "DaysCountFromFirstCase" (Fin 0) df in
  df ← for_each features_country (unique (Country_Code df)) df;
  (* replace the starting values that are set to Nan with 0 *)
  df ← fillna_inplace "DailyConfirmedCases" df;
  df ← fillna_inplace "DailyConfirmedDeaths" df;
  df ← fillna_inplace "DailyRecovered" df;
  fillna_inplace "DailyActive" df.

(** ** The pipeline *)

Definition process_data (wp : gmap string num) (df old_df : DataFrame)
    : option DataFrame :=
  df ← extend_data df old_df;
  df ← fill_missing_values df;
  let df := add_world_population_data wp df in
  create_features df.

(** * The vocabulary of the properties *)

(** ** Masks: selecting rows and writing them back *)

(** Two masks that never hold on the same row. *)
Definition disjoint (m1 m2 : list bool) : Prop :=
  Forall2 (λ a b, a && b = false) m1 m2.

(** ** Well-formed frames *)

(** Every column has one cell per row. *)
Definition wf (df : DataFrame) : Prop :=
  length (DateTime df) = nrows df ∧
  map_Forall (λ _ s, length s = nrows df) (cols df).

(** A column that is missing is created with NaN in every row. *)
Definition seed (t : string) (sub : DataFrame) : DataFrame :=
  match cols sub !! t with
  | Some _ => sub
  | None => setitem t (replicate (nrows sub) NaN) sub
  end.

(** ** Loops over the countries

    The body of a loop over the countries is a sequence of statements
    [df.loc[m, target] = rhs(df.loc[m])].  On the rows of the country it
    runs as the same statements on a frame holding only these rows; on the
    rows of the other countries it creates the missing targets and changes
    nothing else. *)

Definition stmt : Type := string * (DataFrame → option Series).

Definition run_loc (c : string) (prog : list stmt) (df : DataFrame)
    : option DataFrame :=
  for_each (λ df (st : stmt), loc_update c st.1 st.2 df) prog df.

(** [sub[target] = rhs(sub)] *)
Definition sub_update (target : string) (rhs : DataFrame → option Series)
    (sub : DataFrame) : option DataFrame :=
  vals ← rhs sub; Some (setitem target vals sub).

Definition run_sub (prog : list stmt) (sub : DataFrame) : option DataFrame :=
  for_each (λ sub (st : stmt), sub_update st.1 st.2 sub) prog sub.

(** What the lemmas ask of a right side: one cell per row, and no
    dependence on whether a missing column has been created with NaN. *)
Definition rhs_ok (rhs : DataFrame → option Series) : Prop :=
  (∀ sub v, wf sub → rhs sub = Some v → length v = nrows sub) ∧
  (∀ sub v t, rhs sub = Some v → rhs (seed t sub) = Some v).

Definition prog_ok (prog : list stmt) : Prop := Forall (λ st, rhs_ok st.2) prog.

Definition seeds (ts : list string) (sub : DataFrame) : DataFrame :=
  foldr seed sub ts.

Definition targets (prog : list stmt) : list string := fst <$> prog.

Definition same_keys (df df' : DataFrame) : Prop :=
  Country_Code df' = Country_Code df ∧ DateTime df' = DateTime df.

(** ** The statements of [fill_missing_values] *)

Definition ffill_stmts (l : list string) : list stmt :=
  (λ col, (col, ffill_of col)) <$> l.

Definition ffill_cols : list string :=
  COL.si_cols ++ ["ConfirmedCases"; "ConfirmedDeaths"; "Recovered";
                  "StringencyIndex"].

Definition feature_stmts : list stmt :=
  [ ("pt", mean_si);
    ("Pt", λ sub, cumsum <$> getitem sub "pt");
    ("mt", λ sub, fmap (M:=list) (num_sub (Fin 1)) <$> getitem sub "pt");
    ("Mt", λ sub, cumsum <$> getitem sub "mt");
    ("st", λ sub, fmap (M:=list) (λ x, num_div x (Fin 100))
                    <$> getitem sub "StringencyIndex");
    ("St", λ sub, cumsum <$> getitem sub "st") ].

Definition fill_prog : list stmt := ffill_stmts ffill_cols ++ feature_stmts.

(** ** The mobility features of one country *)

Definition pt_of (n : nat) (ss : list Series) : Series :=
  (λ x, num_div x (Fin 9)) <$> sum_axis1 n ss.

Definition mt_of (pt : Series) : Series := num_sub (Fin 1) <$> pt.

Definition st_of (si : Series) : Series := (λ x, num_div x (Fin 100)) <$> si.

Definition with_features (ss : list Series) (si : Series) (sub : DataFrame)
    : DataFrame :=
  let pt := pt_of (nrows sub) ss in
  setitem "St" (cumsum (st_of si))
    (setitem "st" (st_of si)
      (setitem "Mt" (cumsum (mt_of pt))
        (setitem "mt" (mt_of pt)
          (setitem "Pt" (cumsum pt)
            (setitem "pt" pt sub))))).

Definition feature_cols : list string := ["pt"; "Pt"; "mt"; "Mt"; "st"; "St"].

(** Reads through a stack of column assignments with known names. *)
Ltac lookup_nest :=
  repeat first [rewrite lookup_insert_eq
               | rewrite lookup_insert_ne by discriminate].

Ltac lookup_inserts :=
  repeat (first [rewrite lookup_insert_eq
                | rewrite lookup_insert_ne by done]; simpl).

(** ** The filler, country by country *)

(** The columns a stage reads are there. *)
Definition has_cols (l : list string) (df : DataFrame) : Prop :=
  Forall (λ col, is_Some (cols df !! col)) l.

(** The most recent cell of [s] that is not zero. *)
Definition last_valid (s : Series) : option num :=
  last (filter (λ x, num_is0 x = false) s).

(** ** Example frames *)

Definition ex_num (z : Z) : num := of_Z z.

(** Two countries; X reports cases from its third day on, with a gap in
    its policy codes, and Y reports nothing. *)
Definition ex_df : DataFrame :=
  mkDF ["X"; "X"; "Y"; "X"; "X"; "Y"; "X"] [0; 1; 0; 2; 3; 1; 4]%Z
    (list_to_map
       (((λ col, (col, Fin <$> [0; 0.5; 0; 0; 1; 0; 0.25]%Q)) <$> COL.si_cols)
        ++ [ ("ConfirmedCases", ex_num <$> [0; 0; 0; 5; 0; 0; 12]%Z);
             ("ConfirmedDeaths", ex_num <$> [0; 0; 0; 1; 0; 0; 2]%Z);
             ("Recovered", ex_num <$> [0; 0; 0; 0; 3; 0; 0]%Z);
             ("StringencyIndex", ex_num <$> [0; 40; 0; 0; 60; 0; 0]%Z) ])).

Ltac by_decide := apply (bool_decide_unpack _); vm_compute; exact I.

(** ** C7: the filler is idempotent *)

Definition ex_filled : DataFrame := default ex_df (fill_missing_values ex_df).

(** ** The statements of [create_features] *)

(** The day counts of one country: on the rows with a case, the days
    since the earliest of them; the other rows keep what the column held. *)
Definition days_rhs (sub : DataFrame) : option Series :=
  cases ← getitem sub "ConfirmedCases";
  let pos := num_gt0 <$> cases in
  Some (assign pos (days_count (select pos (DateTime sub)))
          (default (replicate (nrows sub) NaN)
                   (cols sub !! "DaysCountFromFirstCase"))).

Definition features_prog : list stmt :=
  [ ("DaysCountFromFirstCase", days_rhs);
    ("DailyConfirmedCases", λ sub, diff <$> getitem sub "ConfirmedCases");
    ("DailyConfirmedDeaths", λ sub, diff <$> getitem sub "ConfirmedDeaths");
    ("DailyRecovered", λ sub, diff <$> getitem sub "Recovered");
    ("DailyActive", λ sub, diff <$> getitem sub "Active") ].

(** ** Row-wise statements commute with the selection of rows *)

(** The statements of [create_features] before its loop. *)
Definition features_prelude (df : DataFrame) : option DataFrame :=
  cases ← getitem df "ConfirmedCases";
  deaths ← getitem df "ConfirmedDeaths";
  recovered ← getitem df "Recovered";
  let df := setitem "Active"
      (zip_with num_sub (zip_with num_sub cases deaths) recovered) df in
  df ← set_binop "RelativeConfirmedCases" num_div "ConfirmedCases" "Population" df;
  df ← set_binop "RelativeConfirmedDeaths" num_div "ConfirmedDeaths" "Population" df;
  df ← set_binop "RelativeRecovered" num_div "Recovered" "Population" df;
  df ← set_binop "RelativeActive" num_div "Active" "Population" df;
  Some (setscalar "DaysCountFromFirstCase" (Fin 0)
         (setscalar "DailyActive" (Fin 0)
           (setscalar "DailyRecovered" (Fin 0)
             (setscalar "DailyConfirmedDeaths" (Fin 0)
               (setscalar "DailyConfirmedCases" (Fin 0) df))))).

(** The statements of [create_features] after its loop. *)
Definition features_finale (df : DataFrame) : option DataFrame :=
  df ← fillna_inplace "DailyConfirmedCases" df;
  df ← fillna_inplace "DailyConfirmedDeaths" df;
  df ← fillna_inplace "DailyRecovered" df;
  fillna_inplace "DailyActive" df.

(** [create_features] on the rows of one country. *)
Definition create_sub (sub : DataFrame) : option DataFrame :=
  sub ← features_prelude sub;
  sub ← run_sub features_prog sub;
  features_finale sub.

(** ** What [create_features] leaves in one country *)

Definition created_cols : list string :=
  [ "Active"; "RelativeConfirmedCases"; "RelativeConfirmedDeaths";
    "RelativeRecovered"; "RelativeActive"; "DailyConfirmedCases";
    "DailyConfirmedDeaths"; "DailyRecovered"; "DailyActive";
    "DaysCountFromFirstCase" ].

Definition features_inputs : list string :=
  ["ConfirmedCases"; "ConfirmedDeaths"; "Recovered"; "Population"].

Definition active_of (cc cd rc : Series) : Series :=
  zip_with num_sub (zip_with num_sub cc cd) rc.

Definition days_of (cc : Series) (dates : list Z) : Series :=
  let pos := num_gt0 <$> cc in
  assign pos (days_count (select pos dates)) (replicate (length dates) (Fin 0)).

(** ** C5: daily deltas *)

Definition delta_cols : list (string * string) :=
  [ ("ConfirmedCases", "DailyConfirmedCases");
    ("ConfirmedDeaths", "DailyConfirmedDeaths");
    ("Recovered", "DailyRecovered");
    ("Active", "DailyActive") ].

Definition ex_wp : gmap string num := {[ "X" := of_Z 1000000 ]}.

Definition ex_joined : DataFrame := add_world_population_data ex_wp ex_filled.

(** ** The stages after [extend_data] *)

(** [process_data] from its second statement on. *)
Definition fill_and_synthesize (wp : gmap string num) (df : DataFrame)
    : option DataFrame :=
  df ← fill_missing_values df;
  create_features (add_world_population_data wp df).

(** The same stages on the rows of one country. *)
Definition synthesize_sub (wp : gmap string num) (sub : DataFrame)
    : option DataFrame :=
  sub ← run_sub fill_prog sub;
  create_sub (add_world_population_data wp sub).

(** ** C8: no leak between countries *)

(** [ex_df] with other values, and one more row, for country X. *)
Definition ex_df_alt : DataFrame :=
  mkDF ["X"; "X"; "Y"; "X"; "X"; "Y"; "X"; "X"] [0; 1; 0; 2; 3; 1; 4; 5]%Z
    (list_to_map
       (((λ col, (col, Fin <$> [1; 0; 0; 0.5; 0; 0; 0; 1]%Q)) <$> COL.si_cols)
        ++ [ ("ConfirmedCases", ex_num <$> [7; 0; 0; 9; 0; 0; 30; 31]%Z);
             ("ConfirmedDeaths", ex_num <$> [0; 2; 0; 0; 0; 0; 4; 4]%Z);
             ("Recovered", ex_num <$> [1; 0; 0; 0; 0; 0; 6; 0]%Z);
             ("StringencyIndex", ex_num <$> [80; 0; 0; 0; 20; 0; 0; 0]%Z) ])).

(** ** C4: days since the first case *)

Definition num_ge0 (x : num) : bool :=
  match x with Fin q => Qle_bool 0 q | _ => false end.

(** The counts of confirmed cases are finite and not negative. *)
Definition cases_nonneg (df : DataFrame) : Prop :=
  ∃ s, cols df !! "ConfirmedCases" = Some s ∧ Forall (λ x, num_ge0 x = true) s.

(** Within each country the rows are in date order. *)
Definition date_ordered (df : DataFrame) : Prop :=
  Forall (λ c, StronglySorted Z.le (DateTime (loc (code_mask c df) df)))
         (unique (Country_Code df)).

(** [d0] is the earliest date of a row with a confirmed case. *)
Definition first_case_date (dates : list Z) (cases : Series) (d0 : Z) : Prop :=
  (∃ p x, dates !! p = Some d0 ∧ cases !! p = Some x ∧ num_gt0 x = true) ∧
  (∀ j d x, dates !! j = Some d → cases !! j = Some x → num_gt0 x = true →
     (d0 ≤ d)%Z).

(** A frame of one country whose counts are those of the example. *)
Definition ex_x : DataFrame :=
  mkDF ["X"; "X"; "X"; "X"; "X"] [10; 11; 12; 13; 14]%Z
    (list_to_map
       [ ("ConfirmedCases", ex_num <$> [0; 0; 5; 5; 12]%Z);
         ("ConfirmedDeaths", ex_num <$> [0; 0; 0; 0; 0]%Z);
         ("Recovered", ex_num <$> [0; 0; 0; 0; 0]%Z);
         ("Population", ex_num <$> [100; 100; 100; 100; 100]%Z) ]).

(** ** C9: relative rates *)

Definition count_cols : list string :=
  ["ConfirmedCases"; "ConfirmedDeaths"; "Recovered"].

Definition rate_cols : list (string * string) :=
  [ ("ConfirmedCases", "RelativeConfirmedCases");
    ("ConfirmedDeaths", "RelativeConfirmedDeaths");
    ("Recovered", "RelativeRecovered");
    ("Active", "RelativeActive") ].

(** The columns that hold the population or are computed from it. *)
Definition population_cols : list string :=
  [ "Population"; "RelativeConfirmedCases"; "RelativeConfirmedDeaths";
    "RelativeRecovered"; "RelativeActive" ].

(** ** The transformer, column by column *)

(** [s_id + '_Flag'] for the column of an indicator. *)
Definition flag_col (column : string) : string :=
  split_head column +:+ "_Flag".

(** The column [m_id] that the transform of [column] writes. *)
Definition target (column : string) : option string :=
  (λ idx, "S" +:+ pretty idx) <$> index_of (split_head column).

Definition transform_inputs : list string :=
  COL.ci_cols ++
  (flag_col <$> [COL.h1; COL.c1; COL.c2; COL.c3; COL.c4; COL.c5; COL.c6; COL.c7]).

(** The indicators with a flag: index, raw column and divisor. *)
Definition flagged : list (N * string * Q) :=
  [ (1%N, COL.c1, 3%Q); (2%N, COL.c2, 3%Q); (3%N, COL.c3, 2%Q);
    (4%N, COL.c4, 4%Q); (5%N, COL.c5, 2%Q); (6%N, COL.c6, 3%Q);
    (7%N, COL.c7, 2%Q); (9%N, COL.h1, 2%Q) ].

(** ** C1: the mobility formula *)

(** Raw columns and flags of two rows. *)
Definition ex_old : DataFrame :=
  mkDF ["X"; "X"] [1; 0]%Z
    (list_to_map
       (((λ col, (col, ex_num <$> [2; 3]%Z)) <$> COL.ci_cols)
        ++ ((λ col, (flag_col col, ex_num <$> [1; 0]%Z)) <$> COL.ci_cols))).

(** ** C10: the feature labels *)

(** Each indicator column with the [FEATURE] constant named after it. *)
Definition named_features : list (string * string) :=
  [ (COL.h1, FEATURE.public_information);
    (COL.c1, FEATURE.school_closing);
    (COL.c2, FEATURE.workplace_closing);
    (COL.c3, FEATURE.cancel_public_events);
    (COL.c4, FEATURE.restrictions_on_gatherings);
    (COL.c5, FEATURE.close_public_transport);
    (COL.c6, FEATURE.stay_at_home_requirements);
    (COL.c7, FEATURE.restrictions_on_internal_movement);
    (COL.c8, FEATURE.international_travel_controls) ].

(** The indicator columns moved one place: C1..C8, then H1. *)
Definition shifted_cols : list string :=
  [ COL.c1; COL.c2; COL.c3; COL.c4; COL.c5; COL.c6; COL.c7; COL.c8; COL.h1 ].

(** ** Sums of rationals *)

Definition Qsum (qs : list Q) : Q := foldr Qplus 0%Q qs.

(** The running sums [acc + q1], [acc + q1 + q2], ... *)
Fixpoint Qrunning (acc : Q) (qs : list Q) : list Q :=
  match qs with
  | [] => []
  | q :: qs' => (acc + q)%Q :: Qrunning (acc + q)%Q qs'
  end.

Definition Qcumsum (qs : list Q) : list Q :=
  match qs with
  | [] => []
  | q :: qs' => q :: Qrunning q qs'
  end.

(** ** C3: the mobility features *)

(** [cum] holds the running sums of [inst]. *)
Definition running_sum_of (inst cum : Series) : Prop :=
  cum = cumsum inst ∧
  ∀ qs, inst = Fin <$> qs →
    ∃ sums, cum = Fin <$> sums ∧ length sums = length qs ∧
      ∀ (k : nat) v, sums !! k = Some v → (v == Qsum (take (S k) qs))%Q.

(** ** C6: the cumulative features never decrease *)

(** A finite cell between two bounds. *)
Definition in_range (lo hi : Q) (x : num) : bool :=
  match x with
  | Fin q => Qle_bool lo q && Qle_bool q hi
  | _ => false
  end.

(** A flag: 0 or 1. *)
Definition is_flag (x : num) : bool :=
  match x with
  | Fin q => Qeq_bool q 0 || Qeq_bool q 1
  | _ => false
  end.

(** Every cell of a column satisfies [p]; a missing column does not. *)
Definition all_cells (p : num → bool) (df : DataFrame) (col : string) : bool :=
  match getitem df col with
  | Some s => forallb p s
  | None => false
  end.

(** The raw ordinals are within their documented ranges (0..2, 0..3 or
    0..4, the largest value being the divisor of the indicator) and the
    flags are 0 or 1. *)
Definition raw_in_range (old_df : DataFrame) : bool :=
  forallb (λ e : N * string * Q,
             all_cells (in_range 0 e.2) old_df e.1.2 &&
             all_cells is_flag old_df (flag_col e.1.2)) flagged
  && all_cells (in_range 0 4) old_df COL.c8.

Definition num_le (x y : num) : Prop :=
  match x, y with
  | Fin a, Fin b => (a <= b)%Q
  | _, _ => False
  end.

(** Each cell is finite and at least the cell before it. *)
Definition nondecreasing (s : Series) : Prop :=
  ∀ (i : nat) a b, s !! i = Some a → s !! S i = Some b → num_le a b.

Definition cumulative_cols : list string := ["Mt"; "Pt"; "St"].

(** ** [extend_data] *)

(** The frame [extend_data] returns when its first loop gives [dft]. *)
Definition extended (dft : DataFrame) : DataFrame :=
  let sorted := sort_values
      (mkDF (Country_Code dft) (DateTime dft) (fillna (Fin 0) <$> cols dft)) in
  setscalar "St" (Fin 0) (setscalar "st" (Fin 0) (setscalar "Pt" (Fin 0)
    (setscalar "pt" (Fin 0) (setscalar "Mt" (Fin 0)
      (setscalar "mt" (Fin 0) sorted))))).

Ltac in_list := rewrite !elem_of_cons; auto 20.

(** ** The rows after the sort *)

Definition key_le (a b : string * Z * nat) : Prop := Is_true (key_leb a b).

(** ** C6: the cumulative columns never decrease *)

(** Raw codes and flags of two countries over the seven rows of [ex_df],
    every code between 0 and 2. *)
Definition ex_raw : DataFrame :=
  mkDF ["X"; "X"; "Y"; "X"; "X"; "Y"; "X"] [0; 1; 0; 2; 3; 1; 4]%Z
    (list_to_map
       (((λ col, (col, ex_num <$> [0; 1; 2; 2; 0; 1; 2]%Z)) <$> COL.ci_cols)
        ++ ((λ col, (flag_col col, ex_num <$> [0; 1; 1; 0; 0; 1; 1]%Z))
              <$> COL.ci_cols))).

(** ** What [extend_data] reads and returns *)

(** The order of the sort on two rows: by code, then by date. *)
Definition rows_le (a b : string * Z) : Prop :=
  String.ltb a.1 b.1 = true ∨ (a.1 = b.1 ∧ (a.2 ≤ b.2)%Z).

(** The frame [extend_data] returns on the examples. *)
Definition ex_extended : DataFrame := default ex_df (extend_data ex_df ex_raw).

(** ** The transformer outside the pipeline *)

(** [old_df] with a column numbered 12. *)
Definition ex_raw_wide : DataFrame :=
  setitem "C12_Test" (ex_num <$> [1; 2; 3; 4; 0; 1; 2]%Z) ex_raw.

(** ** The filler as a whole *)

(** The columns in which every cell is between 0 and 1 once the filler
    has run on raw values within their ranges. *)
Definition unit_cols : list string := COL.si_cols ++ ["pt"; "mt"; "st"].

(** ** [create_features] as a whole *)

(** What [create_features] returns on [ex_joined]. *)
Definition ex_features : DataFrame :=
  default ex_joined (create_features ex_joined).

(** * Properties *)

(** ** Masks: selecting rows and writing them back *)

Section masks.
Context {A : Type}.
Implicit Types (m : list bool) (s vals : list A).

Lemma length_select_eq {B} m s (t : list B) :
  length s = length t → length (select m s) = length (select m t).
Proof.
  revert s t. induction m as [|b m IH]; intros [|x s] [|y t] Hlen; simpl in *;
    try done.
  destruct b; simpl; auto.
Qed.

Lemma length_assign m vals s : length (assign m vals s) = length s.
Proof.
  revert vals s. induction m as [|b m IH]; intros vals [|x s]; simpl; try done.
  destruct b; [destruct vals|]; simpl; by rewrite IH.
Qed.

Lemma select_assign m vals s :
  length m = length s → length vals = length (select m s) →
  select m (assign m vals s) = vals.
Proof.
  revert vals s. induction m as [|b m IH]; intros vals [|x s] Hm Hv;
    simpl in *; try done.
  - by destruct vals.
  - destruct b.
    + destruct vals as [|v vals]; simpl in *; [done|].
      f_equal. apply IH; congruence.
    + apply IH; congruence.
Qed.

Lemma select_assign_disjoint m1 m2 vals s :
  disjoint m1 m2 → select m1 (assign m2 vals s) = select m1 s.
Proof.
  intros Hd. revert vals s.
  induction Hd as [|a b m1 m2 Hab Hd IH]; intros vals [|x s]; simpl; try done.
  destruct a, b; simpl in *; try done.
  - by rewrite IH.
  - destruct vals; simpl; by rewrite IH.
Qed.

Lemma select_replicate m n (x : A) :
  select m (replicate n x) = replicate (length (select m (replicate n x))) x.
Proof.
  revert n. induction m as [|b m IH]; intros [|n]; simpl; try done.
  destruct b; simpl; by rewrite <- IH.
Qed.

Lemma assign_and m p vals s :
  length m = length s → length p = length s →
  assign (zip_with andb m p) vals s
  = assign m (assign (select m p) vals (select m s)) s.
Proof.
  revert p vals s.
  induction m as [|b m IH]; intros [|a p] vals [|x s] Hm Hp; simpl in *;
    try done.
  destruct b; simpl.
  - destruct a; simpl.
    + destruct vals as [|v vals]; simpl.
      * f_equal. rewrite IH by congruence. done.
      * f_equal. apply IH; congruence.
    + f_equal. apply IH; congruence.
  - f_equal. apply IH; congruence.
Qed.

Lemma select_fmap {B} (f : A → B) m s :
  select m (f <$> s) = f <$> select m s.
Proof.
  revert s. induction m as [|b m IH]; intros [|x s]; simpl; try done.
  destruct b; simpl; by rewrite IH.
Qed.

Lemma select_lookup m s i x :
  select m s !! i = Some x → x ∈ s.
Proof.
  revert s i. induction m as [|b m IH]; intros [|y s] i; simpl; try done.
  destruct b.
  - destruct i as [|i]; simpl.
    + intros [= ->]. left.
    + intros H. right. eauto.
  - intros H. right. eauto.
Qed.

End masks.

Lemma select_zip_with {A B C} (f : A → B → C) m s t :
  select m (zip_with f s t) = zip_with f (select m s) (select m t).
Proof.
  revert s t. induction m as [|b m IH]; intros [|x s] [|y t]; simpl; try done.
  - by destruct b, (select m s).
  - destruct b; simpl; by rewrite IH.
Qed.

(** ** Well-formed frames *)

Lemma wf_lookup df col s : wf df → cols df !! col = Some s → length s = nrows df.
Proof. intros [_ H] Hs. exact (H _ _ Hs). Qed.

Lemma wf_setitem col s df :
  wf df → length s = nrows df → wf (setitem col s df).
Proof.
  intros [Hd Hc] Hs. split; [done|].
  unfold setitem, nrows in *; simpl. by apply map_Forall_insert_2.
Qed.

Lemma wf_setscalar col v df : wf df → wf (setscalar col v df).
Proof. intros H. apply wf_setitem; [done|]. by rewrite length_replicate. Qed.

Lemma length_code_mask c df : length (code_mask c df) = nrows df.
Proof. unfold code_mask, nrows. by rewrite length_fmap. Qed.

Lemma wf_loc m df : wf df → wf (loc m df).
Proof.
  intros [Hd Hc]. split; unfold nrows in *; simpl.
  - by apply length_select_eq.
  - intros col s. rewrite lookup_fmap.
    destruct (cols df !! col) as [s0|] eqn:E; simpl; [|done].
    intros [= <-]. apply length_select_eq. exact (Hc _ _ E).
Qed.

Lemma wf_loc_set m col vals df : wf df → wf (loc_set m col vals df).
Proof.
  intros H. apply wf_setitem; [done|]. rewrite length_assign.
  destruct (cols df !! col) as [s|] eqn:E; simpl.
  - by eapply wf_lookup.
  - by rewrite length_replicate.
Qed.

Lemma wf_seed t sub : wf sub → wf (seed t sub).
Proof.
  intros H. unfold seed. destruct (cols sub !! t); [done|].
  by apply wf_setscalar.
Qed.

Lemma nrows_seed t sub : nrows (seed t sub) = nrows sub.
Proof. unfold seed. by destruct (cols sub !! t). Qed.

Lemma seed_present t sub : is_Some (cols sub !! t) → seed t sub = sub.
Proof. intros [s Hs]. unfold seed. by rewrite Hs. Qed.

Lemma seed_setitem_same t s sub : setitem t s (seed t sub) = setitem t s sub.
Proof.
  unfold seed. destruct (cols sub !! t); [done|].
  unfold setitem; simpl. by rewrite insert_insert_eq.
Qed.

Lemma seed_setitem_ne t t' s sub :
  t ≠ t' → setitem t' s (seed t sub) = seed t (setitem t' s sub).
Proof.
  intros Hne. unfold seed; simpl. rewrite lookup_insert_ne by done.
  destruct (cols sub !! t); [done|].
  unfold setitem, nrows; simpl. by rewrite insert_insert_ne.
Qed.

Lemma loc_loc_set_same m t vals df :
  wf df → length m = nrows df → length vals = nrows (loc m df) →
  loc m (loc_set m t vals df) = setitem t vals (loc m df).
Proof.
  intros Hwf Hm Hv. unfold loc, loc_set, setitem; simpl. f_equal.
  rewrite fmap_insert. f_equal. apply select_assign.
  - destruct (cols df !! t) as [s|] eqn:E; simpl.
    + by rewrite (wf_lookup _ _ _ Hwf E).
    + by rewrite length_replicate.
  - rewrite Hv. unfold nrows, loc; simpl. apply length_select_eq.
    destruct (cols df !! t) as [s|] eqn:E; simpl.
    + by rewrite (wf_lookup _ _ _ Hwf E).
    + by rewrite length_replicate.
Qed.

Lemma loc_loc_set_other m' m t vals df :
  disjoint m' m → loc m' (loc_set m t vals df) = seed t (loc m' df).
Proof.
  intros Hd. unfold loc, loc_set, seed, setitem; simpl.
  rewrite fmap_insert, lookup_fmap, select_assign_disjoint by done.
  destruct (cols df !! t) as [s|] eqn:E; simpl.
  - f_equal. apply insert_id. by rewrite lookup_fmap, E.
  - f_equal. f_equal. rewrite select_replicate. f_equal.
    unfold nrows; simpl. apply length_select_eq. by rewrite length_replicate.
Qed.

Lemma code_mask_disjoint c c' df :
  c ≠ c' → disjoint (code_mask c' df) (code_mask c df).
Proof.
  intros Hne. unfold disjoint, code_mask.
  induction (Country_Code df) as [|k ks IH]; simpl; constructor; [|done].
  repeat case_bool_decide; simplify_eq; done.
Qed.

Lemma code_mask_loc_set c m t vals df :
  code_mask c (loc_set m t vals df) = code_mask c df.
Proof. done. Qed.

(** ** Loops over the countries

    The body of a loop over the countries is a sequence of statements
    [df.loc[m, target] = rhs(df.loc[m])].  On the rows of the country it
    runs as the same statements on a frame holding only these rows; on the
    rows of the other countries it creates the missing targets and changes
    nothing else. *)

Lemma for_each_app {A S} (body : S → A → option S) l1 l2 s :
  for_each body (l1 ++ l2) s = s' ← for_each body l1 s; for_each body l2 s'.
Proof.
  revert s. induction l1 as [|x l1 IH]; intros s; simpl; [done|].
  destruct (body s x); simpl; auto.
Qed.

Lemma loc_update_same c t rhs df :
  wf df → rhs_ok rhs →
  loc (code_mask c df) <$> loc_update c t rhs df
  = sub_update t rhs (loc (code_mask c df) df).
Proof.
  intros Hwf [Hlen _]. unfold loc_update, sub_update.
  destruct (rhs (loc (code_mask c df) df)) as [vals|] eqn:E; simpl; [|done].
  f_equal. apply loc_loc_set_same; [done|apply length_code_mask|].
  eapply Hlen; [|done]. by apply wf_loc.
Qed.

Lemma loc_update_keys c t rhs df df' :
  wf df → loc_update c t rhs df = Some df' → wf df' ∧ same_keys df df'.
Proof.
  unfold loc_update. intros Hwf H.
  destruct (rhs _) as [vals|]; simplify_eq/=.
  split; [by apply wf_loc_set|done].
Qed.

Lemma run_loc_keys c prog df df' :
  wf df → run_loc c prog df = Some df' → wf df' ∧ same_keys df df'.
Proof.
  unfold run_loc. revert df. induction prog as [|[t rhs] prog IH]; intros df Hwf H;
    simpl in *.
  - by simplify_eq.
  - destruct (loc_update c t rhs df) as [df1|] eqn:E; simplify_eq/=.
    destruct (loc_update_keys _ _ _ _ _ Hwf E) as [Hwf1 [Hc1 Hd1]].
    destruct (IH _ Hwf1 H) as [Hwf' [Hc' Hd']].
    split; [done|]. split; congruence.
Qed.

Lemma code_mask_keys c df df' :
  same_keys df df' → code_mask c df' = code_mask c df.
Proof. intros [H _]. unfold code_mask. by rewrite H. Qed.

Lemma run_loc_same c prog df :
  wf df → prog_ok prog →
  loc (code_mask c df) <$> run_loc c prog df
  = run_sub prog (loc (code_mask c df) df).
Proof.
  unfold run_loc, run_sub. intros Hwf Hok. revert df Hwf.
  induction Hok as [|[t rhs] prog Hrhs Hok IH]; intros df Hwf; simpl; [done|].
  pose proof (loc_update_same c t rhs df Hwf Hrhs) as Hstep.
  destruct (loc_update c t rhs df) as [df1|] eqn:E; simpl in *.
  - rewrite <- Hstep; simpl.
    destruct (loc_update_keys _ _ _ _ _ Hwf E) as [Hwf1 Hk].
    rewrite <- (code_mask_keys c _ _ Hk). by apply IH.
  - by rewrite <- Hstep.
Qed.

Lemma run_loc_other c c' prog df df' :
  c ≠ c' → run_loc c prog df = Some df' →
  loc (code_mask c' df') df' = seeds (reverse (targets prog)) (loc (code_mask c' df) df).
Proof.
  unfold run_loc. intros Hne. revert df.
  induction prog as [|[t rhs] prog IH]; intros df H; simpl in *.
  - by simplify_eq.
  - destruct (loc_update c t rhs df) as [df1|] eqn:E; simplify_eq/=.
    rewrite (IH _ H). unfold targets; simpl. rewrite reverse_cons.
    unfold seeds. rewrite foldr_app; simpl. f_equal.
    unfold loc_update in E. destruct (rhs _) as [vals|]; simplify_eq/=.
    rewrite code_mask_loc_set. apply loc_loc_set_other.
    by apply code_mask_disjoint.
Qed.

Lemma seeds_present ts sub :
  (∀ t, t ∈ ts → is_Some (cols sub !! t)) → seeds ts sub = sub.
Proof.
  induction ts as [|t ts IH]; intros H; simpl; [done|].
  rewrite IH by (intros; apply H; by right).
  apply seed_present, H. by left.
Qed.

Lemma lookup_seed_is_Some t k sub :
  is_Some (cols sub !! k) → is_Some (cols (seed t sub) !! k).
Proof.
  unfold seed. destruct (cols sub !! t) eqn:E; [done|]. simpl.
  intros H. destruct (decide (t = k)) as [->|Hne].
  - by rewrite lookup_insert_eq.
  - by rewrite lookup_insert_ne.
Qed.

Lemma sub_update_seed t t' rhs sub r :
  rhs_ok rhs → sub_update t' rhs sub = Some r →
  sub_update t' rhs (seed t sub) = Some (seed t r).
Proof.
  intros [_ Hst]. unfold sub_update. intros H.
  destruct (rhs sub) as [v|] eqn:E; simplify_eq/=.
  rewrite (Hst _ _ t E); simpl. f_equal.
  destruct (decide (t = t')) as [->|Hne].
  - rewrite seed_setitem_same. symmetry. apply seed_present.
    simpl. by rewrite lookup_insert_eq.
  - by apply seed_setitem_ne.
Qed.

Lemma run_sub_seed t prog sub r :
  prog_ok prog → run_sub prog sub = Some r →
  run_sub prog (seed t sub) = Some (seed t r).
Proof.
  unfold run_sub. intros Hok. revert sub.
  induction Hok as [|[t' rhs] prog Hrhs Hok IH]; intros sub H; simpl in *.
  - by simplify_eq.
  - destruct (sub_update t' rhs sub) as [sub1|] eqn:E; simplify_eq/=.
    rewrite (sub_update_seed _ _ _ _ _ Hrhs E); simpl. by apply IH.
Qed.

Lemma run_sub_seeds ts prog sub r :
  prog_ok prog → run_sub prog sub = Some r →
  run_sub prog (seeds ts sub) = Some (seeds ts r).
Proof.
  intros Hok H. induction ts as [|t ts IH]; simpl; [done|].
  by apply run_sub_seed.
Qed.

Lemma sub_update_present t rhs sub r k :
  sub_update t rhs sub = Some r →
  (k = t ∨ is_Some (cols sub !! k)) → is_Some (cols r !! k).
Proof.
  unfold sub_update. intros H Hk.
  destruct (rhs sub) as [v|]; simplify_eq/=.
  destruct Hk as [->|Hk]; [by rewrite lookup_insert_eq|].
  destruct (decide (t = k)) as [->|Hne].
  - by rewrite lookup_insert_eq.
  - by rewrite lookup_insert_ne.
Qed.

Lemma run_sub_present prog sub r k :
  run_sub prog sub = Some r →
  (k ∈ targets prog ∨ is_Some (cols sub !! k)) → is_Some (cols r !! k).
Proof.
  unfold run_sub, targets. revert sub.
  induction prog as [|[t rhs] prog IH]; intros sub H Hk; simpl in *.
  - simplify_eq. destruct Hk as [Hk|Hk]; [by inversion Hk|done].
  - destruct (sub_update t rhs sub) as [sub1|] eqn:E; simplify_eq/=.
    apply (IH _ H). destruct Hk as [Hk|Hk].
    + apply elem_of_cons in Hk as [->|Hk]; [right|by left].
      eapply sub_update_present; [exact E|by left].
    + right. eapply sub_update_present; [exact E|by right].
Qed.

Lemma run_sub_seeded prog sub r :
  prog_ok prog → run_sub prog sub = Some r →
  run_sub prog (seeds (reverse (targets prog)) sub) = Some r.
Proof.
  intros Hok H. rewrite (run_sub_seeds _ _ _ _ Hok H). f_equal.
  apply seeds_present. intros t Ht. rewrite elem_of_reverse in Ht.
  eapply run_sub_present; [exact H|by left].
Qed.

Lemma seeds_iter_result prog sub r k :
  run_sub prog sub = Some r →
  Nat.iter k (seeds (reverse (targets prog))) r = r.
Proof.
  intros H. induction k as [|k IH]; simpl; [done|]. rewrite IH.
  apply seeds_present. intros t Ht. rewrite elem_of_reverse in Ht.
  eapply run_sub_present; [exact H|by left].
Qed.

Lemma run_sub_seeded_iter prog sub r k :
  prog_ok prog → run_sub prog sub = Some r →
  run_sub prog (Nat.iter k (seeds (reverse (targets prog))) sub) = Some r.
Proof.
  intros Hok H. induction k as [|k IH]; simpl; [done|].
  by apply run_sub_seeded.
Qed.

(** The loop [for c in cs: body] over distinct countries. *)
Lemma country_loop prog cs df :
  prog_ok prog → wf df → NoDup cs →
  (∀ c, c ∈ cs → is_Some (run_sub prog (loc (code_mask c df) df))) →
  ∃ df', for_each (λ df c, run_loc c prog df) cs df = Some df' ∧
    wf df' ∧ same_keys df df' ∧
    (∀ c, c ∈ cs →
       run_sub prog (loc (code_mask c df) df) = Some (loc (code_mask c df') df')) ∧
    (∀ c, c ∉ cs → ∃ k,
       loc (code_mask c df') df'
       = Nat.iter k (seeds (reverse (targets prog))) (loc (code_mask c df) df)).
Proof.
  intros Hok Hwf Hnd. revert df Hwf.
  induction Hnd as [|c1 cs Hc1 Hnd IH]; intros df Hwf Htot; simpl.
  - exists df. split; [done|]. split; [done|]. split; [done|]. split.
    + intros c Hc. by inversion Hc.
    + intros c _. by exists 0%nat.
  - pose proof (run_loc_same c1 prog df Hwf Hok) as Hsame.
    destruct (Htot c1) as [r1 Hr1]; [by left|]. rewrite Hr1 in Hsame.
    destruct (run_loc c1 prog df) as [df1|] eqn:E1; simplify_eq/=.
    destruct (run_loc_keys _ _ _ _ Hwf E1) as [Hwf1 Hk1].
    assert (Hoth : ∀ c, c ≠ c1 →
      loc (code_mask c df1) df1
      = seeds (reverse (targets prog)) (loc (code_mask c df) df)).
    { intros c Hne. eapply run_loc_other; [|done]. done. }
    destruct (IH df1 Hwf1) as (df' & Hrun & Hwf' & Hk' & Hin & Hout).
    { intros c Hc. destruct (Htot c) as [r Hr]; [by right|].
      rewrite Hoth by (intros ->; done). exists r. by apply run_sub_seeded. }
    exists df'. split; [done|]. split; [done|]. split.
    { destruct Hk1, Hk'. split; congruence. }
    split.
    + intros c Hc. apply elem_of_cons in Hc as [->|Hc].
      * destruct (Hout c1 Hc1) as [k Hk]. rewrite Hk.
        rewrite (code_mask_keys c1 _ _ Hk1).
        rewrite (seeds_iter_result _ _ _ k Hr1). by rewrite Hr1.
      * rewrite <- (Hin c Hc). rewrite Hoth by (intros ->; done).
        destruct (Htot c) as [r Hr]; [by right|]. rewrite Hr.
        symmetry. by apply run_sub_seeded.
    + intros c Hc. apply not_elem_of_cons in Hc as [Hne Hc].
      destruct (Hout c Hc) as [k Hk]. exists (S k). rewrite Hk, Hoth by done.
      by rewrite Nat.iter_succ_r.
Qed.

(** ** The countries of a frame *)

Lemma elem_of_unique x l : x ∈ unique l ↔ x ∈ l.
Proof.
  induction l as [|y l IH]; simpl; [done|].
  rewrite !elem_of_cons, list_elem_of_filter, IH.
  destruct (decide (x = y)); tauto.
Qed.

Lemma NoDup_unique l : NoDup (unique l).
Proof.
  induction l as [|y l IH]; simpl; [constructor|].
  constructor.
  - rewrite list_elem_of_filter. by intros [Hy _].
  - by apply NoDup_filter.
Qed.

(** A column is known once its cells are known country by country. *)
Lemma select_by_code_ext {A} (codes : list string) (s1 s2 : list A) :
  length s1 = length codes → length s2 = length codes →
  (∀ c, c ∈ codes →
     select ((λ k, bool_decide (k = c)) <$> codes) s1
     = select ((λ k, bool_decide (k = c)) <$> codes) s2) →
  s1 = s2.
Proof.
  revert s1 s2. induction codes as [|k ks IH]; intros s1 s2 H1 H2 H.
  { destruct s1, s2; done. }
  destruct s1 as [|a s1], s2 as [|b s2]; try done.
  injection H1 as H1. injection H2 as H2.
  assert (Hk : k ∈ k :: ks) by left.
  apply H in Hk. simpl in Hk.
  rewrite bool_decide_eq_true_2 in Hk by done.
  injection Hk as -> Hk. f_equal. apply IH; [done..|].
  intros c Hc. destruct (decide (k = c)) as [->|Hne]; [done|].
  assert (Hin : c ∈ k :: ks) by (by right).
  apply H in Hin. simpl in Hin.
  by rewrite bool_decide_eq_false_2 in Hin.
Qed.

Lemma frames_ext df1 df2 :
  wf df1 → wf df2 → same_keys df1 df2 → Country_Code df1 ≠ [] →
  (∀ c, c ∈ Country_Code df1 →
     loc (code_mask c df1) df1 = loc (code_mask c df2) df2) →
  df1 = df2.
Proof.
  intros Hwf1 Hwf2 [Hc Hd] Hne H.
  destruct df1 as [codes dates cols1], df2 as [codes2 dates2 cols2];
    simpl in *; subst. f_equal.
  apply map_eq. intros col.
  assert (∃ c0, c0 ∈ codes) as [c0 Hc0].
  { destruct codes as [|c0 ks]; [done|]. exists c0. left. }
  assert (Hcol : ∀ c, c ∈ codes →
    select ((λ k, bool_decide (k = c)) <$> codes) <$> cols1 !! col
    = select ((λ k, bool_decide (k = c)) <$> codes) <$> cols2 !! col).
  { intros c Hin. specialize (H c Hin). unfold loc, code_mask in H; simpl in H.
    injection H as H. rewrite <- !lookup_fmap. by rewrite H. }
  destruct (cols1 !! col) as [s1|] eqn:E1, (cols2 !! col) as [s2|] eqn:E2;
    try (specialize (Hcol c0 Hc0); done).
  f_equal. apply (select_by_code_ext codes).
  - exact (wf_lookup _ _ _ Hwf1 E1).
  - exact (wf_lookup _ _ _ Hwf2 E2).
  - intros c Hin. specialize (Hcol c Hin). by simplify_eq/=.
Qed.

(** ** Right sides that read columns *)

Lemma getitem_seed t sub col s :
  getitem sub col = Some s → getitem (seed t sub) col = Some s.
Proof.
  unfold getitem, seed. intros H. destruct (cols sub !! t) eqn:E; [done|].
  simpl. rewrite lookup_insert_ne; [done|]. intros ->. congruence.
Qed.

Lemma rhs_ok_column (f : Series → Series) col :
  (∀ s, length (f s) = length s) →
  rhs_ok (λ sub, f <$> getitem sub col).
Proof.
  intros Hf. split.
  - intros sub v Hwf H. destruct (getitem sub col) as [s|] eqn:E; simplify_eq/=.
    rewrite Hf. by eapply wf_lookup.
  - intros sub v t H. destruct (getitem sub col) as [s|] eqn:E; simplify_eq/=.
    by rewrite (getitem_seed _ _ _ _ E).
Qed.

Lemma length_pad last s : length (pad last s) = length s.
Proof.
  revert last. induction s as [|x s IH]; intros last; simpl; [done|].
  destruct (num_is0 x); simpl; by rewrite IH.
Qed.

Lemma length_running acc s : length (running acc s) = length s.
Proof.
  revert acc. induction s as [|x s IH]; intros acc; simpl; [done|].
  by rewrite IH.
Qed.

Lemma length_np_cumsum s : length (np_cumsum s) = length s.
Proof. destruct s; simpl; [done|]. by rewrite length_running. Qed.

Lemma length_cumsum s : length (cumsum s) = length s.
Proof.
  unfold cumsum. rewrite length_zip_with, length_np_cumsum.
  unfold fillna. rewrite length_fmap. lia.
Qed.

Lemma length_diff_from prev s : length (diff_from prev s) = length s.
Proof.
  revert prev. induction s as [|x s IH]; intros prev; simpl; [done|].
  by rewrite IH.
Qed.

Lemma length_diff s : length (diff s) = length s.
Proof. destruct s; simpl; [done|]. by rewrite length_diff_from. Qed.

(** ** The statements of [fill_missing_values] *)

Lemma for_each_fmap {A B S} (body : S → B → option S) (f : A → B) l s :
  for_each body (f <$> l) s = for_each (λ s x, body s (f x)) l s.
Proof.
  revert s. induction l as [|x l IH]; intros s; simpl; [done|].
  destruct (body s (f x)); simpl; auto.
Qed.

Lemma for_each_ext {A S} (body1 body2 : S → A → option S) l s :
  (∀ s x, body1 s x = body2 s x) → for_each body1 l s = for_each body2 l s.
Proof.
  intros H. revert s. induction l as [|x l IH]; intros s; simpl; [done|].
  rewrite H. destruct (body2 s x); simpl; auto.
Qed.

Lemma fill_country_prog df c : fill_country df c = run_loc c fill_prog df.
Proof.
  unfold fill_country, run_loc, fill_prog, ffill_cols, ffill_stmts.
  rewrite fmap_app, <- app_assoc, for_each_app, for_each_fmap. simpl fst. simpl snd.
  destruct (for_each _ COL.si_cols df) as [df1|]; simpl; [|done].
  repeat match goal with
  | |- context [loc_update ?c ?t ?r ?d] =>
      destruct (loc_update c t r d); simpl; try done
  end.
Qed.

Lemma fill_missing_values_prog df :
  fill_missing_values df
  = for_each (λ df c, run_loc c fill_prog df) (unique (Country_Code df)) df.
Proof. apply for_each_ext, fill_country_prog. Qed.

Lemma length_sum_axis1 n ss :
  Forall (λ s : Series, length s = n) ss → length (sum_axis1 n ss) = n.
Proof.
  unfold sum_axis1. intros H.
  assert (Hn : length (replicate n (Fin 0)) = n) by apply length_replicate.
  revert Hn. generalize (replicate n (Fin 0)).
  induction H as [|s ss Hs H IH]; intros acc Hn; simpl; [done|].
  apply IH. rewrite length_zip_with. lia.
Qed.

Lemma mapM_getitem_length sub l ss :
  wf sub → mapM (getitem sub) l = Some ss →
  Forall (λ s : Series, length s = nrows sub) ss.
Proof.
  intros Hwf H. apply mapM_Some in H.
  induction H as [|col s l ss Hs H IH]; constructor; [|done].
  by eapply wf_lookup.
Qed.

Lemma mapM_getitem_seed t sub l ss :
  mapM (getitem sub) l = Some ss → mapM (getitem (seed t sub)) l = Some ss.
Proof.
  rewrite !mapM_Some. intros H.
  induction H as [|col s l ss Hs H IH]; constructor; [|done].
  by apply getitem_seed.
Qed.

Lemma rhs_ok_mean_si : rhs_ok mean_si.
Proof.
  split.
  - intros sub v Hwf H. unfold mean_si in H.
    destruct (mapM _ _) as [ss|] eqn:E; [|done].
    injection H as <-.
    rewrite length_fmap. apply length_sum_axis1.
    eapply mapM_getitem_length; [exact Hwf|exact E].
  - intros sub v t H. unfold mean_si in *.
    destruct (mapM (getitem sub) _) as [ss|] eqn:E; [|done].
    injection H as <-.
    rewrite (mapM_getitem_seed _ _ _ _ E). by rewrite nrows_seed.
Qed.

Lemma prog_ok_ffill l : prog_ok (ffill_stmts l).
Proof.
  unfold prog_ok, ffill_stmts. apply Forall_fmap, Forall_forall.
  intros col _. simpl. apply rhs_ok_column. intros s. apply length_pad.
Qed.

Lemma prog_ok_features : prog_ok feature_stmts.
Proof.
  unfold prog_ok, feature_stmts.
  repeat (apply Forall_cons; split); simpl;
    [apply rhs_ok_mean_si | apply rhs_ok_column ..| apply Forall_nil_2];
    intros s; rewrite ?length_cumsum, ?length_fmap; done.
Qed.

Lemma prog_ok_fill : prog_ok fill_prog.
Proof. apply Forall_app. split; [apply prog_ok_ffill|apply prog_ok_features]. Qed.

(** ** Forward fill *)

Lemma pad_pad last s :
  (∀ v, last = Some v → num_is0 v = false) →
  pad last (pad last s) = pad last s.
Proof.
  revert last. induction s as [|x s IH]; intros last Hlast; simpl; [done|].
  destruct (num_is0 x) eqn:Ex; simpl.
  - destruct last as [v|]; simpl.
    + rewrite (Hlast v eq_refl). f_equal. apply IH.
      intros v' [= <-]. by apply Hlast.
    + rewrite Ex. simpl. f_equal. by apply IH.
  - rewrite Ex. f_equal. apply IH. by intros v' [= <-].
Qed.

Lemma replace_ffill_idem s : replace_ffill (replace_ffill s) = replace_ffill s.
Proof. apply pad_pad. done. Qed.

Lemma run_sub_keys prog sub r :
  run_sub prog sub = Some r → same_keys sub r.
Proof.
  unfold run_sub. revert sub.
  induction prog as [|[t rhs] prog IH]; intros sub H; simpl in *.
  - by simplify_eq.
  - destruct (sub_update t rhs sub) as [sub1|] eqn:E; simpl in H; [|done].
    unfold sub_update in E. destruct (rhs sub) as [v|]; simplify_eq/=.
    destruct (IH _ H) as [Hc Hd]. split; [exact Hc|exact Hd].
Qed.

Lemma run_sub_ffill l sub r :
  run_sub (ffill_stmts l) sub = Some r →
  ∀ k, cols r !! k
       = if decide (k ∈ l) then replace_ffill <$> cols sub !! k
         else cols sub !! k.
Proof.
  unfold run_sub, ffill_stmts. revert sub.
  induction l as [|col l IH]; intros sub H k; simpl in H.
  - simplify_eq. by rewrite decide_False by apply not_elem_of_nil.
  - destruct (sub_update col (ffill_of col) sub) as [sub1|] eqn:E1;
      simpl in H; [|done].
    unfold sub_update, ffill_of, getitem in E1.
    destruct (cols sub !! col) as [s|] eqn:E; simplify_eq/=.
    rewrite (IH _ H k). simpl.
    destruct (decide (k = col)) as [->|Hne].
    + rewrite lookup_insert_eq, E.
      rewrite (decide_True (P := col ∈ col :: l)) by left. simpl.
      case_decide; simpl; [|done]. by rewrite replace_ffill_idem.
    + rewrite lookup_insert_ne by done.
      destruct (decide (k ∈ l)) as [Hin|Hin].
      * by rewrite (decide_True (P := k ∈ col :: l)) by (by right).
      * rewrite (decide_False (P := k ∈ col :: l)); [done|].
        by apply not_elem_of_cons.
Qed.

Lemma run_sub_ffill_total l sub :
  (∀ col, col ∈ l → is_Some (cols sub !! col)) →
  is_Some (run_sub (ffill_stmts l) sub).
Proof.
  unfold run_sub, ffill_stmts. revert sub.
  induction l as [|col l IH]; intros sub H; simpl; [done|].
  destruct (H col) as [s Hs]; [by left|].
  assert (E : sub_update col (ffill_of col) sub
              = Some (setitem col (replace_ffill s) sub)).
  { unfold sub_update, ffill_of, getitem. by rewrite Hs. }
  rewrite E. simpl.
  apply IH. intros k Hk. simpl.
  destruct (decide (col = k)) as [->|Hne].
  - by rewrite lookup_insert_eq.
  - rewrite lookup_insert_ne by done. apply H. by right.
Qed.

(** ** The mobility features of one country *)

Lemma run_sub_features sub :
  run_sub feature_stmts sub
  = ss ← mapM (getitem sub) COL.si_cols;
    si ← getitem sub "StringencyIndex";
    Some (with_features ss si sub).
Proof.
  unfold run_sub, feature_stmts. cbn [for_each fst snd].
  unfold sub_update, mean_si.
  destruct (mapM (getitem sub) COL.si_cols) as [ss|]; [|done].
  unfold getitem, setitem. simpl. lookup_inserts.
  destruct (cols sub !! "StringencyIndex") as [si|]; [|done]. simpl.
  by lookup_inserts.
Qed.

Lemma lookup_with_features ss si sub k :
  k ∉ feature_cols →
  cols (with_features ss si sub) !! k = cols sub !! k.
Proof.
  unfold feature_cols. rewrite !not_elem_of_cons. intros (?&?&?&?&?&?&_).
  unfold with_features; simpl. by rewrite !lookup_insert_ne.
Qed.

(** ** The filler, country by country *)

Lemma has_cols_loc l m df : has_cols l df → has_cols l (loc m df).
Proof.
  unfold has_cols. intros H. eapply Forall_impl; [exact H|].
  intros col [s Hs]. simpl. rewrite lookup_fmap, Hs. by eexists.
Qed.

Lemma run_sub_fill sub :
  run_sub fill_prog sub
  = mid ← run_sub (ffill_stmts ffill_cols) sub;
    ss ← mapM (getitem mid) COL.si_cols;
    si ← getitem mid "StringencyIndex";
    Some (with_features ss si mid).
Proof.
  unfold fill_prog. unfold run_sub at 1. rewrite for_each_app.
  fold (run_sub (ffill_stmts ffill_cols) sub).
  destruct (run_sub (ffill_stmts ffill_cols) sub) as [mid|]; [|done].
  apply run_sub_features.
Qed.

Lemma ffill_cols_si col : col ∈ COL.si_cols → col ∈ ffill_cols.
Proof. intros H. unfold ffill_cols. apply elem_of_app. by left. Qed.

Lemma fill_sub_total sub :
  has_cols ffill_cols sub → is_Some (run_sub fill_prog sub).
Proof.
  intros Hcols. rewrite run_sub_fill.
  destruct (run_sub_ffill_total ffill_cols sub) as [mid Hmid].
  { by apply Forall_forall. }
  rewrite Hmid. cbn [mbind option_bind].
  assert (Hin : ∀ col, col ∈ ffill_cols → is_Some (getitem mid col)).
  { intros col Hcol. unfold getitem. rewrite (run_sub_ffill _ _ _ Hmid).
    rewrite decide_True by done.
    destruct (proj1 (Forall_forall _ _) Hcols col Hcol) as [s ->].
    by eexists. }
  destruct (mapM (getitem mid) COL.si_cols) as [ss|] eqn:Ess.
  - cbn [mbind option_bind].
    destruct (Hin "StringencyIndex") as [si ->]; [|by eexists].
    unfold ffill_cols. apply elem_of_app. right.
    rewrite !elem_of_cons. auto 10.
  - exfalso. apply eq_None_not_Some in Ess. apply Ess.
    apply mapM_is_Some, Forall_forall. intros col Hcol.
    by apply Hin, ffill_cols_si.
Qed.

(** The loop of [fill_missing_values] returns, and leaves on the rows of
    each country what its body computes from these rows alone. *)
Lemma fill_missing_values_loc df :
  wf df → has_cols ffill_cols df →
  ∃ df', fill_missing_values df = Some df' ∧ wf df' ∧ same_keys df df' ∧
    ∀ c, c ∈ Country_Code df →
      run_sub fill_prog (loc (code_mask c df) df)
      = Some (loc (code_mask c df') df').
Proof.
  intros Hwf Hcols. rewrite fill_missing_values_prog.
  destruct (country_loop fill_prog (unique (Country_Code df)) df)
    as (df' & Hrun & Hwf' & Hk & Hin & _).
  - apply prog_ok_fill.
  - done.
  - apply NoDup_unique.
  - intros c _. by apply fill_sub_total, has_cols_loc.
  - exists df'. split; [done|]. split; [done|]. split; [done|].
    intros c Hc. apply Hin. by apply elem_of_unique.
Qed.

Lemma last_valid_cons x s :
  last_valid (x :: s)
  = match last_valid s with
    | Some v => Some v
    | None => if num_is0 x then None else Some x
    end.
Proof.
  unfold last_valid. rewrite filter_cons.
  destruct (num_is0 x) eqn:E; simpl.
  - by destruct (last _).
  - by rewrite last_cons.
Qed.

Lemma pad_lookup last s i x :
  s !! i = Some x →
  pad last s !! i
  = Some (if num_is0 x
          then default x (match last_valid (take i s) with
                          | Some v => Some v
                          | None => last
                          end)
          else x).
Proof.
  revert last i. induction s as [|y s IH]; intros last [|i] H; simpl in *;
    try done.
  - simplify_eq. unfold last_valid; simpl. by destruct (num_is0 x).
  - rewrite last_valid_cons.
    destruct (num_is0 y) eqn:Ey; simpl; rewrite (IH _ _ H).
    + by destruct (last_valid (take i s)).
    + by destruct (last_valid (take i s)).
Qed.

Lemma pad_all_zero last s :
  Forall (λ x, num_is0 x = true) s → last = None → pad last s = s.
Proof.
  intros H ->. induction H as [|x s Hx H IH]; simpl; [done|].
  rewrite Hx. simpl. by rewrite IH.
Qed.

(** ** Example frames *)

Lemma wf_ex_df : wf ex_df.
Proof. split; [reflexivity|]. by_decide. Defined.

Lemma has_cols_ex_df : has_cols ffill_cols ex_df.
Proof. by_decide. Defined.

(** ** C2: forward fill per country *)

(** C2.  For a frame with the thirteen columns, [fill_missing_values]
    returns, and for every country and each of S1..S9, ConfirmedCases,
    ConfirmedDeaths, Recovered and StringencyIndex the series of the
    country (its rows in table order, which [extend_data] has sorted by
    date) is rewritten as follows: a cell that is not zero is kept, a zero
    cell takes the most recent earlier cell of the country that is not
    zero, and a zero cell with no such earlier cell is left as it is; a
    series that is zero throughout is unchanged. *)
Theorem fill_forward_fills df :
  wf df → has_cols ffill_cols df →
  ∃ df', fill_missing_values df = Some df' ∧
    ∀ c col, c ∈ Country_Code df → col ∈ ffill_cols →
      ∃ s s',
        getitem (loc (code_mask c df) df) col = Some s ∧
        getitem (loc (code_mask c df') df') col = Some s' ∧
        length s' = length s ∧
        (∀ i x, s !! i = Some x →
           s' !! i = Some (if num_is0 x
                           then default x (last_valid (take i s))
                           else x)) ∧
        (Forall (λ x, num_is0 x = true) s → s' = s).
Proof.
  intros Hwf Hcols.
  destruct (fill_missing_values_loc df Hwf Hcols) as (df' & Hrun & _ & _ & Hloc).
  exists df'. split; [done|]. intros c col Hc Hcol.
  specialize (Hloc c Hc). rewrite run_sub_fill in Hloc.
  destruct (run_sub (ffill_stmts ffill_cols) _) as [mid|] eqn:Emid; [|done].
  cbn [mbind option_bind] in Hloc.
  destruct (mapM (getitem mid) COL.si_cols) as [ss|]; [|done].
  cbn [mbind option_bind] in Hloc.
  destruct (getitem mid "StringencyIndex") as [si|]; [|done].
  cbn [mbind option_bind] in Hloc. apply (inj Some) in Hloc.
  assert (Hs : is_Some (cols (loc (code_mask c df) df) !! col)).
  { apply (proj1 (Forall_forall _ _) (has_cols_loc _ (code_mask c df) _ Hcols)).
    done. }
  destruct Hs as [s Hs]. exists s, (replace_ffill s).
  split; [done|]. split.
  - rewrite <- Hloc. unfold getitem. rewrite lookup_with_features.
    + rewrite (run_sub_ffill _ _ _ Emid), decide_True by done.
      by rewrite Hs.
    + intros Hf. revert Hcol Hf. unfold ffill_cols, feature_cols, COL.si_cols.
      simpl. rewrite !elem_of_cons, !elem_of_nil. intros H1 H2.
      repeat (destruct H1 as [->|H1]; [clear -H2; intuition discriminate|]).
      done.
  - split; [apply length_pad|]. split.
    + intros i x Hi. unfold replace_ffill. rewrite (pad_lookup _ _ _ _ Hi).
      by destruct (last_valid (take i s)).
    + intros Hz. by apply pad_all_zero.
Qed.

Lemma fill_forward_fills_witness :
  wf ex_df ∧ has_cols ffill_cols ex_df ∧
  ∃ df', fill_missing_values ex_df = Some df' ∧
    ∀ c col, c ∈ Country_Code ex_df → col ∈ ffill_cols →
      ∃ s s',
        getitem (loc (code_mask c ex_df) ex_df) col = Some s ∧
        getitem (loc (code_mask c df') df') col = Some s' ∧
        length s' = length s ∧
        (∀ i x, s !! i = Some x →
           s' !! i = Some (if num_is0 x
                           then default x (last_valid (take i s))
                           else x)) ∧
        (Forall (λ x, num_is0 x = true) s → s' = s).
Proof.
  split; [exact wf_ex_df|]. split; [exact has_cols_ex_df|].
  exact (fill_forward_fills ex_df wf_ex_df has_cols_ex_df).
Defined.

(** ** What the filler leaves in one country *)

Lemma fill_sub_inv sub r :
  run_sub fill_prog sub = Some r →
  ∃ mid ss si,
    run_sub (ffill_stmts ffill_cols) sub = Some mid ∧
    mapM (getitem mid) COL.si_cols = Some ss ∧
    getitem mid "StringencyIndex" = Some si ∧
    r = with_features ss si mid.
Proof.
  rewrite run_sub_fill. intros H.
  destruct (run_sub (ffill_stmts ffill_cols) sub) as [mid|]; [|done].
  cbn [mbind option_bind] in H.
  destruct (mapM (getitem mid) COL.si_cols) as [ss|] eqn:Ess; [|done].
  cbn [mbind option_bind] in H.
  destruct (getitem mid "StringencyIndex") as [si|] eqn:Esi; [|done].
  cbn [mbind option_bind] in H. apply (inj Some) in H. subst r.
  by exists mid, ss, si.
Qed.

Lemma ffill_cols_not_feature col : col ∈ ffill_cols → col ∉ feature_cols.
Proof.
  unfold ffill_cols, feature_cols, COL.si_cols. simpl.
  rewrite !elem_of_cons, !elem_of_nil. intros H1 H2.
  repeat (destruct H1 as [->|H1]; [clear -H2; intuition discriminate|]).
  done.
Qed.

Lemma run_sub_ffill_present l sub mid :
  run_sub (ffill_stmts l) sub = Some mid → has_cols l sub.
Proof.
  unfold run_sub, ffill_stmts, has_cols. revert sub.
  induction l as [|col l IH]; intros sub H; simpl in H; [constructor|].
  destruct (sub_update col (ffill_of col) sub) as [sub1|] eqn:E1;
    simpl in H; [|done].
  unfold sub_update, ffill_of, getitem in E1.
  destruct (cols sub !! col) as [s|] eqn:E; simplify_eq/=.
  constructor; [by eexists|].
  eapply Forall_impl; [exact (IH _ H)|]. intros k. simpl.
  destruct (decide (col = k)) as [->|Hne].
  - intros _. by eexists.
  - by rewrite lookup_insert_ne.
Qed.

Lemma fill_sub_ffilled sub r col :
  run_sub fill_prog sub = Some r → col ∈ ffill_cols →
  cols r !! col = replace_ffill <$> cols sub !! col.
Proof.
  intros H Hcol. destruct (fill_sub_inv _ _ H) as (mid & ss & si & Hmid & _ & _ & ->).
  rewrite lookup_with_features by by apply ffill_cols_not_feature.
  by rewrite (run_sub_ffill _ _ _ Hmid), decide_True.
Qed.

Lemma fill_sub_other sub r k :
  run_sub fill_prog sub = Some r → k ∉ ffill_cols → k ∉ feature_cols →
  cols r !! k = cols sub !! k.
Proof.
  intros H Hk1 Hk2.
  destruct (fill_sub_inv _ _ H) as (mid & ss & si & Hmid & _ & _ & ->).
  rewrite lookup_with_features by done.
  by rewrite (run_sub_ffill _ _ _ Hmid), decide_False.
Qed.

Lemma mapM_ext_in {A B} (f g : A → option B) l :
  (∀ x, x ∈ l → f x = g x) → mapM f l = mapM g l.
Proof.
  induction l as [|x l IH]; intros H; simpl; [done|].
  rewrite (H x) by left. rewrite IH; [done|]. intros y Hy. apply H. by right.
Qed.

Lemma with_features_idem ss si sub :
  with_features ss si (with_features ss si sub) = with_features ss si sub.
Proof.
  destruct (with_features ss si sub) as [codes dates cm] eqn:E.
  assert (Hc : codes = Country_Code sub) by (by injection E).
  assert (Hd : dates = DateTime sub) by (by injection E).
  assert (Hm : cm = cols (with_features ss si sub)) by (by rewrite E).
  subst codes dates. unfold with_features at 1. unfold setitem, nrows. simpl.
  f_equal. apply map_eq. intros k.
  destruct (decide (k ∈ feature_cols)) as [Hk|Hk].
  - subst cm. unfold with_features, setitem, nrows; simpl.
    unfold feature_cols in Hk. rewrite !elem_of_cons, elem_of_nil in Hk.
    repeat (destruct Hk as [->|Hk]; [by lookup_inserts|]). done.
  - pose proof (lookup_with_features ss si (mkDF (Country_Code sub) (DateTime sub) cm) k Hk)
      as H1.
    unfold with_features, setitem, nrows in H1; simpl in H1. exact H1.
Qed.

(** The S columns and the stringency index that the features are
    computed from are those of the result. *)
Lemma fill_sub_features sub r :
  run_sub fill_prog sub = Some r →
  ∃ ss si,
    mapM (getitem r) COL.si_cols = Some ss ∧
    getitem r "StringencyIndex" = Some si ∧
    r = with_features ss si r.
Proof.
  intros H. destruct (fill_sub_inv _ _ H) as (mid & ss & si & Hmid & Hss & Hsi & ->).
  exists ss, si. split; [|split].
  - rewrite <- Hss. apply mapM_ext_in. intros col Hcol.
    unfold getitem. apply lookup_with_features.
    by apply ffill_cols_not_feature, ffill_cols_si.
  - rewrite <- Hsi. unfold getitem. apply lookup_with_features.
    apply ffill_cols_not_feature. unfold ffill_cols. apply elem_of_app. right.
    rewrite !elem_of_cons. auto 10.
  - symmetry. apply with_features_idem.
Qed.

Lemma frame_eq df1 df2 :
  Country_Code df1 = Country_Code df2 → DateTime df1 = DateTime df2 →
  cols df1 = cols df2 → df1 = df2.
Proof. destruct df1, df2; simpl. by intros -> -> ->. Qed.

Lemma fill_sub_idem sub r :
  run_sub fill_prog sub = Some r → run_sub fill_prog r = Some r.
Proof.
  intros H. destruct (fill_sub_features _ _ H) as (ss & si & Hss & Hsi & Hr).
  rewrite run_sub_fill.
  assert (Hmid : run_sub (ffill_stmts ffill_cols) r = Some r).
  { destruct (run_sub_ffill_total ffill_cols r) as [mid Hmid].
    { intros col Hcol. rewrite (fill_sub_ffilled _ _ _ H Hcol).
      destruct (fill_sub_inv _ _ H) as (mid & _ & _ & Hmid & _).
      apply run_sub_ffill_present in Hmid.
      destruct (proj1 (Forall_forall _ _) Hmid col Hcol) as [s ->].
      by eexists. }
    rewrite Hmid. f_equal.
    destruct (run_sub_keys _ _ _ Hmid) as [Hc Hd].
    apply frame_eq; [done..|]. apply map_eq. intros k.
    rewrite (run_sub_ffill _ _ _ Hmid k).
    case_decide as Hk; [|done].
    rewrite (fill_sub_ffilled _ _ _ H Hk).
    destruct (cols sub !! k) as [s|]; simpl; [|done].
    by rewrite replace_ffill_idem. }
  rewrite Hmid. cbn [mbind option_bind]. rewrite Hss.
  cbn [mbind option_bind]. rewrite Hsi. cbn [mbind option_bind].
  by rewrite <- Hr.
Qed.

(** ** C7: the filler is idempotent *)

Lemma has_cols_loc_inv l m df : has_cols l (loc m df) → has_cols l df.
Proof.
  unfold has_cols. intros H. eapply Forall_impl; [exact H|].
  intros col. simpl. rewrite lookup_fmap. by rewrite fmap_is_Some.
Qed.

Lemma fill_success_has_cols df df' :
  wf df → Country_Code df ≠ [] → fill_missing_values df = Some df' →
  has_cols ffill_cols df.
Proof.
  intros Hwf Hne. rewrite fill_missing_values_prog.
  destruct (Country_Code df) as [|c1 codes] eqn:Ecodes; [done|]. simpl.
  intros H.
  destruct (run_loc c1 fill_prog df) as [df1|] eqn:E1; [|done].
  pose proof (run_loc_same c1 fill_prog df Hwf prog_ok_fill) as Hsame.
  rewrite E1 in Hsame. simpl in Hsame. symmetry in Hsame.
  destruct (fill_sub_inv _ _ Hsame) as (mid & _ & _ & Hmid & _).
  apply run_sub_ffill_present in Hmid. by apply has_cols_loc_inv in Hmid.
Qed.

Lemma fill_result_has_cols df df' c :
  c ∈ Country_Code df →
  run_sub fill_prog (loc (code_mask c df) df) = Some (loc (code_mask c df') df') →
  has_cols ffill_cols df'.
Proof.
  intros Hc H. apply (has_cols_loc_inv _ (code_mask c df')).
  apply Forall_forall. intros col Hcol.
  rewrite (fill_sub_ffilled _ _ _ H Hcol).
  destruct (fill_sub_inv _ _ H) as (mid & _ & _ & Hmid & _).
  apply run_sub_ffill_present in Hmid.
  destruct (proj1 (Forall_forall _ _) Hmid col Hcol) as [s ->]. by eexists.
Qed.

(** C7.  A frame that [fill_missing_values] has returned is returned
    unchanged, in every column, when it is filled once more. *)
Theorem fill_idempotent df df' :
  wf df → fill_missing_values df = Some df' →
  fill_missing_values df' = Some df'.
Proof.
  intros Hwf H.
  destruct (decide (Country_Code df = [])) as [Hnil|Hne].
  - unfold fill_missing_values in *. rewrite Hnil in H. simpl in H.
    simplify_eq. by rewrite Hnil.
  - pose proof (fill_success_has_cols _ _ Hwf Hne H) as Hcols.
    destruct (fill_missing_values_loc df Hwf Hcols)
      as (df0 & Hrun & Hwf' & Hk & Hloc).
    rewrite H in Hrun. injection Hrun as <-.
    assert (Hcols' : has_cols ffill_cols df').
    { destruct (Country_Code df) as [|c1 codes] eqn:E; [done|].
      apply (fill_result_has_cols df df' c1); [rewrite E; left|].
      apply Hloc. left. }
    destruct (fill_missing_values_loc df' Hwf' Hcols')
      as (df'' & Hrun' & Hwf'' & Hk' & Hloc').
    rewrite Hrun'. f_equal. symmetry.
    destruct Hk as [Hc Hd]. apply frames_ext; [done..|congruence|].
    intros c Hin. specialize (Hloc' c Hin). rewrite Hc in Hin.
    specialize (Hloc c Hin).
    apply fill_sub_idem in Hloc. rewrite Hloc in Hloc'.
    by apply (inj Some) in Hloc'.
Qed.

Lemma fill_idempotent_witness :
  wf ex_df ∧ fill_missing_values ex_df = Some ex_filled ∧
  fill_missing_values ex_filled = Some ex_filled.
Proof.
  assert (H : fill_missing_values ex_df = Some ex_filled)
    by (vm_compute; reflexivity).
  split; [exact wf_ex_df|]. split; [exact H|].
  exact (fill_idempotent ex_df ex_filled wf_ex_df H).
Defined.

(** ** The statements of [create_features] *)

Lemma select_and {A} (m p : list bool) (s : list A) :
  select (zip_with andb m p) s = select (select m p) (select m s).
Proof.
  revert p s. induction m as [|b m IH]; intros [|a p] [|x s]; simpl; try done.
  - destruct b; simpl; [|by destruct (select m p)].
    by destruct a, (select m p).
  - destruct b, a; simpl; by rewrite IH.
Qed.

Lemma select_default_column m df col :
  select m (default (replicate (nrows df) NaN) (cols df !! col))
  = default (replicate (nrows (loc m df)) NaN) (cols (loc m df) !! col).
Proof.
  simpl. rewrite lookup_fmap. destruct (cols df !! col) as [s|]; simpl; [done|].
  rewrite select_replicate. f_equal. unfold nrows; simpl.
  apply length_select_eq. by rewrite length_replicate.
Qed.

Lemma days_statement c df cases :
  wf df → getitem df "ConfirmedCases" = Some cases →
  let m := zip_with andb (code_mask c df) (num_gt0 <$> cases) in
  loc_update c "DaysCountFromFirstCase" days_rhs df
  = Some (loc_set m "DaysCountFromFirstCase"
            (days_count (DateTime (loc m df))) df).
Proof.
  intros Hwf Hcases m. unfold loc_update, days_rhs.
  assert (Hlen : length cases = nrows df) by (by eapply wf_lookup).
  replace (getitem (loc (code_mask c df) df) "ConfirmedCases")
    with (Some (select (code_mask c df) cases)).
  2:{ unfold getitem in *. simpl. by rewrite lookup_fmap, Hcases. }
  cbn [mbind option_bind]. f_equal. unfold loc_set. f_equal.
  subst m. rewrite assign_and.
  - f_equal. rewrite <- select_fmap, <- select_default_column.
    f_equal. simpl. by rewrite select_and.
  - rewrite length_code_mask.
    destruct (cols df !! _) as [s|] eqn:E; simpl.
    + symmetry. by eapply wf_lookup.
    + by rewrite length_replicate.
  - rewrite length_fmap, Hlen.
    destruct (cols df !! _) as [s|] eqn:E; simpl.
    + symmetry. by eapply wf_lookup.
    + by rewrite length_replicate.
Qed.

Lemma features_country_prog df c :
  wf df → features_country df c = run_loc c features_prog df.
Proof.
  intros Hwf. unfold features_country, run_loc, features_prog.
  cbn [for_each fst snd].
  destruct (getitem df "ConfirmedCases") as [cases|] eqn:Ecases.
  - cbn [mbind option_bind].
    rewrite (days_statement c df cases Hwf Ecases). cbn [mbind option_bind].
    repeat match goal with
    | |- context [loc_update ?c ?t ?r ?d] =>
        destruct (loc_update c t r d); simpl; try done
    end.
  - assert (E : loc_update c "DaysCountFromFirstCase" days_rhs df = None).
    { unfold loc_update, days_rhs, getitem in *. cbn [cols loc].
      by rewrite !lookup_fmap, Ecases. }
    by rewrite E.
Qed.

Lemma rhs_ok_days : rhs_ok days_rhs.
Proof.
  split.
  - intros sub v Hwf H. unfold days_rhs in H.
    destruct (getitem sub "ConfirmedCases") as [cases|]; simplify_eq/=.
    rewrite length_assign.
    destruct (cols sub !! _) as [s|] eqn:E; simpl.
    + by eapply wf_lookup.
    + by rewrite length_replicate.
  - intros sub v t H. unfold days_rhs in *.
    destruct (getitem sub "ConfirmedCases") as [cases|] eqn:E; simplify_eq/=.
    rewrite (getitem_seed _ _ _ _ E). simpl. f_equal.
    rewrite nrows_seed. f_equal; [by unfold seed; destruct (cols sub !! t)|].
    unfold seed. destruct (cols sub !! t) as [s|] eqn:Et; [done|]. simpl.
    destruct (decide (t = "DaysCountFromFirstCase")) as [->|Hne].
    + by rewrite lookup_insert_eq, Et.
    + by rewrite lookup_insert_ne.
Qed.

Lemma prog_ok_features_country : prog_ok features_prog.
Proof.
  unfold prog_ok, features_prog.
  repeat (apply Forall_cons; split); simpl;
    [apply rhs_ok_days | apply rhs_ok_column ..| apply Forall_nil_2];
    apply length_diff.
Qed.

(** ** Row-wise statements commute with the selection of rows *)

Lemma create_features_split df :
  create_features df
  = df1 ← features_prelude df;
    df2 ← for_each features_country (unique (Country_Code df1)) df1;
    features_finale df2.
Proof.
  unfold create_features, features_prelude, features_finale.
  repeat match goal with
  | |- context [getitem ?d ?c] => destruct (getitem d c); simpl; try done
  end.
  repeat match goal with
  | |- context [set_binop ?t ?o ?a ?b ?d] =>
      destruct (set_binop t o a b d); simpl; try done
  end.
Qed.

Lemma loc_getitem m df col : getitem (loc m df) col = select m <$> getitem df col.
Proof. unfold getitem. simpl. by rewrite lookup_fmap. Qed.

Lemma loc_setitem m t s df :
  loc m (setitem t s df) = setitem t (select m s) (loc m df).
Proof. unfold loc, setitem; simpl. by rewrite fmap_insert. Qed.

Lemma loc_setscalar m t v df :
  loc m (setscalar t v df) = setscalar t v (loc m df).
Proof.
  unfold setscalar. rewrite loc_setitem. f_equal.
  rewrite select_replicate. f_equal. unfold nrows; simpl.
  apply length_select_eq. by rewrite length_replicate.
Qed.

Lemma loc_set_binop m t op a b df :
  loc m <$> set_binop t op a b df = set_binop t op a b (loc m df).
Proof.
  unfold set_binop. rewrite !loc_getitem.
  destruct (getitem df a) as [x|]; simpl; [|done].
  destruct (getitem df b) as [y|]; simpl; [|done].
  by rewrite loc_setitem, select_zip_with.
Qed.

Lemma loc_fillna_inplace m col df :
  loc m <$> fillna_inplace col df = fillna_inplace col (loc m df).
Proof.
  unfold fillna_inplace. rewrite loc_getitem.
  destruct (getitem df col) as [s|]; simpl; [|done].
  rewrite loc_setitem. unfold fillna. by rewrite select_fmap.
Qed.

Lemma loc_add_world_population_data wp m df :
  loc m (add_world_population_data wp df)
  = add_world_population_data wp (loc m df).
Proof.
  unfold add_world_population_data. rewrite loc_setitem.
  by rewrite select_fmap.
Qed.

Lemma loc_features_finale m df :
  loc m <$> features_finale df = features_finale (loc m df).
Proof.
  unfold features_finale.
  rewrite <- (loc_fillna_inplace m "DailyConfirmedCases" df).
  destruct (fillna_inplace "DailyConfirmedCases" df) as [df1|]; simpl; [|done].
  rewrite <- (loc_fillna_inplace m "DailyConfirmedDeaths" df1).
  destruct (fillna_inplace "DailyConfirmedDeaths" df1) as [df2|]; simpl; [|done].
  rewrite <- (loc_fillna_inplace m "DailyRecovered" df2).
  destruct (fillna_inplace "DailyRecovered" df2) as [df3|]; simpl; [|done].
  apply loc_fillna_inplace.
Qed.

Lemma loc_features_prelude m df :
  loc m <$> features_prelude df = features_prelude (loc m df).
Proof.
  unfold features_prelude. rewrite !loc_getitem.
  destruct (getitem df "ConfirmedCases") as [cc|]; simpl; [|done].
  destruct (getitem df "ConfirmedDeaths") as [cd|]; simpl; [|done].
  destruct (getitem df "Recovered") as [rc|]; simpl; [|done].
  rewrite <- !select_zip_with, <- loc_setitem.
  set (df0 := setitem "Active" _ df).
  rewrite <- (loc_set_binop m "RelativeConfirmedCases").
  destruct (set_binop "RelativeConfirmedCases" _ _ _ df0) as [df1|]; simpl; [|done].
  rewrite <- (loc_set_binop m "RelativeConfirmedDeaths").
  destruct (set_binop "RelativeConfirmedDeaths" _ _ _ df1) as [df2|]; simpl; [|done].
  rewrite <- (loc_set_binop m "RelativeRecovered").
  destruct (set_binop "RelativeRecovered" _ _ _ df2) as [df3|]; simpl; [|done].
  rewrite <- (loc_set_binop m "RelativeActive").
  destruct (set_binop "RelativeActive" _ _ _ df3) as [df4|]; simpl; [|done].
  by rewrite !loc_setscalar.
Qed.

(** ** What [create_features] leaves in one country *)

Lemma has_cols_lookup l df col :
  has_cols l df → col ∈ l → ∃ s, cols df !! col = Some s.
Proof. intros H Hcol. exact (proj1 (Forall_forall _ _) H col Hcol). Qed.

Lemma create_sub_spec sub :
  wf sub → has_cols features_inputs sub →
  ∃ r cc cd rc pop,
    create_sub sub = Some r ∧ same_keys sub r ∧
    cols sub !! "ConfirmedCases" = Some cc ∧
    cols sub !! "ConfirmedDeaths" = Some cd ∧
    cols sub !! "Recovered" = Some rc ∧
    cols sub !! "Population" = Some pop ∧
    cols r !! "Active" = Some (active_of cc cd rc) ∧
    cols r !! "RelativeConfirmedCases" = Some (zip_with num_div cc pop) ∧
    cols r !! "RelativeConfirmedDeaths" = Some (zip_with num_div cd pop) ∧
    cols r !! "RelativeRecovered" = Some (zip_with num_div rc pop) ∧
    cols r !! "RelativeActive" = Some (zip_with num_div (active_of cc cd rc) pop) ∧
    cols r !! "DailyConfirmedCases" = Some (fillna (Fin 0) (diff cc)) ∧
    cols r !! "DailyConfirmedDeaths" = Some (fillna (Fin 0) (diff cd)) ∧
    cols r !! "DailyRecovered" = Some (fillna (Fin 0) (diff rc)) ∧
    cols r !! "DailyActive" = Some (fillna (Fin 0) (diff (active_of cc cd rc))) ∧
    cols r !! "DaysCountFromFirstCase" = Some (days_of cc (DateTime sub)) ∧
    (∀ k, k ∉ created_cols → cols r !! k = cols sub !! k).
Proof.
  intros [Hd _] Hcols.
  destruct (has_cols_lookup _ _ "ConfirmedCases" Hcols) as [cc Hcc];
    [unfold features_inputs; rewrite !elem_of_cons; auto|].
  destruct (has_cols_lookup _ _ "ConfirmedDeaths" Hcols) as [cd Hcd];
    [unfold features_inputs; rewrite !elem_of_cons; auto|].
  destruct (has_cols_lookup _ _ "Recovered" Hcols) as [rc Hrc];
    [unfold features_inputs; rewrite !elem_of_cons; auto|].
  destruct (has_cols_lookup _ _ "Population" Hcols) as [pop Hpop];
    [unfold features_inputs; rewrite !elem_of_cons; auto 10|].
  eexists _, cc, cd, rc, pop.
  split.
  { unfold create_sub, features_prelude, features_finale, run_sub, features_prog,
      set_binop, fillna_inplace, sub_update, days_rhs, getitem, setscalar,
      setitem, nrows.
    cbn [for_each fst snd Country_Code DateTime cols].
    repeat (progress (cbn [mbind option_bind fmap option_fmap option_map
                           cols Country_Code DateTime];
                      repeat first [rewrite lookup_insert_eq
                                   | rewrite lookup_insert_ne by discriminate];
                      rewrite ?Hcc, ?Hcd, ?Hrc, ?Hpop)).
    reflexivity. }
  split; [by split|].
  unfold active_of, days_of. rewrite Hd. cbn [cols].
  repeat (split;
    [done || by repeat first [rewrite lookup_insert_eq
                              | rewrite lookup_insert_ne by discriminate]|]).
  intros k. unfold created_cols. rewrite !not_elem_of_cons.
  intros (?&?&?&?&?&?&?&?&?&?&_). cbn [cols].
  by rewrite !lookup_insert_ne.
Qed.

(** ** The synthesizer, country by country *)

Lemma set_binop_keys t op a b df df' :
  wf df → set_binop t op a b df = Some df' → wf df' ∧ same_keys df df'.
Proof.
  unfold set_binop. intros Hwf H.
  destruct (getitem df a) as [x|] eqn:Ea; simpl in H; [|done].
  destruct (getitem df b) as [y|] eqn:Eb; simpl in H; [|done].
  injection H as <-. split; [|done]. apply wf_setitem; [done|].
  rewrite length_zip_with, (wf_lookup _ _ _ Hwf Ea), (wf_lookup _ _ _ Hwf Eb).
  lia.
Qed.

Lemma fillna_inplace_keys col df df' :
  wf df → fillna_inplace col df = Some df' → wf df' ∧ same_keys df df'.
Proof.
  unfold fillna_inplace. intros Hwf H.
  destruct (getitem df col) as [s|] eqn:E; simpl in H; [|done].
  injection H as <-. split; [|done]. apply wf_setitem; [done|].
  unfold fillna. rewrite length_fmap. by eapply wf_lookup.
Qed.

Lemma same_keys_trans df1 df2 df3 :
  same_keys df1 df2 → same_keys df2 df3 → same_keys df1 df3.
Proof. intros [? ?] [? ?]. split; congruence. Qed.

Lemma features_prelude_keys df df' :
  wf df → features_prelude df = Some df' → wf df' ∧ same_keys df df'.
Proof.
  unfold features_prelude. intros Hwf H.
  destruct (getitem df "ConfirmedCases") as [cc|] eqn:Ecc; simpl in H; [|done].
  destruct (getitem df "ConfirmedDeaths") as [cd|] eqn:Ecd; simpl in H; [|done].
  destruct (getitem df "Recovered") as [rc|] eqn:Erc; simpl in H; [|done].
  match type of H with context [set_binop _ _ _ _ ?d] =>
    assert (Hwf0 : wf d); [|set (df0 := d) in *] end.
  { apply wf_setitem; [done|]. rewrite !length_zip_with.
    rewrite (wf_lookup _ _ _ Hwf Ecc), (wf_lookup _ _ _ Hwf Ecd),
      (wf_lookup _ _ _ Hwf Erc). lia. }
  destruct (set_binop "RelativeConfirmedCases" _ _ _ df0) as [df1|] eqn:E1;
    simpl in H; [|done].
  destruct (set_binop_keys _ _ _ _ _ _ Hwf0 E1) as [Hwf1 Hk1].
  destruct (set_binop "RelativeConfirmedDeaths" _ _ _ df1) as [df2|] eqn:E2;
    simpl in H; [|done].
  destruct (set_binop_keys _ _ _ _ _ _ Hwf1 E2) as [Hwf2 Hk2].
  destruct (set_binop "RelativeRecovered" _ _ _ df2) as [df3|] eqn:E3;
    simpl in H; [|done].
  destruct (set_binop_keys _ _ _ _ _ _ Hwf2 E3) as [Hwf3 Hk3].
  destruct (set_binop "RelativeActive" _ _ _ df3) as [df4|] eqn:E4;
    simpl in H; [|done].
  destruct (set_binop_keys _ _ _ _ _ _ Hwf3 E4) as [Hwf4 Hk4].
  injection H as <-. split.
  - by repeat apply wf_setscalar.
  - apply (same_keys_trans _ df0); [by split|].
    apply (same_keys_trans _ df1); [done|].
    apply (same_keys_trans _ df2); [done|].
    apply (same_keys_trans _ df3); [done|].
    apply (same_keys_trans _ df4); [done|]. by split.
Qed.

Lemma features_prelude_present df df' k :
  features_prelude df = Some df' →
  k ∈ ["DailyConfirmedCases"; "DailyConfirmedDeaths"; "DailyRecovered";
       "DailyActive"] →
  is_Some (cols df' !! k).
Proof.
  unfold features_prelude. intros H Hk.
  destruct (getitem df "ConfirmedCases") as [cc|]; simpl in H; [|done].
  destruct (getitem df "ConfirmedDeaths") as [cd|]; simpl in H; [|done].
  destruct (getitem df "Recovered") as [rc|]; simpl in H; [|done].
  repeat match type of H with
  | context [set_binop ?t ?o ?a ?b ?d] =>
      destruct (set_binop t o a b d); simpl in H; [|done]
  end.
  injection H as <-. rewrite !elem_of_cons, elem_of_nil in Hk. simpl.
  repeat (destruct Hk as [->|Hk]; [lookup_inserts; by eexists|]). done.
Qed.

Lemma features_finale_keys df df' :
  wf df → features_finale df = Some df' → wf df' ∧ same_keys df df'.
Proof.
  unfold features_finale. intros Hwf H.
  destruct (fillna_inplace "DailyConfirmedCases" df) as [df1|] eqn:E1;
    simpl in H; [|done].
  destruct (fillna_inplace_keys _ _ _ Hwf E1) as [Hwf1 Hk1].
  destruct (fillna_inplace "DailyConfirmedDeaths" df1) as [df2|] eqn:E2;
    simpl in H; [|done].
  destruct (fillna_inplace_keys _ _ _ Hwf1 E2) as [Hwf2 Hk2].
  destruct (fillna_inplace "DailyRecovered" df2) as [df3|] eqn:E3;
    simpl in H; [|done].
  destruct (fillna_inplace_keys _ _ _ Hwf2 E3) as [Hwf3 Hk3].
  destruct (fillna_inplace_keys _ _ _ Hwf3 H) as [Hwf4 Hk4].
  split; [done|].
  apply (same_keys_trans _ df1); [done|].
  apply (same_keys_trans _ df2); [done|].
  by apply (same_keys_trans _ df3).
Qed.

Lemma fillna_inplace_present col df df' k :
  fillna_inplace col df = Some df' →
  is_Some (cols df !! k) → is_Some (cols df' !! k).
Proof.
  unfold fillna_inplace. intros H Hk.
  destruct (getitem df col) as [s|]; simpl in H; [|done].
  injection H as <-. simpl. destruct (decide (col = k)) as [->|Hne].
  - by rewrite lookup_insert_eq.
  - by rewrite lookup_insert_ne.
Qed.

Lemma fillna_inplace_total col df :
  is_Some (cols df !! col) → is_Some (fillna_inplace col df).
Proof. unfold fillna_inplace, getitem. intros [s ->]. by eexists. Qed.

Lemma features_finale_total df :
  (∀ k, k ∈ ["DailyConfirmedCases"; "DailyConfirmedDeaths"; "DailyRecovered";
             "DailyActive"] → is_Some (cols df !! k)) →
  is_Some (features_finale df).
Proof.
  intros H. unfold features_finale.
  destruct (fillna_inplace_total "DailyConfirmedCases" df) as [df1 E1];
    [apply H; rewrite !elem_of_cons; auto|].
  rewrite E1. simpl.
  destruct (fillna_inplace_total "DailyConfirmedDeaths" df1) as [df2 E2].
  { eapply fillna_inplace_present; [exact E1|].
    apply H; rewrite !elem_of_cons; auto. }
  rewrite E2. simpl.
  destruct (fillna_inplace_total "DailyRecovered" df2) as [df3 E3].
  { eapply fillna_inplace_present; [exact E2|].
    eapply fillna_inplace_present; [exact E1|].
    apply H; rewrite !elem_of_cons; auto. }
  rewrite E3. simpl. apply fillna_inplace_total.
  eapply fillna_inplace_present; [exact E3|].
  eapply fillna_inplace_present; [exact E2|].
  eapply fillna_inplace_present; [exact E1|].
  apply H; rewrite !elem_of_cons; auto 10.
Qed.

Lemma loc_set_present m t vals df k :
  is_Some (cols df !! k) → is_Some (cols (loc_set m t vals df) !! k).
Proof.
  intros H. simpl. destruct (decide (t = k)) as [->|Hne].
  - by rewrite lookup_insert_eq.
  - by rewrite lookup_insert_ne.
Qed.

Lemma run_loc_present c prog df df' k :
  run_loc c prog df = Some df' →
  is_Some (cols df !! k) → is_Some (cols df' !! k).
Proof.
  unfold run_loc. revert df.
  induction prog as [|[t rhs] prog IH]; intros df H Hk; simpl in H.
  - by simplify_eq.
  - destruct (loc_update c t rhs df) as [df1|] eqn:E; simpl in H; [|done].
    apply (IH _ H). unfold loc_update in E.
    destruct (rhs _) as [vals|]; simpl in E; [|done]. injection E as <-.
    by apply loc_set_present.
Qed.

Lemma loop_present prog cs df df' k :
  for_each (λ df c, run_loc c prog df) cs df = Some df' →
  is_Some (cols df !! k) → is_Some (cols df' !! k).
Proof.
  revert df. induction cs as [|c cs IH]; intros df H Hk; simpl in H.
  - by simplify_eq.
  - destruct (run_loc c prog df) as [df1|] eqn:E; simpl in H; [|done].
    apply (IH _ H). by eapply run_loc_present.
Qed.

Lemma for_each_ext_inv {A S} (I : S → Prop) (body1 body2 : S → A → option S) l s :
  I s →
  (∀ s x, I s → body1 s x = body2 s x) →
  (∀ s x s', I s → body2 s x = Some s' → I s') →
  for_each body1 l s = for_each body2 l s.
Proof.
  intros Hs Heq Hinv. revert s Hs.
  induction l as [|x l IH]; intros s Hs; simpl; [done|].
  rewrite (Heq s x Hs). destruct (body2 s x) as [s'|] eqn:E; simpl; [|done].
  apply IH. by eapply Hinv.
Qed.

Lemma create_sub_prelude sub r :
  create_sub sub = Some r → is_Some (features_prelude sub).
Proof.
  unfold create_sub. destruct (features_prelude sub); [by eexists|done].
Qed.

(** [create_features] returns, and leaves on the rows of each country
    what it computes from these rows alone. *)
Lemma create_features_loc df :
  wf df → has_cols features_inputs df →
  ∃ df', create_features df = Some df' ∧ wf df' ∧ same_keys df df' ∧
    ∀ c, c ∈ Country_Code df →
      create_sub (loc (code_mask c df) df) = Some (loc (code_mask c df') df').
Proof.
  intros Hwf Hcols. rewrite create_features_split.
  destruct (create_sub_spec df Hwf Hcols) as (r0 & ? & ? & ? & ? & Hr0 & _).
  destruct (create_sub_prelude _ _ Hr0) as [df1 Hpre]. rewrite Hpre.
  cbn [mbind option_bind].
  destruct (features_prelude_keys _ _ Hwf Hpre) as [Hwf1 Hk1].
  rewrite (for_each_ext_inv wf features_country
             (λ df c, run_loc c features_prog df)); [|done|..].
  2:{ intros s c Hs. by apply features_country_prog. }
  2:{ intros s c s' Hs Hrun. by destruct (run_loc_keys _ _ _ _ Hs Hrun). }
  destruct (country_loop features_prog (unique (Country_Code df1)) df1)
    as (df2 & Hrun & Hwf2 & Hk2 & Hin & _).
  - apply prog_ok_features_country.
  - done.
  - apply NoDup_unique.
  - intros c _.
    destruct (create_sub_spec (loc (code_mask c df) df)) as (r & ? & ? & ? & ? & Hr & _).
    { by apply wf_loc. }
    { by apply has_cols_loc. }
    unfold create_sub in Hr. rewrite <- loc_features_prelude, Hpre in Hr.
    simpl in Hr. rewrite <- (code_mask_keys c _ _ Hk1) in Hr.
    destruct (run_sub features_prog _) as [q|]; [by eexists|done].
  - rewrite Hrun. cbn [mbind option_bind].
    destruct (features_finale_total df2) as [df' Hfin].
    { intros k Hk. eapply loop_present; [exact Hrun|].
      by eapply features_prelude_present. }
    destruct (features_finale_keys _ _ Hwf2 Hfin) as [Hwf' Hk'].
    exists df'. split; [done|]. split; [done|]. split.
    { apply (same_keys_trans _ df1); [done|]. by apply (same_keys_trans _ df2). }
    intros c Hc. unfold create_sub.
    rewrite <- loc_features_prelude, Hpre. cbn [fmap option_fmap option_map].
    cbn [mbind option_bind].
    rewrite <- (code_mask_keys c _ _ Hk1).
    rewrite (Hin c).
    2:{ apply elem_of_unique. destruct Hk1 as [-> _]. done. }
    cbn [mbind option_bind].
    rewrite <- loc_features_finale, Hfin. simpl.
    by rewrite (code_mask_keys c _ _ Hk').
Qed.

(** ** C5: daily deltas *)

Lemma diff_from_lookup prev s i x :
  s !! i = Some x →
  diff_from prev s !! i
  = Some (num_sub x (match i with
                     | O => prev
                     | S j => default NaN (s !! j)
                     end)).
Proof.
  revert prev i. induction s as [|y s IH]; intros prev [|i] H; simpl in *;
    try done.
  - by simplify_eq.
  - rewrite (IH _ _ H). by destruct i.
Qed.

Lemma diff_lookup_0 s x : s !! 0%nat = Some x → diff s !! 0%nat = Some NaN.
Proof. by destruct s. Qed.

Lemma diff_lookup_S s i a b :
  s !! i = Some a → s !! S i = Some b → diff s !! S i = Some (num_sub b a).
Proof.
  destruct s as [|y s]; [done|]. simpl. intros Ha Hb.
  rewrite (diff_from_lookup _ _ _ _ Hb).
  destruct i as [|i]; simpl in *; simplify_eq; [done|]. by rewrite Ha.
Qed.

Lemma create_sub_delta sub r src dst :
  wf sub → has_cols features_inputs sub → create_sub sub = Some r →
  (src, dst) ∈ delta_cols →
  ∃ s, cols r !! src = Some s ∧ cols r !! dst = Some (fillna (Fin 0) (diff s)).
Proof.
  intros Hwf Hcols Hr Hin.
  destruct (create_sub_spec sub Hwf Hcols)
    as (r' & cc & cd & rc & pop & Hr' & _ & Hcc & Hcd & Hrc & _ & Hac & _ & _
        & _ & _ & Hdcc & Hdcd & Hdrc & Hdac & _ & Hother).
  rewrite Hr in Hr'. injection Hr' as <-.
  unfold delta_cols in Hin. rewrite !elem_of_cons, elem_of_nil in Hin.
  destruct Hin as [[= -> ->]|[[= -> ->]|[[= -> ->]|[[= -> ->]|[]]]]].
  - exists cc. split; [|done]. rewrite Hother; [done|].
    by_decide.
  - exists cd. split; [|done]. rewrite Hother; [done|].
    by_decide.
  - exists rc. split; [|done]. rewrite Hother; [done|].
    by_decide.
  - by exists (active_of cc cd rc).
Qed.

(** C5.  For ConfirmedCases, ConfirmedDeaths, Recovered and Active,
    [create_features] leaves in the daily column of every country 0 in the
    first row of the country, whatever the count there, and in every
    later row the count of the row minus the count of the row before. *)
Theorem daily_deltas df :
  wf df → has_cols features_inputs df →
  ∃ df', create_features df = Some df' ∧
    ∀ c src dst, c ∈ Country_Code df → (src, dst) ∈ delta_cols →
      ∃ s d,
        getitem (loc (code_mask c df') df') src = Some s ∧
        getitem (loc (code_mask c df') df') dst = Some d ∧
        length d = length s ∧
        (∀ x, s !! 0%nat = Some x → d !! 0%nat = Some (Fin 0)) ∧
        (∀ i a b, s !! i = Some (Fin a) → s !! S i = Some (Fin b) →
           d !! S i = Some (Fin (b - a))).
Proof.
  intros Hwf Hcols.
  destruct (create_features_loc df Hwf Hcols) as (df' & Hrun & _ & _ & Hloc).
  exists df'. split; [done|]. intros c src dst Hc Hin.
  destruct (create_sub_delta _ _ src dst (wf_loc (code_mask c df) _ Hwf)
              (has_cols_loc _ _ _ Hcols) (Hloc c Hc) Hin) as (s & Hs & Hd).
  exists s, (fillna (Fin 0) (diff s)). split; [done|]. split; [done|].
  split; [unfold fillna; by rewrite length_fmap, length_diff|]. split.
  - intros x Hx. unfold fillna. rewrite list_lookup_fmap.
    by rewrite (diff_lookup_0 _ _ Hx).
  - intros i a b Ha Hb. unfold fillna. rewrite list_lookup_fmap.
    by rewrite (diff_lookup_S _ _ _ _ Ha Hb).
Qed.

Lemma wf_ex_joined : wf ex_joined.
Proof. split; [reflexivity|]. by_decide. Defined.

Lemma has_cols_ex_joined : has_cols features_inputs ex_joined.
Proof. by_decide. Defined.

Lemma daily_deltas_witness :
  wf ex_joined ∧ has_cols features_inputs ex_joined ∧
  ∃ df', create_features ex_joined = Some df' ∧
    ∀ c src dst, c ∈ Country_Code ex_joined → (src, dst) ∈ delta_cols →
      ∃ s d,
        getitem (loc (code_mask c df') df') src = Some s ∧
        getitem (loc (code_mask c df') df') dst = Some d ∧
        length d = length s ∧
        (∀ x, s !! 0%nat = Some x → d !! 0%nat = Some (Fin 0)) ∧
        (∀ i a b, s !! i = Some (Fin a) → s !! S i = Some (Fin b) →
           d !! S i = Some (Fin (b - a))).
Proof.
  split; [exact wf_ex_joined|]. split; [exact has_cols_ex_joined|].
  exact (daily_deltas ex_joined wf_ex_joined has_cols_ex_joined).
Defined.

(** ** The stages after [extend_data] *)

Lemma process_data_stages wp df old_df :
  process_data wp df old_df = extend_data df old_df ≫= fill_and_synthesize wp.
Proof. done. Qed.

Lemma fill_missing_values_present df df' k :
  fill_missing_values df = Some df' →
  is_Some (cols df !! k) → is_Some (cols df' !! k).
Proof. rewrite fill_missing_values_prog. apply loop_present. Qed.

Lemma wf_add_world_population_data wp df :
  wf df → wf (add_world_population_data wp df).
Proof. intros H. apply wf_setitem; [done|]. by rewrite length_fmap. Qed.

Lemma has_cols_features_inputs wp df :
  has_cols ffill_cols df →
  has_cols features_inputs (add_world_population_data wp df).
Proof.
  intros H. unfold features_inputs. apply Forall_forall. intros k Hk.
  rewrite !elem_of_cons, elem_of_nil in Hk. simpl.
  destruct Hk as [->|[->|[->|[->|[]]]]].
  - rewrite lookup_insert_ne by done.
    apply (proj1 (Forall_forall _ _) H). by_decide.
  - rewrite lookup_insert_ne by done.
    apply (proj1 (Forall_forall _ _) H). by_decide.
  - rewrite lookup_insert_ne by done.
    apply (proj1 (Forall_forall _ _) H). by_decide.
  - rewrite lookup_insert_eq. by eexists.
Qed.

Lemma has_cols_present l df df' :
  (∀ k, is_Some (cols df !! k) → is_Some (cols df' !! k)) →
  has_cols l df → has_cols l df'.
Proof. intros H Hl. eapply Forall_impl; [exact Hl|]. intros k. apply H. Qed.

Lemma fill_and_synthesize_loc wp df :
  wf df → has_cols ffill_cols df →
  ∃ df', fill_and_synthesize wp df = Some df' ∧ wf df' ∧ same_keys df df' ∧
    ∀ c, c ∈ Country_Code df →
      synthesize_sub wp (loc (code_mask c df) df)
      = Some (loc (code_mask c df') df').
Proof.
  intros Hwf Hcols. unfold fill_and_synthesize, synthesize_sub.
  destruct (fill_missing_values_loc df Hwf Hcols)
    as (df1 & Hfill & Hwf1 & Hk1 & Hloc1).
  rewrite Hfill. cbn [mbind option_bind].
  assert (Hcols1 : has_cols ffill_cols df1).
  { eapply has_cols_present; [|exact Hcols]. intros k.
    by apply fill_missing_values_present. }
  destruct (create_features_loc (add_world_population_data wp df1))
    as (df' & Hrun & Hwf' & Hk' & Hloc').
  { by apply wf_add_world_population_data. }
  { by apply has_cols_features_inputs. }
  exists df'. split; [done|]. split; [done|]. split.
  { apply (same_keys_trans _ df1); [done|]. exact Hk'. }
  intros c Hc. rewrite (Hloc1 c Hc). cbn [mbind option_bind].
  rewrite <- loc_add_world_population_data.
  destruct Hk1 as [Hc1 Hd1].
  rewrite <- (Hloc' c) by (simpl; by rewrite Hc1). done.
Qed.

Lemma elem_of_select_code c (codes : list string) :
  c ∈ codes → c ∈ select ((λ k, bool_decide (k = c)) <$> codes) codes.
Proof.
  induction codes as [|k ks IH]; intros Hc; [by inversion Hc|].
  simpl. apply elem_of_cons in Hc as [<-|Hc].
  - rewrite bool_decide_eq_true_2 by done. left.
  - case_bool_decide; [right|]; by apply IH.
Qed.

(** ** C8: no leak between countries *)

(** C8.  Take two frames whose rows of every country other than [c0]
    are the same (same rows in the same order, every column included).
    After the filler, the population join and the synthesizer, the rows
    of every such country that has rows are again the same in both
    results, in every column: forward-filled series, pt, Pt, mt, Mt, st,
    St, the daily deltas and DaysCountFromFirstCase included. *)
Theorem per_country_noninterference wp c0 df1 df2 :
  wf df1 → wf df2 → has_cols ffill_cols df1 → has_cols ffill_cols df2 →
  (∀ c, c ≠ c0 →
     loc (code_mask c df1) df1 = loc (code_mask c df2) df2) →
  ∃ df1' df2',
    fill_and_synthesize wp df1 = Some df1' ∧
    fill_and_synthesize wp df2 = Some df2' ∧
    ∀ c, c ≠ c0 → c ∈ Country_Code df1 →
      c ∈ Country_Code df2 ∧
      loc (code_mask c df1') df1' = loc (code_mask c df2') df2'.
Proof.
  intros Hwf1 Hwf2 Hcols1 Hcols2 Hsame.
  destruct (fill_and_synthesize_loc wp df1 Hwf1 Hcols1)
    as (df1' & Hrun1 & _ & _ & Hloc1).
  destruct (fill_and_synthesize_loc wp df2 Hwf2 Hcols2)
    as (df2' & Hrun2 & _ & _ & Hloc2).
  exists df1', df2'. split; [done|]. split; [done|].
  intros c Hne Hc1.
  assert (Hc2 : c ∈ Country_Code df2).
  { specialize (Hsame c Hne).
    assert (Hcodes : Country_Code (loc (code_mask c df1) df1)
                     = Country_Code (loc (code_mask c df2) df2))
      by (by rewrite Hsame).
    simpl in Hcodes. unfold code_mask in Hcodes.
    apply elem_of_select_code in Hc1. rewrite Hcodes in Hc1.
    apply list_elem_of_lookup in Hc1 as [i Hi].
    by apply select_lookup in Hi. }
  split; [done|].
  specialize (Hloc1 c Hc1). specialize (Hloc2 c Hc2).
  rewrite (Hsame c Hne) in Hloc1. rewrite Hloc1 in Hloc2.
  by apply (inj Some) in Hloc2.
Qed.

Lemma wf_ex_df_alt : wf ex_df_alt.
Proof. split; [reflexivity|]. by_decide. Defined.

Lemma has_cols_ex_df_alt : has_cols ffill_cols ex_df_alt.
Proof. by_decide. Defined.

Lemma ex_df_alt_differs_in_X c :
  c ≠ "X" → loc (code_mask c ex_df) ex_df = loc (code_mask c ex_df_alt) ex_df_alt.
Proof.
  intros Hne. unfold loc, code_mask.
  change (Country_Code ex_df) with ["X"; "X"; "Y"; "X"; "X"; "Y"; "X"].
  change (Country_Code ex_df_alt) with ["X"; "X"; "Y"; "X"; "X"; "Y"; "X"; "X"].
  cbn [fmap list_fmap].
  rewrite (bool_decide_eq_false_2 ("X" = c)) by congruence.
  destruct (bool_decide ("Y" = c)); vm_compute; reflexivity.
Defined.

Lemma per_country_noninterference_witness :
  ∃ df1' df2',
    fill_and_synthesize ex_wp ex_df = Some df1' ∧
    fill_and_synthesize ex_wp ex_df_alt = Some df2' ∧
    ∀ c, c ≠ "X" → c ∈ Country_Code ex_df →
      c ∈ Country_Code ex_df_alt ∧
      loc (code_mask c df1') df1' = loc (code_mask c df2') df2'.
Proof.
  exact (per_country_noninterference ex_wp "X" ex_df ex_df_alt
           wf_ex_df wf_ex_df_alt has_cols_ex_df has_cols_ex_df_alt
           ex_df_alt_differs_in_X).
Defined.

(** ** C4: days since the first case *)

Lemma assign_nil {A} (m : list bool) (s : list A) : assign m [] s = s.
Proof.
  revert s. induction m as [|b m IH]; intros [|x s]; simpl; try done.
  destruct b; by rewrite IH.
Qed.

Lemma assign_select_lookup {A B} (f : A → B) (m : list bool) (s : list A)
    (old : list B) (i : nat) (b : bool) (x : A) (o : B) :
  m !! i = Some b → s !! i = Some x → old !! i = Some o →
  assign m (f <$> select m s) old !! i = Some (if b then f x else o).
Proof.
  revert s old i. induction m as [|b' m IH]; intros [|y s] [|o' old] [|i];
    simpl; try done.
  - intros [= ->] [= ->] [= ->]. by destruct b.
  - intros Hm Hs Ho. destruct b'; simpl; by apply IH.
Qed.

Lemma select_true_elem {A} (m : list bool) (s : list A) (i : nat) x :
  m !! i = Some true → s !! i = Some x → x ∈ select m s.
Proof.
  revert s i. induction m as [|b m IH]; intros [|y s] [|i]; simpl; try done.
  - intros [= ->] [= ->]. left.
  - intros Hm Hs. destruct b; [right|]; by eapply IH.
Qed.

Lemma select_elem_inv {A} (m : list bool) (s : list A) x :
  x ∈ select m s → ∃ j, m !! j = Some true ∧ s !! j = Some x.
Proof.
  revert s. induction m as [|b m IH]; intros [|y s]; simpl;
    try (by intros H; inversion H).
  destruct b.
  - intros [->|H]%elem_of_cons; [by exists 0%nat|].
    destruct (IH _ H) as (j & ? & ?). by exists (S j).
  - intros H. destruct (IH _ H) as (j & ? & ?). by exists (S j).
Qed.

Lemma dates_min_spec l m :
  dates_min l = Some m → m ∈ l ∧ ∀ d, d ∈ l → (m ≤ d)%Z.
Proof.
  destruct l as [|d0 l]; [done|]. simpl. intros [= <-].
  induction l as [|d l [IH1 IH2]]; simpl.
  - split; [left|]. intros d [->|H]%elem_of_cons; [lia|by inversion H].
  - split.
    + destruct (Z.min_spec d (foldr Z.min d0 l)) as [[_ ->]|[_ ->]].
      * right. left.
      * apply elem_of_cons in IH1 as [->|IH1]; [left|right; by right].
    + intros d' Hd'.
      assert (foldr Z.min d0 l ≤ d' ∨ d' = d)%Z as [H| ->]; [|lia|lia].
      apply elem_of_cons in Hd' as [->|Hd']; [left; apply IH2; left|].
      apply elem_of_cons in Hd' as [->|Hd']; [by right|].
      left. apply IH2. by right.
Qed.

Lemma dates_min_is_Some l : l ≠ [] → is_Some (dates_min l).
Proof. destruct l; [done|]. by eexists. Qed.

Lemma days_of_lookup cases dates i x d :
  length cases = length dates → cases !! i = Some x → dates !! i = Some d →
  days_of cases dates !! i
  = Some (if num_gt0 x
          then of_Z (d - default 0%Z
                           (dates_min (select (num_gt0 <$> cases) dates)))
          else Fin 0).
Proof.
  intros Hlen Hx Hd. unfold days_of, days_count.
  assert (Hm : (num_gt0 <$> cases) !! i = Some (num_gt0 x))
    by (by rewrite list_lookup_fmap, Hx).
  destruct (dates_min _) as [m|] eqn:E; simpl.
  - apply (assign_select_lookup (λ d, of_Z (d - m))); [done..|].
    apply lookup_replicate. split; [done|]. by apply lookup_lt_Some in Hd.
  - rewrite assign_nil.
    destruct (num_gt0 x) eqn:Ex.
    + exfalso. pose proof (select_true_elem _ _ _ _ Hm Hd) as Hin.
      destruct (dates_min_is_Some (select (num_gt0 <$> cases) dates)) as [? ?];
        [|congruence].
      intros Hnil. rewrite Hnil in Hin. by inversion Hin.
    + apply lookup_replicate. split; [done|]. by apply lookup_lt_Some in Hd.
Qed.

Lemma first_case_date_min dates cases d0 :
  first_case_date dates cases d0 →
  dates_min (select (num_gt0 <$> cases) dates) = Some d0.
Proof.
  intros [(p & x & Hd & Hx & Hpos) Hlow].
  assert (Hin : d0 ∈ select (num_gt0 <$> cases) dates).
  { eapply select_true_elem; [|done]. by rewrite list_lookup_fmap, Hx, <- Hpos. }
  destruct (dates_min_is_Some (select (num_gt0 <$> cases) dates)) as [m Hm].
  { intros Hnil. rewrite Hnil in Hin. by inversion Hin. }
  rewrite Hm. f_equal.
  destruct (dates_min_spec _ _ Hm) as [Hm1 Hm2].
  specialize (Hm2 d0 Hin).
  apply select_elem_inv in Hm1 as (j & Hj & Hdj).
  rewrite list_lookup_fmap in Hj.
  destruct (cases !! j) as [y|] eqn:Ey; simplify_eq/=.
  specialize (Hlow j m y Hdj Ey ltac:(done)). lia.
Qed.

Lemma Forall_pad (P : num → Prop) last s :
  Forall P s → (∀ v, last = Some v → P v) → Forall P (pad last s).
Proof.
  intros H. revert last. induction H as [|x s Hx H IH]; intros last Hl; simpl.
  - constructor.
  - destruct (num_is0 x).
    + constructor; [|by apply IH]. destruct last; simpl; auto.
    + constructor; [done|]. apply IH. by intros v [= <-].
Qed.

Lemma pad_Some_nonzero v s :
  num_is0 v = false → Forall (λ y, num_is0 y = false) (pad (Some v) s).
Proof.
  revert v. induction s as [|x s IH]; intros v Hv; simpl; [constructor|].
  destruct (num_is0 x) eqn:Ex; constructor; auto.
Qed.

(** After a forward fill no zero follows a cell that is not zero. *)
Lemma replace_ffill_no_gap s (p i : nat) x y :
  p ≤ i → replace_ffill s !! p = Some x → num_is0 x = false →
  replace_ffill s !! i = Some y → num_is0 y = false.
Proof.
  unfold replace_ffill. revert p i.
  induction s as [|z s IH]; intros p i Hpi Hp Hx Hi; simpl in *; [done|].
  destruct (num_is0 z) eqn:Ez; simpl in *.
  - destruct p as [|p]; simpl in *; [congruence|].
    destruct i as [|i]; [lia|]. simpl in *. eapply (IH p i); [lia|done..].
  - destruct i as [|i]; simpl in *; [congruence|].
    pose proof (pad_Some_nonzero z s Ez) as Hall.
    by apply (proj1 (Forall_lookup _ _) Hall i y).
Qed.

Lemma num_ge0_gt0 x : num_ge0 x = true → num_gt0 x = negb (num_is0 x).
Proof.
  destruct x as [q| | |]; simpl; try done. intros H. f_equal.
  apply Qle_bool_iff in H.
  destruct (Qeq_bool q 0) eqn:E.
  - apply Qeq_bool_iff in E. apply Qle_bool_iff. rewrite E. apply Qle_refl.
  - destruct (Qle_bool q 0) eqn:E2; [|done].
    apply Qle_bool_iff in E2. apply Qeq_bool_neq in E. exfalso. apply E.
    by apply Qle_antisym.
Qed.

Lemma sorted_lookup (l : list Z) (i j : nat) a b :
  StronglySorted Z.le l → i < j → l !! i = Some a → l !! j = Some b →
  (a ≤ b)%Z.
Proof.
  intros H. revert i j. induction H as [|x l H IH Hall]; intros i j Hij Ha Hb;
    [done|].
  destruct j as [|j]; [lia|]. simpl in Hb. destruct i as [|i]; simpl in Ha.
  - simplify_eq. by apply (proj1 (Forall_lookup _ _) Hall j b).
  - apply (IH i j); [lia|done..].
Qed.

(** The day counts computed from a forward-filled series of counts. *)
Lemma days_of_filled s0 dates :
  length s0 = length dates → Forall (λ x, num_ge0 x = true) s0 →
  StronglySorted Z.le dates →
  let cases := replace_ffill s0 in
  let days := days_of cases dates in
  ((∀ x, x ∈ cases → num_gt0 x = false) → ∀ y, y ∈ days → y = Fin 0) ∧
  (∀ d0, first_case_date dates cases d0 →
     ∀ i d, dates !! i = Some d →
       days !! i = Some (if decide (d0 ≤ d)%Z then of_Z (d - d0) else Fin 0)).
Proof.
  intros Hlen Hge Hsorted cases days.
  assert (Hlen' : length cases = length dates)
    by (unfold cases, replace_ffill; by rewrite length_pad).
  assert (Hge' : Forall (λ x, num_ge0 x = true) cases)
    by (by apply Forall_pad).
  assert (Hlendays : length days = length dates).
  { unfold days, days_of. by rewrite length_assign, length_replicate. }
  split.
  - intros Hnone y Hy. apply list_elem_of_lookup in Hy as [i Hi].
    assert (is_Some (dates !! i)) as [d Hd].
    { apply lookup_lt_is_Some. rewrite <- Hlendays. by eapply lookup_lt_Some. }
    assert (is_Some (cases !! i)) as [x Hx].
    { apply lookup_lt_is_Some. rewrite Hlen'. by eapply lookup_lt_Some. }
    unfold days in Hi. rewrite (days_of_lookup _ _ _ _ _ Hlen' Hx Hd) in Hi.
    rewrite (Hnone x) in Hi by (by eapply list_elem_of_lookup_2). congruence.
  - intros d0 Hfirst i d Hd.
    assert (is_Some (cases !! i)) as [x Hx].
    { apply lookup_lt_is_Some. rewrite Hlen'. by eapply lookup_lt_Some. }
    unfold days. rewrite (days_of_lookup _ _ _ _ _ Hlen' Hx Hd).
    rewrite (first_case_date_min _ _ _ Hfirst). simpl. f_equal.
    destruct Hfirst as [(p & xp & Hdp & Hxp & Hpos) Hlow].
    destruct (num_gt0 x) eqn:Ex.
    + rewrite decide_True; [done|]. by eapply Hlow.
    + case_decide as Hle; [|done].
      assert (Hip : i < p).
      { destruct (decide (i < p)) as [|Hge0]; [done|]. exfalso.
        assert (Hx0 : num_is0 x = false).
        { eapply (replace_ffill_no_gap s0 p i xp x); [lia|done| |done].
          rewrite (num_ge0_gt0 xp) in Hpos.
          - by destruct (num_is0 xp).
          - by apply (proj1 (Forall_lookup _ _) Hge' p xp). }
        rewrite (num_ge0_gt0 x) in Ex.
        - by rewrite Hx0 in Ex.
        - by apply (proj1 (Forall_lookup _ _) Hge' i x). }
      assert (d ≤ d0)%Z by exact (sorted_lookup _ _ _ _ _ Hsorted Hip Hd Hdp).
      by replace (d - d0)%Z with 0%Z by lia.
Qed.

Lemma wf_run_sub prog sub r :
  wf sub → prog_ok prog → run_sub prog sub = Some r → wf r.
Proof.
  unfold run_sub. intros Hwf Hok. revert sub Hwf.
  induction Hok as [|[t rhs] prog [Hlen _] Hok IH]; intros sub Hwf H;
    simpl in H.
  - by simplify_eq.
  - destruct (sub_update t rhs sub) as [sub1|] eqn:E; simpl in H; [|done].
    apply (IH sub1); [|done]. unfold sub_update in E.
    destruct (rhs sub) as [v|] eqn:Ev; simpl in E; [|done]. injection E as <-.
    apply wf_setitem; [done|]. by apply Hlen.
Qed.

Lemma Forall_select {A} (P : A → Prop) m s : Forall P s → Forall P (select m s).
Proof.
  intros H. revert m. induction H as [|x s Hx H IH]; intros [|b m]; simpl;
    try constructor.
  destruct b; [constructor|]; auto.
Qed.

(** The series of one country after the stages: the counts are the
    forward-filled counts, and the day counts are computed from them. *)
Lemma synthesize_sub_days wp sub r s0 :
  wf sub → has_cols ffill_cols sub → synthesize_sub wp sub = Some r →
  cols sub !! "ConfirmedCases" = Some s0 →
  DateTime r = DateTime sub ∧
  cols r !! "ConfirmedCases" = Some (replace_ffill s0) ∧
  cols r !! "DaysCountFromFirstCase"
  = Some (days_of (replace_ffill s0) (DateTime sub)).
Proof.
  intros Hwf Hcols Hr Hs0. unfold synthesize_sub in Hr.
  destruct (run_sub fill_prog sub) as [r1|] eqn:E1; simpl in Hr; [|done].
  pose proof (wf_run_sub _ _ _ Hwf prog_ok_fill E1) as Hwf1.
  destruct (run_sub_keys _ _ _ E1) as [Hc1 Hd1].
  assert (Hcc1 : cols r1 !! "ConfirmedCases" = Some (replace_ffill s0)).
  { rewrite (fill_sub_ffilled _ _ _ E1) by by_decide. by rewrite Hs0. }
  assert (Hcols1 : has_cols ffill_cols r1).
  { apply Forall_forall. intros col Hcol.
    rewrite (fill_sub_ffilled _ _ _ E1 Hcol).
    destruct (has_cols_lookup _ _ _ Hcols Hcol) as [s ->]. by eexists. }
  destruct (create_sub_spec (add_world_population_data wp r1))
    as (r' & cc & cd & rc & pop & Hr' & [_ Hd'] & Hcc & _ & _ & _ & _ & _ & _
        & _ & _ & _ & _ & _ & _ & Hdays & Hother).
  { by apply wf_add_world_population_data. }
  { by apply has_cols_features_inputs. }
  rewrite Hr in Hr'. injection Hr' as <-.
  simpl in Hcc. rewrite lookup_insert_ne in Hcc by done.
  rewrite Hcc1 in Hcc. injection Hcc as <-.
  simpl in Hd', Hdays. split; [congruence|]. split.
  - rewrite Hother by by_decide. simpl. by rewrite lookup_insert_ne.
  - by rewrite Hdays, Hd1.
Qed.

(** C4.  Take a frame whose counts of confirmed cases are finite and not
    negative and whose rows are in date order within each country.  After
    the filler, the population join and the synthesizer, in every
    country: if no row has a count above 0 then DaysCountFromFirstCase is
    0 in every row; otherwise, with [d0] the earliest date of a row with a
    count above 0, a row dated [d] holds the number of days [d - d0] when
    [d0 <= d] and 0 when it is earlier.  On counts [0,0,5,5,12] over five
    consecutive days [create_features] gives [0,0,0,1,2]. *)
Theorem days_count_from_first_case wp df :
  wf df → has_cols ffill_cols df → cases_nonneg df → date_ordered df →
  (∃ df', fill_and_synthesize wp df = Some df' ∧
     ∀ c, c ∈ Country_Code df →
       ∃ cases days,
         let dates := DateTime (loc (code_mask c df') df') in
         getitem (loc (code_mask c df') df') "ConfirmedCases" = Some cases ∧
         getitem (loc (code_mask c df') df') "DaysCountFromFirstCase"
           = Some days ∧
         length cases = length dates ∧ length days = length dates ∧
         ((∀ x, x ∈ cases → num_gt0 x = false) →
            ∀ y, y ∈ days → y = Fin 0) ∧
         (∀ d0, first_case_date dates cases d0 →
            ∀ i d, dates !! i = Some d →
              days !! i
              = Some (if decide (d0 ≤ d)%Z then of_Z (d - d0) else Fin 0))) ∧
  (df' ← create_features ex_x; getitem df' "DaysCountFromFirstCase")
  = Some (of_Z <$> [0; 0; 0; 1; 2]%Z).
Proof.
  intros Hwf Hcols (s & Hs & Hge) Hsorted. split; [|by vm_compute].
  destruct (fill_and_synthesize_loc wp df Hwf Hcols)
    as (df' & Hrun & Hwf' & Hk & Hloc).
  exists df'. split; [done|]. intros c Hc.
  set (m := code_mask c df).
  assert (Hs0 : cols (loc m df) !! "ConfirmedCases" = Some (select m s)).
  { simpl. by rewrite lookup_fmap, Hs. }
  destruct (synthesize_sub_days wp _ _ _ (wf_loc m _ Hwf) (has_cols_loc _ m _ Hcols)
              (Hloc c Hc) Hs0) as (Hd & Hcases & Hdays).
  assert (Hlen : length (select m s) = length (DateTime (loc m df))).
  { destruct (wf_loc m _ Hwf) as [Hdl _]. rewrite Hdl.
    exact (wf_lookup _ _ _ (wf_loc m _ Hwf) Hs0). }
  assert (Hso : StronglySorted Z.le (DateTime (loc m df))).
  { apply (proj1 (Forall_forall _ _) Hsorted c). by apply elem_of_unique. }
  destruct (days_of_filled (select m s) (DateTime (loc m df)) Hlen
              (Forall_select _ m _ Hge) Hso) as [Hnone Hfirst].
  exists (replace_ffill (select m s)),
         (days_of (replace_ffill (select m s)) (DateTime (loc m df))).
  cbv zeta. rewrite Hd. split; [done|]. split; [done|].
  split; [unfold replace_ffill; by rewrite length_pad|].
  split; [unfold days_of; by rewrite length_assign, length_replicate|].
  by split.
Qed.

Lemma cases_nonneg_ex_df : cases_nonneg ex_df.
Proof.
  exists (ex_num <$> [0; 0; 0; 5; 0; 0; 12]%Z). split; [by vm_compute|].
  by_decide.
Defined.

Lemma date_ordered_ex_df : date_ordered ex_df.
Proof. by_decide. Defined.

Lemma days_count_from_first_case_witness :
  (∃ df', fill_and_synthesize ex_wp ex_df = Some df' ∧
     ∀ c, c ∈ Country_Code ex_df →
       ∃ cases days,
         let dates := DateTime (loc (code_mask c df') df') in
         getitem (loc (code_mask c df') df') "ConfirmedCases" = Some cases ∧
         getitem (loc (code_mask c df') df') "DaysCountFromFirstCase"
           = Some days ∧
         length cases = length dates ∧ length days = length dates ∧
         ((∀ x, x ∈ cases → num_gt0 x = false) →
            ∀ y, y ∈ days → y = Fin 0) ∧
         (∀ d0, first_case_date dates cases d0 →
            ∀ i d, dates !! i = Some d →
              days !! i
              = Some (if decide (d0 ≤ d)%Z then of_Z (d - d0) else Fin 0))) ∧
  (df' ← create_features ex_x; getitem df' "DaysCountFromFirstCase")
  = Some (of_Z <$> [0; 0; 0; 1; 2]%Z).
Proof.
  exact (days_count_from_first_case ex_wp ex_df wf_ex_df has_cols_ex_df
           cases_nonneg_ex_df date_ordered_ex_df).
Defined.

(** ** C9: relative rates *)

Lemma has_cols_joined wp df :
  has_cols count_cols df →
  has_cols features_inputs (add_world_population_data wp df).
Proof.
  intros H. unfold features_inputs. apply Forall_forall. intros k Hk.
  rewrite !elem_of_cons, elem_of_nil in Hk. simpl.
  destruct Hk as [->|[->|[->|[->|[]]]]].
  - rewrite lookup_insert_ne by done.
    apply (proj1 (Forall_forall _ _) H). by_decide.
  - rewrite lookup_insert_ne by done.
    apply (proj1 (Forall_forall _ _) H). by_decide.
  - rewrite lookup_insert_ne by done.
    apply (proj1 (Forall_forall _ _) H). by_decide.
  - rewrite lookup_insert_eq. by eexists.
Qed.

Lemma select_code_const c (codes : list string) :
  select ((λ k, bool_decide (k = c)) <$> codes) codes
  = replicate (length (select ((λ k, bool_decide (k = c)) <$> codes) codes)) c.
Proof.
  induction codes as [|k ks IH]; simpl; [done|].
  case_bool_decide; simpl; [subst; f_equal|]; done.
Qed.

Lemma zip_with_replicate_r {A B C} (f : A → B → C) (s : list A) n (y : B) :
  length s = n → zip_with f s (replicate n y) = (λ x, f x y) <$> s.
Proof.
  intros <-. induction s as [|x s IH]; simpl; [done|]. by rewrite IH.
Qed.

(** The frame of one country after the join and the synthesizer. *)
Lemma create_sub_joined wp c df r :
  wf df → has_cols count_cols df →
  create_sub (add_world_population_data wp (loc (code_mask c df) df)) = Some r →
  ∃ cc cd rc,
    cols (loc (code_mask c df) df) !! "ConfirmedCases" = Some cc ∧
    cols (loc (code_mask c df) df) !! "ConfirmedDeaths" = Some cd ∧
    cols (loc (code_mask c df) df) !! "Recovered" = Some rc ∧
    (∀ src dst, (src, dst) ∈ rate_cols →
       ∃ s, cols r !! src = Some s ∧
            cols r !! dst
            = Some ((λ x, num_div x (default NaN (wp !! c))) <$> s)) ∧
    cols r !! "Active" = Some (active_of cc cd rc) ∧
    cols r !! "DailyConfirmedCases" = Some (fillna (Fin 0) (diff cc)) ∧
    cols r !! "DailyConfirmedDeaths" = Some (fillna (Fin 0) (diff cd)) ∧
    cols r !! "DailyRecovered" = Some (fillna (Fin 0) (diff rc)) ∧
    cols r !! "DailyActive" = Some (fillna (Fin 0) (diff (active_of cc cd rc))) ∧
    cols r !! "DaysCountFromFirstCase"
      = Some (days_of cc (DateTime (loc (code_mask c df) df))) ∧
    (∀ k, k ∉ created_cols → k ≠ "Population" →
       cols r !! k = cols (loc (code_mask c df) df) !! k).
Proof.
  intros Hwf Hcols Hr.
  set (sub := loc (code_mask c df) df) in *.
  assert (Hwfs : wf sub) by (by apply wf_loc).
  destruct (create_sub_spec (add_world_population_data wp sub))
    as (r' & cc & cd & rc & pop & Hr' & _ & Hcc & Hcd & Hrc & Hpop & Hac & Hrcc
        & Hrcd & Hrrc & Hrac & Hdcc & Hdcd & Hdrc & Hdac & Hdays & Hother).
  { by apply wf_add_world_population_data. }
  { by apply has_cols_joined, has_cols_loc. }
  rewrite Hr in Hr'. injection Hr' as <-.
  simpl in Hcc, Hcd, Hrc, Hpop.
  rewrite lookup_insert_ne in Hcc, Hcd, Hrc by done.
  rewrite lookup_insert_eq in Hpop. injection Hpop as <-.
  assert (Hlen : ∀ col s, cols sub !! col = Some s →
            length s = length (select (code_mask c df) (Country_Code df))).
  { intros col s Hs. exact (wf_lookup _ _ _ Hwfs Hs). }
  assert (Hdiv : ∀ col s, cols sub !! col = Some s →
    zip_with num_div s
      ((λ k, default NaN (wp !! k)) <$> select (code_mask c df) (Country_Code df))
    = (λ x, num_div x (default NaN (wp !! c))) <$> s).
  { intros col s Hs. unfold code_mask. rewrite select_code_const, fmap_replicate.
    apply zip_with_replicate_r. rewrite (Hlen _ _ Hs). done. }
  exists cc, cd, rc. split; [done|]. split; [done|]. split; [done|]. split.
  { intros src dst Hin. unfold rate_cols in Hin.
    rewrite !elem_of_cons, elem_of_nil in Hin.
    destruct Hin as [[= -> ->]|[[= -> ->]|[[= -> ->]|[[= -> ->]|[]]]]].
    - exists cc. rewrite Hother by by_decide. simpl.
      rewrite lookup_insert_ne by done. split; [done|].
      rewrite Hrcc. f_equal. by eapply Hdiv.
    - exists cd. rewrite Hother by by_decide. simpl.
      rewrite lookup_insert_ne by done. split; [done|].
      rewrite Hrcd. f_equal. by eapply Hdiv.
    - exists rc. rewrite Hother by by_decide. simpl.
      rewrite lookup_insert_ne by done. split; [done|].
      rewrite Hrrc. f_equal. by eapply Hdiv.
    - exists (active_of cc cd rc). split; [done|].
      rewrite Hrac. f_equal. simpl.
      unfold code_mask. rewrite select_code_const, fmap_replicate.
      apply zip_with_replicate_r. unfold active_of.
      rewrite !length_zip_with, (Hlen _ _ Hcc), (Hlen _ _ Hcd), (Hlen _ _ Hrc).
      unfold code_mask. lia. }
  repeat (split; [done|]).
  intros k Hk Hne. rewrite Hother by done. simpl. by rewrite lookup_insert_ne.
Qed.

(** C9.  After the population join, [create_features] returns, and in
    every country each relative rate is, row by row, the count divided by
    the population of the country (a finite count over a finite non-zero
    population being their quotient); where the provider has no
    population for the country every relative rate of its rows is NaN;
    and whatever population the provider gives, every column of these
    rows other than Population and the four rates is the same.  A count
    of 100 over a population of 1,000,000 gives 0.0001. *)
Theorem relative_rates wp df :
  wf df → has_cols count_cols df →
  (∃ df', create_features (add_world_population_data wp df) = Some df' ∧
     ∀ c, c ∈ Country_Code df →
       let sub := loc (code_mask c df') df' in
       (∀ src dst, (src, dst) ∈ rate_cols →
          ∃ s d, cols sub !! src = Some s ∧ cols sub !! dst = Some d ∧
            length d = length s ∧
            (∀ i x, s !! i = Some x →
               d !! i = Some (num_div x (default NaN (wp !! c)))) ∧
            (∀ i a p, s !! i = Some (Fin a) → wp !! c = Some (Fin p) →
               ¬ (p == 0)%Q → d !! i = Some (Fin (a / p))) ∧
            (wp !! c = None → ∀ y, y ∈ d → y = NaN)) ∧
       (∀ wp2, ∃ df2',
          create_features (add_world_population_data wp2 df) = Some df2' ∧
          ∀ k, k ∉ population_cols →
            cols (loc (code_mask c df2') df2') !! k = cols sub !! k)) ∧
  num_eq (num_div (Fin 100) (Fin 1000000)) (Fin 0.0001).
Proof.
  intros Hwf Hcols. split; [|by vm_compute].
  assert (Hrun : ∀ wp', ∃ df',
    create_features (add_world_population_data wp' df) = Some df' ∧
    ∀ c, c ∈ Country_Code df →
      create_sub (add_world_population_data wp' (loc (code_mask c df) df))
      = Some (loc (code_mask c df') df')).
  { intros wp'.
    destruct (create_features_loc (add_world_population_data wp' df))
      as (df' & Hrun & _ & _ & Hloc).
    { by apply wf_add_world_population_data. }
    { by apply has_cols_joined. }
    exists df'. split; [done|]. intros c Hc.
    rewrite <- loc_add_world_population_data. by apply Hloc. }
  destruct (Hrun wp) as (df' & Hdf' & Hloc). exists df'. split; [done|].
  intros c Hc sub.
  destruct (create_sub_joined wp c df _ Hwf Hcols (Hloc c Hc))
    as (cc & cd & rc & Hcc & Hcd & Hrc & Hrate & Hac & Hdcc & Hdcd & Hdrc
        & Hdac & Hdays & Hother).
  split.
  - intros src dst Hin. destruct (Hrate src dst Hin) as (s & Hs & Hd).
    exists s, ((λ x, num_div x (default NaN (wp !! c))) <$> s).
    split; [done|]. split; [done|]. split; [by rewrite length_fmap|].
    split; [|split].
    + intros i x Hx. by rewrite list_lookup_fmap, Hx.
    + intros i a p Ha Hp Hp0. rewrite list_lookup_fmap, Ha, Hp. simpl.
      destruct (Qeq_bool p 0) eqn:E; [|done].
      by apply Qeq_bool_iff in E.
    + intros Hnone y Hy. apply list_elem_of_fmap in Hy as (x & -> & _).
      rewrite Hnone. simpl. by destruct x.
  - intros wp2. destruct (Hrun wp2) as (df2' & Hdf2' & Hloc2).
    exists df2'. split; [done|]. intros k Hk.
    destruct (create_sub_joined wp2 c df _ Hwf Hcols (Hloc2 c Hc))
      as (cc2 & cd2 & rc2 & Hcc2 & Hcd2 & Hrc2 & _ & Hac2 & Hdcc2 & Hdcd2
          & Hdrc2 & Hdac2 & Hdays2 & Hother2).
    rewrite Hcc in Hcc2. injection Hcc2 as <-.
    rewrite Hcd in Hcd2. injection Hcd2 as <-.
    rewrite Hrc in Hrc2. injection Hrc2 as <-.
    unfold population_cols in Hk. rewrite !not_elem_of_cons in Hk.
    destruct Hk as (Hk0 & Hk1 & Hk2 & Hk3 & Hk4 & _).
    destruct (decide (k ∈ created_cols)) as [Hin|Hout].
    + unfold created_cols in Hin. rewrite !elem_of_cons, elem_of_nil in Hin.
      unfold sub.
      destruct Hin as [->|[->|[->|[->|[->|[->|[->|[->|[->|[->|[]]]]]]]]]]];
        try done; congruence.
    + unfold sub. by rewrite Hother, Hother2.
Qed.

Lemma has_cols_count_ex_filled : has_cols count_cols ex_filled.
Proof. by_decide. Defined.

Lemma wf_ex_filled : wf ex_filled.
Proof. split; [reflexivity|]. by_decide. Defined.

Lemma relative_rates_witness :
  (∃ df', create_features (add_world_population_data ex_wp ex_filled) = Some df' ∧
     ∀ c, c ∈ Country_Code ex_filled →
       let sub := loc (code_mask c df') df' in
       (∀ src dst, (src, dst) ∈ rate_cols →
          ∃ s d, cols sub !! src = Some s ∧ cols sub !! dst = Some d ∧
            length d = length s ∧
            (∀ i x, s !! i = Some x →
               d !! i = Some (num_div x (default NaN (ex_wp !! c)))) ∧
            (∀ i a p, s !! i = Some (Fin a) → ex_wp !! c = Some (Fin p) →
               ¬ (p == 0)%Q → d !! i = Some (Fin (a / p))) ∧
            (ex_wp !! c = None → ∀ y, y ∈ d → y = NaN)) ∧
       (∀ wp2, ∃ df2',
          create_features (add_world_population_data wp2 ex_filled) = Some df2' ∧
          ∀ k, k ∉ population_cols →
            cols (loc (code_mask c df2') df2') !! k = cols sub !! k)) ∧
  num_eq (num_div (Fin 100) (Fin 1000000)) (Fin 0.0001).
Proof.
  exact (relative_rates ex_wp ex_filled wf_ex_filled has_cols_count_ex_filled).
Defined.

(** ** The transformer, column by column *)

Lemma transform_step df old_df column (has_flag : bool) idx m_id
    (si si_g : Series) :
  index_of (split_head column) = Some idx →
  "S" +:+ pretty idx = m_id →
  getitem old_df column = Some si →
  (if has_flag then getitem old_df (flag_col column)
   else Some ((λ x, num_add (num_mul x (Fin 0)) (Fin 1)) <$> si)) = Some si_g →
  transform_to_mobility df old_df column has_flag
  = Some (setitem m_id (level idx (nrows df) si si_g) df).
Proof.
  intros Hidx <- Hsi Hg. unfold transform_to_mobility.
  rewrite Hidx. cbn [mbind option_bind]. rewrite Hsi. cbn [mbind option_bind].
  unfold flag_col in Hg. rewrite Hg. cbn [mbind option_bind]. f_equal.
  unfold setitem, setscalar, setitem; simpl. by rewrite insert_insert_eq.
Qed.

Lemma targets_of_indicators :
  target <$> COL.ci_cols
  = Some <$> ["S9"; "S1"; "S2"; "S3"; "S4"; "S5"; "S6"; "S7"; "S8"].
Proof. by vm_compute. Qed.

Lemma transform_all_spec df old_df :
  has_cols transform_inputs old_df →
  ∃ df', transform_all df old_df = Some df' ∧ same_keys df df' ∧
    (∀ i col d, (i, col, d) ∈ flagged →
       ∃ raw flag,
         getitem old_df col = Some raw ∧
         getitem old_df (flag_col col) = Some flag ∧
         cols df' !! ("S" +:+ pretty i)
         = Some (align (nrows df) (zip_with (blend d) raw flag))) ∧
    (∃ raw, getitem old_df COL.c8 = Some raw ∧
       cols df' !! "S8" = Some (align (nrows df) (quarter <$> raw))) ∧
    (∀ k, k ∉ COL.si_cols → cols df' !! k = cols df !! k).
Proof.
  intros Hcols.
  assert (Hget : ∀ col, col ∈ transform_inputs → ∃ s, getitem old_df col = Some s).
  { intros col Hcol. exact (has_cols_lookup _ _ _ Hcols Hcol). }
  destruct (Hget COL.h1) as [r9 Hr9]; [by_decide|].
  destruct (Hget COL.c1) as [r1 Hr1]; [by_decide|].
  destruct (Hget COL.c2) as [r2 Hr2]; [by_decide|].
  destruct (Hget COL.c3) as [r3 Hr3]; [by_decide|].
  destruct (Hget COL.c4) as [r4 Hr4]; [by_decide|].
  destruct (Hget COL.c5) as [r5 Hr5]; [by_decide|].
  destruct (Hget COL.c6) as [r6 Hr6]; [by_decide|].
  destruct (Hget COL.c7) as [r7 Hr7]; [by_decide|].
  destruct (Hget COL.c8) as [r8 Hr8]; [by_decide|].
  destruct (Hget (flag_col COL.h1)) as [f9 Hf9]; [by_decide|].
  destruct (Hget (flag_col COL.c1)) as [f1 Hf1]; [by_decide|].
  destruct (Hget (flag_col COL.c2)) as [f2 Hf2]; [by_decide|].
  destruct (Hget (flag_col COL.c3)) as [f3 Hf3]; [by_decide|].
  destruct (Hget (flag_col COL.c4)) as [f4 Hf4]; [by_decide|].
  destruct (Hget (flag_col COL.c5)) as [f5 Hf5]; [by_decide|].
  destruct (Hget (flag_col COL.c6)) as [f6 Hf6]; [by_decide|].
  destruct (Hget (flag_col COL.c7)) as [f7 Hf7]; [by_decide|].
  eexists. split.
  { unfold transform_all, COL.ci_cols. cbn [for_each negb Nat.eqb].
    rewrite (transform_step _ _ COL.h1 true 9%N "S9" r9 f9 eq_refl eq_refl Hr9 Hf9).
    cbn [mbind option_bind negb Nat.eqb].
    rewrite (transform_step _ _ COL.c1 true 1%N "S1" r1 f1 eq_refl eq_refl Hr1 Hf1).
    cbn [mbind option_bind negb Nat.eqb].
    rewrite (transform_step _ _ COL.c2 true 2%N "S2" r2 f2 eq_refl eq_refl Hr2 Hf2).
    cbn [mbind option_bind negb Nat.eqb].
    rewrite (transform_step _ _ COL.c3 true 3%N "S3" r3 f3 eq_refl eq_refl Hr3 Hf3).
    cbn [mbind option_bind negb Nat.eqb].
    rewrite (transform_step _ _ COL.c4 true 4%N "S4" r4 f4 eq_refl eq_refl Hr4 Hf4).
    cbn [mbind option_bind negb Nat.eqb].
    rewrite (transform_step _ _ COL.c5 true 5%N "S5" r5 f5 eq_refl eq_refl Hr5 Hf5).
    cbn [mbind option_bind negb Nat.eqb].
    rewrite (transform_step _ _ COL.c6 true 6%N "S6" r6 f6 eq_refl eq_refl Hr6 Hf6).
    cbn [mbind option_bind negb Nat.eqb].
    rewrite (transform_step _ _ COL.c7 true 7%N "S7" r7 f7 eq_refl eq_refl Hr7 Hf7).
    cbn [mbind option_bind negb Nat.eqb].
    rewrite (transform_step _ _ COL.c8 false 8%N "S8" r8 _ eq_refl eq_refl Hr8 eq_refl).
    cbn [mbind option_bind fmap option_fmap option_map fst]. reflexivity. }
  split; [by split|]. cbn [cols setitem nrows Country_Code].
  split; [|split].
  - intros i col d Hin. unfold flagged in Hin.
    rewrite !elem_of_cons, elem_of_nil in Hin.
    destruct Hin as [Hin|[Hin|[Hin|[Hin|[Hin|[Hin|[Hin|[Hin|[]]]]]]]]];
      injection Hin as -> -> ->.
    + exists r1, f1. split; [done|]. split; [done|].
      change ("S" +:+ pretty 1%N) with "S1". by lookup_nest.
    + exists r2, f2. split; [done|]. split; [done|].
      change ("S" +:+ pretty 2%N) with "S2". by lookup_nest.
    + exists r3, f3. split; [done|]. split; [done|].
      change ("S" +:+ pretty 3%N) with "S3". by lookup_nest.
    + exists r4, f4. split; [done|]. split; [done|].
      change ("S" +:+ pretty 4%N) with "S4". by lookup_nest.
    + exists r5, f5. split; [done|]. split; [done|].
      change ("S" +:+ pretty 5%N) with "S5". by lookup_nest.
    + exists r6, f6. split; [done|]. split; [done|].
      change ("S" +:+ pretty 6%N) with "S6". by lookup_nest.
    + exists r7, f7. split; [done|]. split; [done|].
      change ("S" +:+ pretty 7%N) with "S7". by lookup_nest.
    + exists r9, f9. split; [done|]. split; [done|].
      change ("S" +:+ pretty 9%N) with "S9". by lookup_nest.
  - exists r8. split; [done|]. by lookup_nest.
  - intros k Hk. unfold COL.si_cols in Hk. rewrite !not_elem_of_cons in Hk.
    destruct Hk as (?&?&?&?&?&?&?&?&?&_).
    by rewrite !lookup_insert_ne.
Qed.

(** ** C1: the mobility formula *)

Lemma align_lookup n (s : Series) (row : nat) x :
  s !! row = Some x → row < n → align n s !! row = Some x.
Proof.
  intros Hx Hn. unfold align. rewrite lookup_take_lt by done.
  by rewrite lookup_app_l by (by eapply lookup_lt_Some).
Qed.

Lemma blend_finite d r f :
  Qeq_bool d 0 = false →
  ∃ q, blend d (Fin r) (Fin f) = Fin q ∧
       (q == r / d * (1 - 0.28375) + 0.28375 * f)%Q.
Proof.
  intros Hd. unfold blend. simpl. rewrite Hd. eexists. split; [done|].
  unfold nf, w. ring.
Qed.

Lemma quarter_finite r :
  ∃ q, quarter (Fin r) = Fin q ∧ (q == r / 4)%Q.
Proof.
  unfold quarter. simpl. eexists. split; [done|]. unfold nf.
  field.
Qed.

Lemma has_cols_ex_old : has_cols transform_inputs ex_old.
Proof. by_decide. Defined.

(** C1.  With raw columns and flags in [old_df], the first loop of
    [extend_data] returns, and in each row where the raw value [r] and the
    flag [f] are finite it leaves in column S{i}, for the indicator [i] of
    C1..C7 and H1 (index 9), the value r/d * (1 - 0.28375) + 0.28375 * f
    with d = 3 for 1, 2, 6, d = 2 for 3, 5, 7, 9 and d = 4 for 4; in
    column S8 it leaves r/4 for the raw value of C8, no flag being read.
    With r = 2 and f = 1 indicator 1 gives 0.76125; with r = 3 indicator
    8 gives 0.75. *)
Theorem mobility_formula df old_df :
  has_cols transform_inputs old_df →
  (∃ df', transform_all df old_df = Some df' ∧
     (∀ i col d, (i, col, d) ∈ flagged →
        ∃ raw flag s,
          getitem old_df col = Some raw ∧
          getitem old_df (flag_col col) = Some flag ∧
          getitem df' ("S" +:+ pretty i) = Some s ∧
          ∀ (row : nat) r f, row < nrows df →
            raw !! row = Some (Fin r) → flag !! row = Some (Fin f) →
            ∃ q, s !! row = Some (Fin q) ∧
                 (q == r / d * (1 - 0.28375) + 0.28375 * f)%Q) ∧
     (∃ raw s,
        getitem old_df COL.c8 = Some raw ∧ getitem df' "S8" = Some s ∧
        ∀ (row : nat) r, row < nrows df → raw !! row = Some (Fin r) →
          ∃ q, s !! row = Some (Fin q) ∧ (q == r / 4)%Q)) ∧
  num_eq (blend 3 (Fin 2) (Fin 1)) (Fin 0.76125) ∧
  num_eq (quarter (Fin 3)) (Fin 0.75).
Proof.
  intros Hcols. split; [|split; by vm_compute].
  destruct (transform_all_spec df old_df Hcols)
    as (df' & Hrun & _ & Hflag & (r8 & Hr8 & Hs8) & _).
  exists df'. split; [done|]. split.
  - intros i col d Hin.
    destruct (Hflag i col d Hin) as (raw & flag & Hraw & Hfl & Hs).
    exists raw, flag, (align (nrows df) (zip_with (blend d) raw flag)).
    split; [done|]. split; [done|]. split; [done|].
    intros row r f Hrow Hr Hf.
    assert (Hd : Qeq_bool d 0 = false).
    { unfold flagged in Hin. rewrite !elem_of_cons, elem_of_nil in Hin.
      destruct Hin as [Hin|[Hin|[Hin|[Hin|[Hin|[Hin|[Hin|[Hin|[]]]]]]]]];
        by injection Hin as -> -> ->. }
    destruct (blend_finite d r f Hd) as (q & Hq & Hqe).
    exists q. split; [|done]. apply align_lookup; [|done].
    by rewrite lookup_zip_with, Hr, Hf, <- Hq.
  - exists r8, (align (nrows df) (quarter <$> r8)).
    split; [done|]. split; [done|]. intros row r Hrow Hr.
    destruct (quarter_finite r) as (q & Hq & Hqe).
    exists q. split; [|done]. apply align_lookup; [|done].
    by rewrite list_lookup_fmap, Hr, <- Hq.
Qed.

Lemma mobility_formula_witness :
  (∃ df', transform_all ex_old ex_old = Some df' ∧
     (∀ i col d, (i, col, d) ∈ flagged →
        ∃ raw flag s,
          getitem ex_old col = Some raw ∧
          getitem ex_old (flag_col col) = Some flag ∧
          getitem df' ("S" +:+ pretty i) = Some s ∧
          ∀ (row : nat) r f, row < nrows ex_old →
            raw !! row = Some (Fin r) → flag !! row = Some (Fin f) →
            ∃ q, s !! row = Some (Fin q) ∧
                 (q == r / d * (1 - 0.28375) + 0.28375 * f)%Q) ∧
     (∃ raw s,
        getitem ex_old COL.c8 = Some raw ∧ getitem df' "S8" = Some s ∧
        ∀ (row : nat) r, row < nrows ex_old → raw !! row = Some (Fin r) →
          ∃ q, s !! row = Some (Fin q) ∧ (q == r / 4)%Q)) ∧
  num_eq (blend 3 (Fin 2) (Fin 1)) (Fin 0.76125) ∧
  num_eq (quarter (Fin 3)) (Fin 0.75).
Proof. exact (mobility_formula ex_old ex_old has_cols_ex_old). Defined.

(** ** C10: the feature labels *)

Lemma transform_to_mobility_target df old_df col has_flag df' :
  transform_to_mobility df old_df col has_flag = Some df' →
  ∃ t, target col = Some t ∧ is_Some (cols df' !! t) ∧
       ∀ k, k ≠ t → cols df' !! k = cols df !! k.
Proof.
  unfold transform_to_mobility, target. intros H.
  destruct (index_of (split_head col)) as [idx|]; simpl in H; [|done].
  destruct (getitem old_df col) as [si|]; simpl in H; [|done].
  destruct (if has_flag then _ else _) as [si_g|]; simpl in H; [|done].
  injection H as <-. eexists. split; [done|]. simpl. split.
  - rewrite lookup_insert_eq. by eexists.
  - intros k Hk. by rewrite !lookup_insert_ne.
Qed.

(** C10.  [transform_to_mobility] writes C{k} to S{k} for k = 1..8 and H1
    to S9, and changes no other column; so none of the [FEATURE]
    constants names the column written from the indicator it is called
    after: each names the column of the indicator one place further in
    C1..C8, H1 ([public_information] is S1, written from C1 school
    closing; [school_closing] is S2; [international_travel_controls] is
    S9, written from H1, while C8 travel controls are in S8). *)
Theorem feature_labels_shifted :
  target <$> COL.ci_cols
    = Some <$> ["S9"; "S1"; "S2"; "S3"; "S4"; "S5"; "S6"; "S7"; "S8"] ∧
  (∀ df old_df col has_flag df',
     transform_to_mobility df old_df col has_flag = Some df' →
     ∃ t, target col = Some t ∧ is_Some (cols df' !! t) ∧
          ∀ k, k ≠ t → cols df' !! k = cols df !! k) ∧
  Forall (λ p, target p.1 ≠ Some p.2) named_features ∧
  target <$> shifted_cols = Some <$> (snd <$> named_features) ∧
  target COL.c1 = Some FEATURE.public_information ∧
  target COL.c1 ≠ Some FEATURE.school_closing ∧
  target COL.c8 = Some "S8" ∧
  target COL.h1 = Some FEATURE.international_travel_controls.
Proof.
  split; [by vm_compute|]. split; [apply transform_to_mobility_target|].
  split; [by_decide|]. repeat split; by vm_compute.
Qed.

Lemma feature_labels_shifted_witness :
  ∃ df', transform_to_mobility ex_df ex_raw COL.c1 true = Some df' ∧
    ∃ t, target COL.c1 = Some t ∧ is_Some (cols df' !! t) ∧
         ∀ k, k ≠ t → cols df' !! k = cols ex_df !! k.
Proof.
  destruct (transform_to_mobility ex_df ex_raw COL.c1 true) as [df'|] eqn:E;
    [|by vm_compute in E].
  exists df'. split; [done|].
  exact (proj1 (proj2 feature_labels_shifted) _ _ _ _ _ E).
Defined.

(** ** Sums of rationals *)

Lemma running_fin acc qs :
  running (Fin acc) (Fin <$> qs) = Fin <$> Qrunning acc qs.
Proof.
  revert acc. induction qs as [|q qs IH]; intros acc; simpl; [done|].
  by rewrite IH.
Qed.

Lemma fillna_fin v qs : fillna v (Fin <$> qs) = Fin <$> qs.
Proof. unfold fillna. rewrite <- list_fmap_compose. by apply list_fmap_ext. Qed.

Lemma length_Qrunning acc qs : length (Qrunning acc qs) = length qs.
Proof.
  revert acc. induction qs as [|q qs IH]; intros acc; simpl; [done|].
  by rewrite IH.
Qed.

Lemma length_Qcumsum qs : length (Qcumsum qs) = length qs.
Proof. destruct qs; simpl; [done|]. by rewrite length_Qrunning. Qed.

Lemma restore_fin qs (rs : Series) :
  length rs = length qs →
  zip_with (λ x r, if is_nan x then NaN else r) (Fin <$> qs) rs = rs.
Proof.
  revert rs. induction qs as [|q qs IH]; intros [|r rs] Hlen; simpl in *;
    try done.
  f_equal. apply IH. congruence.
Qed.

Lemma cumsum_fin qs : cumsum (Fin <$> qs) = Fin <$> Qcumsum qs.
Proof.
  unfold cumsum. rewrite fillna_fin.
  assert (H : np_cumsum (Fin <$> qs) = Fin <$> Qcumsum qs).
  { destruct qs as [|q qs]; simpl; [done|]. by rewrite running_fin. }
  rewrite H. apply restore_fin. by rewrite length_fmap, length_Qcumsum.
Qed.

Lemma Qrunning_lookup acc qs (k : nat) v :
  Qrunning acc qs !! k = Some v → (v == acc + Qsum (take (S k) qs))%Q.
Proof.
  revert acc k. induction qs as [|q qs IH]; intros acc k H; simpl in *; [done|].
  destruct k as [|k]; simpl in *.
  - injection H as <-. unfold Qsum. simpl. ring.
  - rewrite (IH _ _ H). unfold Qsum. simpl. ring.
Qed.

Lemma Qcumsum_lookup qs (k : nat) v :
  Qcumsum qs !! k = Some v → (v == Qsum (take (S k) qs))%Q.
Proof.
  destruct qs as [|q qs]; simpl; [done|]. destruct k as [|k]; simpl.
  - intros [= <-]. unfold Qsum. simpl. ring.
  - intros H. rewrite (Qrunning_lookup _ _ _ _ H). unfold Qsum. simpl. ring.
Qed.

Lemma Qrunning_mono acc qs (k : nat) a b :
  Forall (λ q, 0 <= q)%Q qs →
  Qrunning acc qs !! k = Some a → Qrunning acc qs !! S k = Some b →
  (a <= b)%Q.
Proof.
  intros H. revert acc k. induction H as [|q qs Hq H IH]; intros acc k Ha Hb;
    simpl in *; [done|].
  destruct k as [|k]; simpl in *.
  - injection Ha as <-. destruct H as [|q' qs Hq' H]; simpl in *; [done|].
    injection Hb as <-. lra.
  - by eapply IH.
Qed.

Lemma Qcumsum_mono qs (k : nat) a b :
  Forall (λ q, 0 <= q)%Q qs →
  Qcumsum qs !! k = Some a → Qcumsum qs !! S k = Some b → (a <= b)%Q.
Proof.
  intros H. destruct H as [|q qs Hq H]; simpl; [done|].
  destruct k as [|k]; simpl.
  - intros [= <-]. destruct H as [|q' qs Hq' H]; simpl; [done|].
    intros [= <-]. lra.
  - by apply Qrunning_mono.
Qed.

Lemma foldl_add_fin a qs :
  foldl (λ a x, num_add a (if is_nan x then Fin 0 else x)) (Fin a) (Fin <$> qs)
  = Fin (foldl Qplus a qs).
Proof. revert a. induction qs as [|q qs IH]; intros a; simpl; [done|]. apply IH. Qed.

Lemma foldl_Qplus a qs : (foldl Qplus a qs == a + Qsum qs)%Q.
Proof.
  revert a. induction qs as [|q qs IH]; intros a; unfold Qsum; simpl; [ring|].
  rewrite IH. unfold Qsum. ring.
Qed.

Lemma foldl_zip_with_lookup (f : num → num → num) (ss : list Series)
    (acc : Series) (i : nat) a xs :
  acc !! i = Some a → mapM (λ s : Series, s !! i) ss = Some xs →
  foldl (zip_with f) acc ss !! i = Some (foldl f a xs).
Proof.
  revert acc a xs. induction ss as [|s ss IH]; intros acc a xs Hacc H;
    simpl in *.
  - injection H as <-. exact Hacc.
  - destruct (s !! i) as [x|] eqn:Ex; simpl in H; [|done].
    destruct (mapM _ ss) as [xs'|] eqn:Exs; simpl in H; [|done].
    injection H as <-. simpl. apply IH; [|done].
    by rewrite lookup_zip_with, Hacc, Ex.
Qed.

Lemma sum_axis1_lookup n ss (i : nat) xs :
  i < n → mapM (λ s : Series, s !! i) ss = Some xs →
  sum_axis1 n ss !! i
  = Some (foldl (λ a x, num_add a (if is_nan x then Fin 0 else x)) (Fin 0) xs).
Proof.
  intros Hi H. unfold sum_axis1. apply foldl_zip_with_lookup; [|done].
  by apply lookup_replicate.
Qed.

Lemma mapM_compose {A B C} (f : A → option B) (g : B → option C) l ys zs :
  mapM f l = Some ys → mapM (λ x, f x ≫= g) l = Some zs →
  mapM g ys = Some zs.
Proof.
  rewrite !mapM_Some. intros Hy. revert zs.
  induction Hy as [|x y l ys Hxy Hy IH]; intros zs Hz.
  - by inversion Hz.
  - inversion Hz as [|? z ? zs' Hxz Hz']; subst.
    rewrite Hxy in Hxz. constructor; [done|]. by apply IH.
Qed.

(** ** C3: the mobility features *)

Lemma fill_sub_feature_cols sub r :
  run_sub fill_prog sub = Some r →
  ∃ ss si,
    mapM (getitem r) COL.si_cols = Some ss ∧
    getitem r "StringencyIndex" = Some si ∧
    cols r !! "pt" = Some (pt_of (nrows r) ss) ∧
    cols r !! "Pt" = Some (cumsum (pt_of (nrows r) ss)) ∧
    cols r !! "mt" = Some (mt_of (pt_of (nrows r) ss)) ∧
    cols r !! "Mt" = Some (cumsum (mt_of (pt_of (nrows r) ss))) ∧
    cols r !! "st" = Some (st_of si) ∧
    cols r !! "St" = Some (cumsum (st_of si)).
Proof.
  intros H. destruct (fill_sub_features _ _ H) as (ss & si & Hss & Hsi & Hr).
  exists ss, si. split; [done|]. split; [done|].
  assert (Hc : cols r = cols (with_features ss si r)) by (by rewrite <- Hr).
  rewrite Hc. unfold with_features. cbn [cols setitem].
  repeat split; by lookup_nest.
Qed.

Lemma running_sum_of_cumsum inst : running_sum_of inst (cumsum inst).
Proof.
  split; [done|]. intros qs ->. exists (Qcumsum qs).
  split; [apply cumsum_fin|]. split; [apply length_Qcumsum|].
  apply Qcumsum_lookup.
Qed.

(** C3.  After [fill_missing_values], in every country and every row
    whose S1..S9 are finite, pt is their sum divided by 9 and mt is
    1 - pt; in every row with a finite StringencyIndex st is that index
    divided by 100; and Pt, Mt and St are the running sums of pt, mt and st
    over the rows of the country, in table order, each starting with the
    first row of the country. *)
Theorem mobility_features df :
  wf df → has_cols ffill_cols df →
  ∃ df', fill_missing_values df = Some df' ∧
    ∀ c, c ∈ Country_Code df →
      let sub := loc (code_mask c df') df' in
      ∃ pt Pt mt Mt st St si,
        cols sub !! "pt" = Some pt ∧ cols sub !! "Pt" = Some Pt ∧
        cols sub !! "mt" = Some mt ∧ cols sub !! "Mt" = Some Mt ∧
        cols sub !! "st" = Some st ∧ cols sub !! "St" = Some St ∧
        cols sub !! "StringencyIndex" = Some si ∧
        (∀ (i : nat) qs,
           mapM (λ col, cols sub !! col ≫= (.!! i)) COL.si_cols
             = Some (Fin <$> qs) →
           ∃ p, pt !! i = Some (Fin p) ∧ (p == Qsum qs / 9)%Q ∧
                mt !! i = Some (Fin (1 - p))) ∧
        (∀ (i : nat) x, si !! i = Some (Fin x) →
           st !! i = Some (Fin (x / 100))) ∧
        running_sum_of pt Pt ∧ running_sum_of mt Mt ∧ running_sum_of st St.
Proof.
  intros Hwf Hcols.
  destruct (fill_missing_values_loc df Hwf Hcols)
    as (df' & Hrun & Hwf' & Hk & Hloc).
  exists df'. split; [done|]. intros c Hc sub.
  destruct (fill_sub_feature_cols _ _ (Hloc c Hc))
    as (ss & si & Hss & Hsi & Hpt & HPt & Hmt & HMt & Hst & HSt).
  fold sub in Hss, Hsi, Hpt, HPt, Hmt, HMt, Hst, HSt.
  assert (Hwfs : wf sub) by (by apply wf_loc).
  eexists _, _, _, _, _, _, si.
  repeat (split; [eassumption|]).
  split; [|split; [|split; [|split]]]; try apply running_sum_of_cumsum.
  - intros i qs Hrow.
    pose proof (mapM_compose _ _ _ _ _ Hss Hrow) as Hcells.
    assert (Hi : i < nrows sub).
    { pose proof (proj1 (mapM_Some _ _ _) Hss) as Hss2.
      pose proof (proj1 (mapM_Some _ _ _) Hcells) as Hcells2.
      unfold COL.si_cols in Hss2.
      inversion Hss2 as [|col s1 l ss' Hs1 _]; subst.
      inversion Hcells2 as [|? x ? xs Hx _]; subst.
      rewrite <- (wf_lookup _ _ _ Hwfs Hs1). by eapply lookup_lt_Some. }
    pose proof (sum_axis1_lookup _ _ _ _ Hi Hcells) as Hsum.
    rewrite foldl_add_fin in Hsum.
    exists (foldl Qplus 0 qs / 9)%Q. split; [|split].
    + unfold pt_of. by rewrite list_lookup_fmap, Hsum.
    + rewrite foldl_Qplus. field.
    + unfold mt_of, pt_of. by rewrite !list_lookup_fmap, Hsum.
  - intros i x Hx. unfold st_of. by rewrite list_lookup_fmap, Hx.
Qed.

Lemma mobility_features_witness :
  ∃ df', fill_missing_values ex_df = Some df' ∧
    ∀ c, c ∈ Country_Code ex_df →
      let sub := loc (code_mask c df') df' in
      ∃ pt Pt mt Mt st St si,
        cols sub !! "pt" = Some pt ∧ cols sub !! "Pt" = Some Pt ∧
        cols sub !! "mt" = Some mt ∧ cols sub !! "Mt" = Some Mt ∧
        cols sub !! "st" = Some st ∧ cols sub !! "St" = Some St ∧
        cols sub !! "StringencyIndex" = Some si ∧
        (∀ (i : nat) qs,
           mapM (λ col, cols sub !! col ≫= (.!! i)) COL.si_cols
             = Some (Fin <$> qs) →
           ∃ p, pt !! i = Some (Fin p) ∧ (p == Qsum qs / 9)%Q ∧
                mt !! i = Some (Fin (1 - p))) ∧
        (∀ (i : nat) x, si !! i = Some (Fin x) →
           st !! i = Some (Fin (x / 100))) ∧
        running_sum_of pt Pt ∧ running_sum_of mt Mt ∧ running_sum_of st St.
Proof. exact (mobility_features ex_df wf_ex_df has_cols_ex_df). Defined.

(** ** C6: the cumulative features never decrease *)

Lemma in_range_spec lo hi x :
  in_range lo hi x = true ↔ ∃ q, x = Fin q ∧ (lo <= q <= hi)%Q.
Proof.
  destruct x as [q| | |]; simpl.
  - rewrite andb_true_iff, !Qle_bool_iff. split.
    + intros [? ?]. by exists q.
    + intros (q' & [= <-] & ? & ?). done.
  - split; [done|]. by intros (? & ? & _).
  - split; [done|]. by intros (? & ? & _).
  - split; [done|]. by intros (? & ? & _).
Qed.

Lemma fin_list (s : Series) :
  Forall (λ x, is_fin x = true) s → ∃ qs, s = Fin <$> qs.
Proof.
  induction 1 as [|x s Hx _ [qs ->]]; [by exists []|].
  destruct x as [q| | |]; try done. by exists (q :: qs).
Qed.

Lemma cumsum_nondecreasing (s : Series) :
  Forall (λ x, in_range 0 1 x = true) s → nondecreasing (cumsum s).
Proof.
  intros H.
  destruct (fin_list s) as [qs ->].
  { eapply Forall_impl; [exact H|]. intros x Hx. by destruct x. }
  rewrite cumsum_fin. intros i a b Ha Hb.
  rewrite list_lookup_fmap in Ha, Hb.
  destruct (Qcumsum qs !! i) as [qa|] eqn:Ea; simplify_eq/=.
  destruct (Qcumsum qs !! S i) as [qb|] eqn:Eb; simplify_eq/=.
  eapply Qcumsum_mono; [|done..].
  apply Forall_fmap in H. eapply Forall_impl; [exact H|].
  intros q Hq. simpl in Hq. apply andb_true_iff in Hq as [Hq _].
  by apply Qle_bool_iff.
Qed.

Lemma rows_exist (ss : list Series) n (i : nat) :
  Forall (λ s, length s = n) ss → i < n →
  ∃ xs, mapM (λ s : Series, s !! i) ss = Some xs ∧ length xs = length ss ∧
        ∀ P : num → Prop, Forall (Forall P) ss → Forall P xs.
Proof.
  intros H Hi. induction H as [|s ss Hs H (xs & Hxs & Hlen & HP)].
  - exists []. split; [done|]. split; [done|]. constructor.
  - destruct (lookup_lt_is_Some_2 s i) as [x Hx]; [lia|].
    exists (x :: xs). simpl. rewrite Hx, Hxs. split; [done|].
    split; [simpl; by rewrite Hlen|].
    intros P HPs. apply Forall_cons in HPs as [HPs HPss].
    constructor; [|by apply HP].
    by apply (proj1 (Forall_lookup _ _) HPs i x).
Qed.

Lemma unit_sum_bounds xs a :
  Forall (λ x, in_range 0 1 x = true) xs →
  ∃ q, foldl (λ a x, num_add a (if is_nan x then Fin 0 else x)) (Fin a) xs
       = Fin q ∧ (a <= q <= a + inject_Z (Z.of_nat (length xs)))%Q.
Proof.
  intros H. revert a. induction H as [|x xs Hx H IH]; intros a;
    cbn [foldl length].
  - exists a. split; [done|]. change (inject_Z (Z.of_nat 0)) with 0%Q. lra.
  - apply in_range_spec in Hx as (qx & -> & Hq0 & Hq1). cbn [is_nan num_add].
    destruct (IH (a + qx)%Q) as (q & Hq & Hlo & Hhi). exists q.
    split; [done|].
    rewrite Nat2Z.inj_succ, <- Z.add_1_r, inject_Z_plus.
    change (inject_Z 1) with 1%Q. lra.
Qed.

Lemma unit_row_sum xs :
  length xs = 9%nat → Forall (λ x, in_range 0 1 x = true) xs →
  ∃ q, foldl (λ a x, num_add a (if is_nan x then Fin 0 else x)) (Fin 0) xs
       = Fin q ∧ (0 <= q <= 9)%Q.
Proof.
  intros Hlen H. destruct (unit_sum_bounds xs 0 H) as (q & Hq & Hlo & Hhi).
  exists q. split; [done|]. rewrite Hlen in Hhi.
  change (inject_Z (Z.of_nat 9)) with 9%Q in Hhi. lra.
Qed.

Lemma pt_of_unit n ss :
  length ss = 9%nat → Forall (λ s : Series, length s = n) ss →
  Forall (Forall (λ x, in_range 0 1 x = true)) ss →
  Forall (λ x, in_range 0 1 x = true) (pt_of n ss).
Proof.
  intros H9 Hlen Hunit. apply Forall_lookup. intros i x Hx.
  assert (Hi : i < n).
  { apply lookup_lt_Some in Hx. unfold pt_of in Hx.
    by rewrite length_fmap, length_sum_axis1 in Hx. }
  destruct (rows_exist ss n i Hlen Hi) as (xs & Hxs & Hl & HP).
  destruct (unit_row_sum xs) as (q & Hq & Hq0 & Hq9).
  { congruence. }
  { by apply HP. }
  unfold pt_of in Hx.
  rewrite list_lookup_fmap, (sum_axis1_lookup _ _ _ _ Hi Hxs), Hq in Hx.
  simpl in Hx. injection Hx as <-. apply in_range_spec.
  eexists. split; [done|]. split.
  - apply Qle_shift_div_l; lra.
  - apply Qle_shift_div_r; lra.
Qed.

Lemma mt_of_unit pt :
  Forall (λ x, in_range 0 1 x = true) pt →
  Forall (λ x, in_range 0 1 x = true) (mt_of pt).
Proof.
  intros H. unfold mt_of. apply Forall_fmap.
  eapply Forall_impl; [exact H|]. intros x (q & -> & Hq0 & Hq1)%in_range_spec.
  apply in_range_spec. eexists. split; [reflexivity|]. lra.
Qed.

Lemma st_of_unit si :
  Forall (λ x, in_range 0 100 x = true) si →
  Forall (λ x, in_range 0 1 x = true) (st_of si).
Proof.
  intros H. unfold st_of. apply Forall_fmap.
  eapply Forall_impl; [exact H|]. intros x (q & -> & Hq0 & Hq1)%in_range_spec.
  apply in_range_spec. eexists. split; [reflexivity|]. split.
  - apply Qle_shift_div_l; lra.
  - apply Qle_shift_div_r; lra.
Qed.

(** The cells of a column, when it is there, all satisfy [p]. *)
Lemma all_cells_spec p df col :
  all_cells p df col = true ↔
  ∃ s, cols df !! col = Some s ∧ Forall (λ x, p x = true) s.
Proof.
  unfold all_cells, getitem. destruct (cols df !! col) as [s|].
  - rewrite forallb_forall. split.
    + intros H. exists s. split; [done|]. apply Forall_forall.
      intros x Hx. apply H. by apply list_elem_of_In.
    + intros (s' & [= <-] & H) x Hx.
      apply (proj1 (Forall_forall _ _) H). by apply list_elem_of_In.
  - split; [done|]. by intros (? & ? & _).
Qed.

Lemma fill_sub_monotone sub r :
  wf sub → run_sub fill_prog sub = Some r →
  (∀ col, col ∈ COL.si_cols → all_cells (in_range 0 1) sub col = true) →
  all_cells (in_range 0 100) sub "StringencyIndex" = true →
  ∀ col, col ∈ cumulative_cols →
    ∃ s, cols r !! col = Some s ∧ nondecreasing s.
Proof.
  intros Hwf Hr Hs Hsi col Hcol.
  pose proof (wf_run_sub _ _ _ Hwf prog_ok_fill Hr) as Hwfr.
  destruct (fill_sub_feature_cols _ _ Hr)
    as (ss & si & Hss & Hsir & Hpt & HPt & Hmt & HMt & Hst & HSt).
  assert (Hssu : Forall (Forall (λ x, in_range 0 1 x = true)) ss).
  { apply mapM_Some in Hss. apply Forall_forall. intros s Hin.
    apply list_elem_of_lookup in Hin as [j Hj].
    destruct (Forall2_lookup_r _ _ _ _ _ Hss Hj) as (c' & Hc' & Hget).
    assert (Hc'in : c' ∈ COL.si_cols) by (by eapply list_elem_of_lookup_2).
    unfold getitem in Hget.
    rewrite (fill_sub_ffilled _ _ _ Hr (ffill_cols_si _ Hc'in)) in Hget.
    destruct (proj1 (all_cells_spec _ _ _) (Hs c' Hc'in)) as (s0 & Hs0 & Hall).
    rewrite Hs0 in Hget. injection Hget as <-. by apply Forall_pad. }
  assert (Hlen : Forall (λ s : Series, length s = nrows r) ss)
    by (by eapply mapM_getitem_length).
  assert (H9 : length ss = 9%nat).
  { apply mapM_Some, Forall2_length in Hss. by rewrite <- Hss. }
  assert (Hptu := pt_of_unit _ _ H9 Hlen Hssu).
  assert (Hsiu : Forall (λ x, in_range 0 100 x = true) si).
  { unfold getitem in Hsir.
    rewrite (fill_sub_ffilled _ _ _ Hr) in Hsir by by_decide.
    destruct (proj1 (all_cells_spec _ _ _) Hsi) as (s0 & Hs0 & Hall).
    rewrite Hs0 in Hsir. injection Hsir as <-. by apply Forall_pad. }
  unfold cumulative_cols in Hcol. rewrite !elem_of_cons, elem_of_nil in Hcol.
  destruct Hcol as [->|[->|[->|[]]]]; eexists; (split; [eassumption|]);
    apply cumsum_nondecreasing.
  - by apply mt_of_unit.
  - done.
  - by apply st_of_unit.
Qed.

(** ** [extend_data] *)

Lemma sort_order_perm codes dates :
  sort_order codes dates ≡ₚ seq 0 (length (zip codes dates)).
Proof.
  unfold sort_order. rewrite merge_sort_Permutation, fmap_imap.
  rewrite (imap_ext _ (λ i _, i)) by done.
  by rewrite imap_seq_0, list_fmap_id.
Qed.

Lemma sort_order_lt codes dates (i : nat) :
  i ∈ sort_order codes dates → i < length (zip codes dates).
Proof. rewrite sort_order_perm, elem_of_seq. lia. Qed.

Lemma length_sort_order codes dates :
  length (sort_order codes dates) = length (zip codes dates).
Proof. by rewrite sort_order_perm, length_seq. Qed.

Lemma length_take_rows {A} (d : A) perm s :
  length (take_rows d perm s) = length perm.
Proof. unfold take_rows. by rewrite length_fmap. Qed.

Lemma Forall_take_rows {A} (P : A → Prop) d (perm : list nat) s :
  Forall P s → Forall (λ i, i < length s) perm →
  Forall P (take_rows d perm s).
Proof.
  intros Hs Hperm. unfold take_rows. apply Forall_fmap.
  eapply Forall_impl; [exact Hperm|]. intros i Hi. simpl.
  destruct (lookup_lt_is_Some_2 s i Hi) as [x Hx]. rewrite Hx. simpl.
  by apply (proj1 (Forall_lookup _ _) Hs i x).
Qed.

Lemma length_align n s : length (align n s) = n.
Proof.
  unfold align. rewrite length_take, length_app, length_replicate. lia.
Qed.

Lemma Forall_fillna_align (P : num → Prop) n s :
  Forall P s → P (Fin 0) → Forall P (fillna (Fin 0) (align n s)).
Proof.
  intros Hs H0. unfold fillna, align. apply Forall_fmap, Forall_take.
  apply Forall_app. split.
  - eapply Forall_impl; [exact Hs|]. intros x Hx. simpl. by destruct x.
  - apply Forall_replicate. done.
Qed.

Lemma Forall_fillna_fin (P : num → Prop) s :
  Forall P s → P (Fin 0) → Forall P (fillna (Fin 0) s).
Proof.
  intros Hs H0. unfold fillna. apply Forall_fmap.
  eapply Forall_impl; [exact Hs|]. intros x Hx. simpl. by destruct x.
Qed.

Lemma Forall_zip_with_2 {A B C} (f : A → B → C) (P : A → Prop) (Q : B → Prop)
    (R : C → Prop) s t :
  (∀ x y, P x → Q y → R (f x y)) →
  Forall P s → Forall Q t → Forall R (zip_with f s t).
Proof.
  intros Hf Hs. revert t. induction Hs as [|x s Hx Hs IH]; intros t Ht;
    [constructor|].
  destruct Ht as [|y t Hy Ht]; constructor; auto.
Qed.

Lemma extend_data_extended df old_df dft :
  transform_all df old_df = Some dft →
  extend_data df old_df = Some (extended dft).
Proof. intros H. unfold extend_data. by rewrite H. Qed.

Lemma extended_spec dft :
  let perm := sort_order (Country_Code dft) (DateTime dft) in
  wf (extended dft) ∧
  Country_Code (extended dft) = take_rows EmptyString perm (Country_Code dft) ∧
  DateTime (extended dft) = take_rows 0%Z perm (DateTime dft) ∧
  (∀ k, k ∉ feature_cols →
     cols (extended dft) !! k
     = (λ s, take_rows NaN perm (fillna (Fin 0) s)) <$> cols dft !! k).
Proof.
  intros perm. split; [|split; [done|split; [done|]]].
  - unfold extended. repeat apply wf_setscalar.
    unfold sort_values; simpl. fold perm. split; unfold nrows; simpl.
    + by rewrite !length_take_rows.
    + intros k s. rewrite lookup_fmap.
      destruct ((fillna (Fin 0) <$> cols dft) !! k) as [s0|]; [|done].
      simpl. intros [= <-]. by rewrite !length_take_rows.
  - intros k Hk. unfold feature_cols in Hk. rewrite !not_elem_of_cons in Hk.
    destruct Hk as (?&?&?&?&?&?&_).
    unfold extended, setscalar, setitem, sort_values; simpl.
    rewrite !lookup_insert_ne by done. rewrite !lookup_fmap.
    by destruct (cols dft !! k).
Qed.

Lemma blend_unit d r f :
  d ∈ [2; 3; 4]%Q → in_range 0 d r = true → is_flag f = true →
  in_range 0 1 (blend d r f) = true.
Proof.
  intros Hd (q & -> & Hq0 & Hq1)%in_range_spec Hf.
  destruct f as [g| | |]; try done. simpl in Hf.
  assert (Hg : (g == 0 ∨ g == 1)%Q).
  { apply orb_true_iff in Hf as [Hf|Hf]; apply Qeq_bool_iff in Hf; auto. }
  assert (Hpos : (0 < d)%Q).
  { rewrite !elem_of_cons, elem_of_nil in Hd.
    destruct Hd as [->|[->|[->|[]]]]; lra. }
  assert (Ht0 : (0 <= q / d)%Q) by (apply Qle_shift_div_l; lra).
  assert (Ht1 : (q / d <= 1)%Q) by (apply Qle_shift_div_r; lra).
  assert (Hblend : blend d (Fin q) (Fin g)
                   = Fin (nf * (q / d * (1 - w) + w * g))).
  { rewrite !elem_of_cons, elem_of_nil in Hd.
    by destruct Hd as [->|[->|[->|[]]]]. }
  rewrite Hblend. apply in_range_spec. eexists. split; [reflexivity|].
  revert Ht0 Ht1. generalize (q / d)%Q. intros t Ht0 Ht1.
  unfold nf, w. destruct Hg as [Hg|Hg]; rewrite Hg; lra.
Qed.

Lemma quarter_unit r :
  in_range 0 4 r = true → in_range 0 1 (quarter r) = true.
Proof.
  intros (q & -> & Hq0 & Hq1)%in_range_spec. apply in_range_spec.
  eexists. split; [reflexivity|]. unfold nf. split.
  - apply Qle_shift_div_l; lra.
  - apply Qle_shift_div_r; lra.
Qed.

Lemma all_cells_present p df col :
  all_cells p df col = true → is_Some (cols df !! col).
Proof. intros (s & Hs & _)%all_cells_spec. by eexists. Qed.

Lemma all_cells_loc p m df col :
  all_cells p df col = true → all_cells p (loc m df) col = true.
Proof.
  intros (s & Hs & Hall)%all_cells_spec. apply all_cells_spec.
  exists (select m s). split; [simpl; by rewrite lookup_fmap, Hs|].
  by apply Forall_select.
Qed.

Lemma raw_in_range_flagged old_df i col d :
  raw_in_range old_df = true → (i, col, d) ∈ flagged →
  all_cells (in_range 0 d) old_df col = true ∧
  all_cells is_flag old_df (flag_col col) = true.
Proof.
  unfold raw_in_range. intros [H _]%andb_true_iff Hin.
  rewrite forallb_forall in H. apply list_elem_of_In in Hin.
  specialize (H _ Hin). by apply andb_true_iff in H.
Qed.

Lemma raw_in_range_c8 old_df :
  raw_in_range old_df = true → all_cells (in_range 0 4) old_df COL.c8 = true.
Proof. unfold raw_in_range. by intros [_ H]%andb_true_iff. Qed.

Lemma raw_in_range_has_cols old_df :
  raw_in_range old_df = true → has_cols transform_inputs old_df.
Proof.
  intros H.
  assert (Hraw : ∀ i col d, (i, col, d) ∈ flagged → is_Some (cols old_df !! col)).
  { intros i col d Hin. eapply all_cells_present.
    exact (proj1 (raw_in_range_flagged _ _ _ _ H Hin)). }
  assert (Hflag : ∀ i col d, (i, col, d) ∈ flagged →
            is_Some (cols old_df !! flag_col col)).
  { intros i col d Hin. eapply all_cells_present.
    exact (proj2 (raw_in_range_flagged _ _ _ _ H Hin)). }
  unfold has_cols, transform_inputs, COL.ci_cols. cbn [fmap list_fmap app].
  repeat apply Forall_cons_2; try apply Forall_nil_2.
  - apply (Hraw 9%N _ 2%Q). unfold flagged. in_list.
  - apply (Hraw 1%N _ 3%Q). unfold flagged. in_list.
  - apply (Hraw 2%N _ 3%Q). unfold flagged. in_list.
  - apply (Hraw 3%N _ 2%Q). unfold flagged. in_list.
  - apply (Hraw 4%N _ 4%Q). unfold flagged. in_list.
  - apply (Hraw 5%N _ 2%Q). unfold flagged. in_list.
  - apply (Hraw 6%N _ 3%Q). unfold flagged. in_list.
  - apply (Hraw 7%N _ 2%Q). unfold flagged. in_list.
  - eapply all_cells_present. by apply raw_in_range_c8.
  - apply (Hflag 9%N _ 2%Q). unfold flagged. in_list.
  - apply (Hflag 1%N _ 3%Q). unfold flagged. in_list.
  - apply (Hflag 2%N _ 3%Q). unfold flagged. in_list.
  - apply (Hflag 3%N _ 2%Q). unfold flagged. in_list.
  - apply (Hflag 4%N _ 4%Q). unfold flagged. in_list.
  - apply (Hflag 5%N _ 2%Q). unfold flagged. in_list.
  - apply (Hflag 6%N _ 3%Q). unfold flagged. in_list.
  - apply (Hflag 7%N _ 2%Q). unfold flagged. in_list.
Qed.

(** A column of the frame returned by [extend_data]. *)
Lemma extended_cells (P : num → Prop) dft k s :
  k ∉ feature_cols → cols dft !! k = Some s →
  length (zip (Country_Code dft) (DateTime dft)) ≤ length s →
  Forall P (fillna (Fin 0) s) →
  ∃ s', cols (extended dft) !! k = Some s' ∧ Forall P s'.
Proof.
  intros Hk Hs Hlen HP.
  destruct (extended_spec dft) as (_ & _ & _ & Hcols).
  rewrite (Hcols k Hk), Hs. simpl. eexists. split; [done|].
  apply Forall_take_rows; [done|]. apply Forall_forall. intros i Hi.
  apply sort_order_lt in Hi. unfold fillna. rewrite length_fmap. lia.
Qed.

Lemma flagged_divisor i col d : (i, col, d) ∈ flagged → d ∈ [2; 3; 4]%Q.
Proof.
  unfold flagged. rewrite !elem_of_cons, elem_of_nil.
  intros [H|[H|[H|[H|[H|[H|[H|[H|[]]]]]]]]]; injection H as -> -> ->; auto.
Qed.

Lemma length_zip_le {A B} (s : list A) (t : list B) : length (zip s t) ≤ length s.
Proof. rewrite length_zip_with. lia. Qed.

(** What [extend_data] returns on raw values within their ranges. *)
Lemma extend_data_ranges df old_df :
  wf df → has_cols count_cols df → raw_in_range old_df = true →
  all_cells (in_range 0 100) df "StringencyIndex" = true →
  ∃ df1, extend_data df old_df = Some df1 ∧ wf df1 ∧
    has_cols ffill_cols df1 ∧
    (∀ col, col ∈ COL.si_cols → all_cells (in_range 0 1) df1 col = true) ∧
    all_cells (in_range 0 100) df1 "StringencyIndex" = true.
Proof.
  intros Hwf Hcount Hraw Hsi.
  destruct (transform_all_spec df old_df (raw_in_range_has_cols _ Hraw))
    as (dft & Hrun & [Hkc Hkd] & Hflag & (r8 & Hr8 & Hs8) & Hother).
  exists (extended dft). split; [by apply extend_data_extended|].
  destruct (extended_spec dft) as (Hwf1 & _ & _ & Hcols1).
  split; [done|].
  assert (Hzip : length (zip (Country_Code dft) (DateTime dft)) ≤ nrows df).
  { rewrite Hkc. apply length_zip_le. }
  assert (Hflagged : ∀ i col d, (i, col, d) ∈ flagged →
    all_cells (in_range 0 1) (extended dft) ("S" +:+ pretty i) = true).
  { intros i col d Hin.
    destruct (Hflag i col d Hin) as (raw & flag & Hrawc & Hflagc & Hs).
    destruct (raw_in_range_flagged _ _ _ _ Hraw Hin) as [Hr Hf].
    apply all_cells_spec in Hr as (raw' & Hraw' & Hrange).
    apply all_cells_spec in Hf as (flag' & Hflag' & Hflags).
    unfold getitem in Hrawc, Hflagc. simplify_eq.
    apply all_cells_spec. eapply extended_cells; [|exact Hs| |].
    - unfold flagged in Hin. rewrite !elem_of_cons, elem_of_nil in Hin.
      destruct Hin as [H|[H|[H|[H|[H|[H|[H|[H|[]]]]]]]]];
        injection H as -> -> ->; by_decide.
    - by rewrite length_align.
    - apply Forall_fillna_align; [|done].
      eapply Forall_zip_with_2; [|exact Hrange|exact Hflags].
      intros x y Hx Hy. apply blend_unit; [|done..].
      by eapply flagged_divisor. }
  assert (H8 : all_cells (in_range 0 1) (extended dft) "S8" = true).
  { pose proof (raw_in_range_c8 _ Hraw) as (raw' & Hraw' & Hrange)%all_cells_spec.
    unfold getitem in Hr8. simplify_eq.
    apply all_cells_spec. eapply extended_cells; [by_decide|exact Hs8| |].
    - by rewrite length_align.
    - apply Forall_fillna_align; [|done]. apply Forall_fmap.
      eapply Forall_impl; [exact Hrange|]. intros x. apply quarter_unit. }
  assert (Hunit : ∀ col, col ∈ COL.si_cols →
            all_cells (in_range 0 1) (extended dft) col = true).
  { intros col Hcol. unfold COL.si_cols in Hcol.
    rewrite !elem_of_cons, elem_of_nil in Hcol.
    destruct Hcol as [->|[->|[->|[->|[->|[->|[->|[->|[->|[]]]]]]]]]].
    - apply (Hflagged 1%N COL.c1 3%Q). unfold flagged. in_list.
    - apply (Hflagged 2%N COL.c2 3%Q). unfold flagged. in_list.
    - apply (Hflagged 3%N COL.c3 2%Q). unfold flagged. in_list.
    - apply (Hflagged 4%N COL.c4 4%Q). unfold flagged. in_list.
    - apply (Hflagged 5%N COL.c5 2%Q). unfold flagged. in_list.
    - apply (Hflagged 6%N COL.c6 3%Q). unfold flagged. in_list.
    - apply (Hflagged 7%N COL.c7 2%Q). unfold flagged. in_list.
    - exact H8.
    - apply (Hflagged 9%N COL.h1 2%Q). unfold flagged. in_list. }
  assert (Hpass : ∀ (P : num → Prop) k s, k ∉ feature_cols → k ∉ COL.si_cols →
            cols df !! k = Some s → Forall P (fillna (Fin 0) s) →
            ∃ s', cols (extended dft) !! k = Some s' ∧ Forall P s').
  { intros P k s Hk1 Hk2 Hs HP. eapply extended_cells; [done| | |done].
    - by rewrite Hother.
    - rewrite (wf_lookup _ _ _ Hwf Hs). done. }
  assert (Hsi1 : all_cells (in_range 0 100) (extended dft) "StringencyIndex" = true).
  { apply all_cells_spec in Hsi as (s & Hs & Hall).
    apply all_cells_spec. eapply Hpass; [by_decide|by_decide|exact Hs|].
    by apply Forall_fillna_fin. }
  split; [|by split].
  unfold has_cols, ffill_cols. apply Forall_app. split.
  - apply Forall_forall. intros col Hcol.
    exact (all_cells_present _ _ _ (Hunit col Hcol)).
  - assert (Hcnt : ∀ k, k ∈ count_cols → k ∉ feature_cols → k ∉ COL.si_cols →
              is_Some (cols (extended dft) !! k)).
    { intros k Hk Hk1 Hk2.
      destruct (has_cols_lookup _ _ _ Hcount Hk) as [s Hs].
      destruct (Hpass (λ _, True) k s Hk1 Hk2 Hs) as (s' & Hs' & _).
      - apply Forall_forall. done.
      - by eexists. }
    repeat apply Forall_cons_2; try apply Forall_nil_2.
    + apply Hcnt; by_decide.
    + apply Hcnt; by_decide.
    + apply Hcnt; by_decide.
    + exact (all_cells_present _ _ _ Hsi1).
Qed.

(** ** The rows after the sort *)

Lemma ltb_lt a b :
  String.ltb a b = true ↔ OrderedTypeEx.String_as_OT.lt a b.
Proof.
  rewrite <- OrderedTypeEx.String_as_OT.cmp_lt.
  unfold String.ltb, OrderedTypeEx.String_as_OT.cmp.
  by destruct (String.compare a b).
Qed.

Lemma ltb_trans a b c :
  String.ltb a b = true → String.ltb b c = true → String.ltb a c = true.
Proof.
  rewrite !ltb_lt. apply OrderedTypeEx.String_as_OT.lt_trans.
Qed.

Lemma ltb_neq a b : String.ltb a b = true → a ≠ b.
Proof. rewrite ltb_lt. apply OrderedTypeEx.String_as_OT.lt_not_eq. Qed.

Lemma ltb_total a b :
  a ≠ b → String.ltb a b = true ∨ String.ltb b a = true.
Proof.
  intros Hne. unfold String.ltb. rewrite (String.compare_antisym b a).
  destruct (String.compare a b) eqn:E; simpl; auto.
  by apply String.compare_eq_iff in E.
Qed.

Lemma key_leb_same c d1 d2 (i j : nat) :
  key_leb (c, d1, i) (c, d2, j) = (d1 <=? d2)%Z.
Proof. unfold key_leb; simpl. by rewrite String.eqb_refl. Qed.

Lemma key_leb_other c1 c2 d1 d2 (i j : nat) :
  c1 ≠ c2 → key_leb (c1, d1, i) (c2, d2, j) = String.ltb c1 c2.
Proof.
  intros Hne. unfold key_leb; simpl.
  by rewrite (proj2 (String.eqb_neq c1 c2) Hne).
Qed.

Global Instance key_le_total : Total key_le.
Proof.
  intros [[c1 d1] i] [[c2 d2] j]. unfold key_le.
  destruct (decide (c1 = c2)) as [->|Hne].
  - rewrite !key_leb_same.
    destruct (Z.le_ge_cases d1 d2) as [H|H]; [left|right];
      apply Is_true_true; lia.
  - rewrite !key_leb_other by done.
    destruct (ltb_total c1 c2 Hne) as [H|H]; [left|right]; by rewrite H.
Qed.

Global Instance key_le_trans : Transitive key_le.
Proof.
  intros [[c1 d1] i] [[c2 d2] j] [[c3 d3] k]. unfold key_le.
  destruct (decide (c1 = c2)) as [->|H12], (decide (c2 = c3)) as [->|H23].
  - rewrite !key_leb_same. rewrite !Is_true_true. lia.
  - rewrite key_leb_same, !key_leb_other by done. tauto.
  - rewrite key_leb_same, !key_leb_other by done. tauto.
  - rewrite !(key_leb_other c1 c2), !(key_leb_other c2 c3) by done.
    rewrite !Is_true_true. intros Ha Hb.
    pose proof (ltb_trans _ _ _ Ha Hb) as Hc.
    rewrite key_leb_other; [done|]. by apply ltb_neq.
Qed.

Lemma StronglySorted_filter_fmap {A B} (R : relation A) (S : relation B)
    (P : A → Prop) `{!∀ x, Decision (P x)} (g : A → B) l :
  (∀ x y, P x → P y → R x y → S (g x) (g y)) →
  StronglySorted R l → StronglySorted S (g <$> filter P l).
Proof.
  intros HRS Hs. induction Hs as [|x l Hs IH Hall]; [constructor|].
  rewrite filter_cons. case_decide as Hx; [|done]. simpl.
  constructor; [done|]. apply Forall_fmap, Forall_forall.
  intros y [Hy Hin']%list_elem_of_filter. apply HRS; [done..|].
  by apply (proj1 (Forall_forall _ _) Hall).
Qed.

Lemma select_mask_filter {A B} (f : A → string) (g : A → B) c (l : list A) :
  select ((λ k, bool_decide (k = c)) <$> (f <$> l)) (g <$> l)
  = g <$> filter (λ e, f e = c) l.
Proof.
  induction l as [|x l IH]; [done|].
  rewrite !fmap_cons, filter_cons. cbn [select]. rewrite IH.
  case_bool_decide; case_decide; done.
Qed.

(** The rows in sorted order are the rows of the frame, each with its
    code and its date. *)
Lemma take_rows_sorted codes dates :
  let rows := merge_sort key_le (imap (λ i k, (k, i)) (zip codes dates)) in
  take_rows EmptyString (sort_order codes dates) codes = (λ e, e.1.1) <$> rows ∧
  take_rows 0%Z (sort_order codes dates) dates = (λ e, e.1.2) <$> rows.
Proof.
  intros rows.
  assert (Hrows : Forall (λ e : string * Z * nat,
            codes !! e.2 = Some e.1.1 ∧ dates !! e.2 = Some e.1.2) rows).
  { unfold rows. rewrite merge_sort_Permutation. apply Forall_forall.
    intros [[c d] i] Hin. apply list_elem_of_lookup in Hin as [j Hj].
    rewrite list_lookup_imap in Hj.
    destruct (zip codes dates !! j) as [[c' d']|] eqn:Ez; simplify_eq/=.
    apply lookup_zip_with_Some in Ez as (x & y & [= <- <-] & Hx & Hy). done. }
  unfold take_rows, sort_order. fold rows. rewrite <- !list_fmap_compose.
  split; apply Forall_fmap_ext_1; (eapply Forall_impl; [exact Hrows|]);
    intros [[c d] i] [H1 H2]; simpl in *; by rewrite ?H1, ?H2.
Qed.

Lemma extended_date_ordered dft : date_ordered (extended dft).
Proof.
  unfold date_ordered. apply Forall_forall. intros c _.
  destruct (extended_spec dft) as (_ & Hc & Hd & _).
  destruct (take_rows_sorted (Country_Code dft) (DateTime dft)) as [Hc' Hd'].
  cbn [DateTime loc]. unfold code_mask. rewrite Hc, Hd, Hc', Hd'.
  rewrite select_mask_filter.
  eapply StronglySorted_filter_fmap; [|apply (StronglySorted_merge_sort key_le)].
  intros [[c1 d1] i] [[c2 d2] j] H1 H2. simpl in H1, H2. subst.
  unfold key_le. rewrite key_leb_same, Is_true_true. simpl. lia.
Qed.

Lemma extend_data_date_ordered df old_df df1 :
  extend_data df old_df = Some df1 → date_ordered df1.
Proof.
  unfold extend_data. intros H.
  destruct (transform_all df old_df) as [dft|]; [|done].
  apply (inj Some) in H. subst df1. apply extended_date_ordered.
Qed.

(** ** C6: the cumulative columns never decrease *)

(** C6.  Let every raw code of [old_df] be finite and between 0 and the
    largest code of its indicator (2, 3 or 4, the divisor the transformer
    uses), every flag be 0 or 1 and every StringencyIndex of [df] be
    finite and between 0 and 100.  Then [extend_data] and
    [fill_missing_values] return, and in the filled table the rows of
    every country are in date order and each of Mt, Pt and St is, along
    these rows, a series of finite cells none of which is smaller than the
    cell before it. *)
Theorem cumulative_monotone df old_df :
  wf df → has_cols count_cols df → raw_in_range old_df = true →
  all_cells (in_range 0 100) df "StringencyIndex" = true →
  ∃ df1 df', extend_data df old_df = Some df1 ∧
    fill_missing_values df1 = Some df' ∧
    ∀ c, c ∈ Country_Code df' →
      let sub := loc (code_mask c df') df' in
      StronglySorted Z.le (DateTime sub) ∧
      ∀ col, col ∈ cumulative_cols →
        ∃ s, cols sub !! col = Some s ∧ nondecreasing s.
Proof.
  intros Hwf Hcount Hraw Hsi.
  destruct (extend_data_ranges df old_df Hwf Hcount Hraw Hsi)
    as (df1 & Hext & Hwf1 & Hcols1 & HS & HSI).
  destruct (fill_missing_values_loc df1 Hwf1 Hcols1)
    as (df' & Hfill & Hwf' & [Hkc Hkd] & Hloc).
  exists df1, df'. split; [done|]. split; [done|].
  intros c Hc sub. rewrite Hkc in Hc. split.
  - pose proof (extend_data_date_ordered _ _ _ Hext) as Hord.
    unfold date_ordered in Hord. rewrite Forall_forall in Hord.
    specialize (Hord c (proj2 (elem_of_unique _ _) Hc)).
    unfold sub, code_mask. cbn [loc DateTime]. rewrite Hkc, Hkd. exact Hord.
  - intros col Hcol.
    eapply (fill_sub_monotone (loc (code_mask c df1) df1));
      [by apply wf_loc|exact (Hloc c Hc)| |by apply all_cells_loc|done].
    intros col' Hcol'. by apply all_cells_loc, HS.
Qed.

Lemma cumulative_monotone_witness :
  ∃ df1 df', extend_data ex_df ex_raw = Some df1 ∧
    fill_missing_values df1 = Some df' ∧
    ∀ c, c ∈ Country_Code df' →
      let sub := loc (code_mask c df') df' in
      StronglySorted Z.le (DateTime sub) ∧
      ∀ col, col ∈ cumulative_cols →
        ∃ s, cols sub !! col = Some s ∧ nondecreasing s.
Proof.
  apply (cumulative_monotone ex_df ex_raw wf_ex_df);
    [by_decide|vm_compute; reflexivity|vm_compute; reflexivity].
Defined.

(** ** What [extend_data] reads and returns *)

Lemma for_each_invariant {A S} (I : S → Prop) (body : S → A → option S) l s s' :
  I s → (∀ s x s', I s → body s x = Some s' → I s') →
  for_each body l s = Some s' → I s'.
Proof.
  intros Hs Hstep. revert s Hs. induction l as [|x l IH]; intros s Hs H; simpl in H.
  - by apply (inj Some) in H; subst.
  - destruct (body s x) as [s1|] eqn:E; [|done]. simpl in H.
    eapply IH; [|exact H]. by eapply Hstep.
Qed.

Lemma transform_to_mobility_reads df old_df column (has_flag : bool) df' :
  transform_to_mobility df old_df column has_flag = Some df' →
  is_Some (cols old_df !! column) ∧
  (has_flag = true → is_Some (cols old_df !! flag_col column)).
Proof.
  unfold transform_to_mobility, getitem, flag_col. intros H.
  destruct (index_of (split_head column)); [|done]. cbn [mbind option_bind] in H.
  destruct (cols old_df !! column) as [si|]; [|done]. cbn [mbind option_bind] in H.
  split; [by eexists|]. intros ->.
  destruct (cols old_df !! (split_head column +:+ "_Flag")); [by eexists|done].
Qed.

Lemma transform_all_reads df old_df dft :
  transform_all df old_df = Some dft → has_cols transform_inputs old_df.
Proof.
  unfold transform_all, COL.ci_cols. cbn [for_each negb Nat.eqb]. intros H.
  repeat match type of H with
  | context [transform_to_mobility ?d ?o ?c ?f] =>
      let E := fresh "E" in
      destruct (transform_to_mobility d o c f) eqn:E;
        [apply transform_to_mobility_reads in E as [? ?];
         cbn [mbind option_bind negb Nat.eqb] in H
        |done]
  end.
  unfold has_cols, transform_inputs, COL.ci_cols. cbn [fmap list_fmap app].
  repeat apply Forall_cons_2; try apply Forall_nil_2; auto.
Qed.

(** X1.  On a frame with its two key columns, [extend_data] returns
    exactly when [old_df] holds the nine indicator columns and the flag
    columns of H1 and C1..C7; a missing one of these is the only
    [KeyError] it can raise. *)
Theorem extend_data_returns_iff df old_df :
  is_Some (extend_data df old_df) ↔ has_cols transform_inputs old_df.
Proof.
  split.
  - intros [df1 H]. unfold extend_data in H.
    destruct (transform_all df old_df) as [dft|] eqn:E; [|done].
    by eapply transform_all_reads.
  - intros H. destruct (transform_all_spec df old_df H) as (dft & E & _).
    rewrite (extend_data_extended _ _ _ E). by eexists.
Qed.

Lemma transform_to_mobility_ext df old1 old2 column (has_flag : bool) :
  cols old1 !! column = cols old2 !! column →
  (has_flag = true →
   cols old1 !! flag_col column = cols old2 !! flag_col column) →
  transform_to_mobility df old1 column has_flag
  = transform_to_mobility df old2 column has_flag.
Proof.
  intros H1 H2. unfold transform_to_mobility, getitem. rewrite H1.
  destruct has_flag; [|done]. unfold flag_col in H2. by rewrite (H2 eq_refl).
Qed.

Lemma transform_all_ext df old1 old2 :
  (∀ k, k ∈ transform_inputs → cols old1 !! k = cols old2 !! k) →
  transform_all df old1 = transform_all df old2.
Proof.
  intros H. unfold transform_all, COL.ci_cols. cbn [for_each negb Nat.eqb].
  repeat match goal with
  | |- context [transform_to_mobility ?d old1 ?c ?f] =>
      rewrite (transform_to_mobility_ext d old1 old2 c f);
        [destruct (transform_to_mobility d old2 c f);
           [cbn [mbind option_bind negb Nat.eqb]|reflexivity]
        |apply H; by_decide
        |first [discriminate | intros _; apply H; by_decide]]
  end.
  reflexivity.
Qed.

(** X2.  [extend_data] reads from [old_df] the nine indicator columns and
    the eight flag columns of H1 and C1..C7, and nothing else: two raw
    frames that agree on these give the same result.  The flag column of
    C8 is not among them. *)
Theorem extend_data_reads_only_inputs df old1 old2 :
  (∀ k, k ∈ transform_inputs → cols old1 !! k = cols old2 !! k) →
  extend_data df old1 = extend_data df old2 ∧
  flag_col COL.c8 ∉ transform_inputs.
Proof.
  intros H. split; [|by_decide].
  unfold extend_data. by rewrite (transform_all_ext df old1 old2 H).
Qed.

Lemma extend_data_reads_only_inputs_witness :
  extend_data ex_df (setitem (flag_col COL.c8) [] ex_raw)
  = extend_data ex_df ex_raw ∧
  flag_col COL.c8 ∉ transform_inputs.
Proof.
  apply extend_data_reads_only_inputs. intros k Hk.
  assert (Hne : flag_col COL.c8 ∉ transform_inputs) by by_decide.
  cbn [cols setitem]. rewrite lookup_insert_ne; [done|]. by intros <-.
Defined.

Lemma length_level idx n si si_g : length (level idx n si si_g) = n.
Proof.
  unfold level.
  repeat case_decide; by rewrite ?length_align, ?length_replicate.
Qed.

Lemma transform_to_mobility_wf df old_df column (has_flag : bool) df' :
  wf df → transform_to_mobility df old_df column has_flag = Some df' →
  wf df' ∧ same_keys df df'.
Proof.
  unfold transform_to_mobility. intros Hwf H.
  destruct (index_of (split_head column)) as [idx|]; [|done].
  cbn [mbind option_bind] in H.
  destruct (getitem old_df column) as [si|]; [|done].
  cbn [mbind option_bind] in H.
  destruct (if has_flag then _ else _) as [si_g|]; [|done].
  cbn [mbind option_bind] in H. apply (inj Some) in H. subst df'.
  split; [|done]. apply wf_setitem; [by apply wf_setscalar|].
  apply length_level.
Qed.

Lemma transform_all_wf df old_df dft :
  wf df → transform_all df old_df = Some dft → wf dft ∧ same_keys df dft.
Proof.
  intros Hwf H. unfold transform_all in H.
  destruct (for_each _ _ _) as [[d i]|] eqn:E; [|done].
  apply (inj Some) in H. simpl in H. subst d.
  apply (for_each_invariant (λ p, wf p.1 ∧ same_keys df p.1)) in E; [done| |].
  - by split.
  - intros [d j] col [d' j'] [Hw Hk] Hb. simpl in *.
    destruct (transform_to_mobility d old_df col _) as [d1|] eqn:E1; [|done].
    apply (inj Some) in Hb. injection Hb as -> _.
    destruct (transform_to_mobility_wf _ _ _ _ _ Hw E1) as [Hw' Hk'].
    split; [done|]. by eapply same_keys_trans.
Qed.

Lemma fillna_no_nan s : Forall (λ x, is_nan x = false) (fillna (Fin 0) s).
Proof.
  unfold fillna. apply Forall_fmap, Forall_forall. intros x _. simpl.
  by destruct x.
Qed.

Lemma nrows_extended dft : wf dft → nrows (extended dft) = nrows dft.
Proof.
  intros [Hd _]. destruct (extended_spec dft) as (_ & Hc & _).
  unfold nrows at 1. rewrite Hc, length_take_rows, length_sort_order.
  rewrite length_zip_with. unfold nrows in *. lia.
Qed.

Lemma extended_features dft k :
  k ∈ feature_cols →
  cols (extended dft) !! k = Some (replicate (nrows (extended dft)) (Fin 0)).
Proof.
  unfold feature_cols. rewrite !elem_of_cons, elem_of_nil.
  intros [->|[->|[->|[->|[->|[->|[]]]]]]];
    unfold extended, setscalar, setitem, nrows; cbn [cols Country_Code];
    by lookup_nest.
Qed.

(** X3.  What [extend_data] returns is a well-formed frame with the rows
    of [df]: every column has one cell per row, no cell of any column is
    NaN, and mt, Mt, pt, Pt, st and St hold 0 in every row, whatever [df]
    held in them. *)
Theorem extend_data_clean df old_df df1 :
  wf df → extend_data df old_df = Some df1 →
  wf df1 ∧ nrows df1 = nrows df ∧
  (∀ k s, cols df1 !! k = Some s → Forall (λ x, is_nan x = false) s) ∧
  (∀ k, k ∈ feature_cols → cols df1 !! k = Some (replicate (nrows df) (Fin 0))).
Proof.
  intros Hwf H. unfold extend_data in H.
  destruct (transform_all df old_df) as [dft|] eqn:E; [|done].
  change (Some (extended dft) = Some df1) in H. apply (inj Some) in H. subst df1.
  destruct (transform_all_wf _ _ _ Hwf E) as [Hwft [Hkc Hkd]].
  destruct (extended_spec dft) as (Hwf1 & Hc & Hd & Hcols).
  assert (Hn : nrows (extended dft) = nrows df).
  { rewrite nrows_extended by done. unfold nrows. by rewrite Hkc. }
  split; [done|]. split; [done|]. split.
  - intros k s Hs. destruct (decide (k ∈ feature_cols)) as [Hk|Hk].
    + rewrite (extended_features _ _ Hk) in Hs. apply (inj Some) in Hs. subst s.
      by apply Forall_replicate.
    + rewrite (Hcols k Hk) in Hs.
      destruct (cols dft !! k) as [s0|] eqn:Es0; [|done].
      apply (inj Some) in Hs. subst s.
      apply Forall_take_rows; [apply fillna_no_nan|].
      apply Forall_forall. intros i Hi. apply sort_order_lt in Hi.
      unfold fillna. rewrite length_fmap, (wf_lookup _ _ _ Hwft Es0).
      pose proof (length_zip_le (Country_Code dft) (DateTime dft)).
      unfold nrows. lia.
  - intros k Hk. rewrite (extended_features _ _ Hk). by rewrite Hn.
Qed.

Lemma wf_ex_extended : wf ex_extended.
Proof. split; [reflexivity|]. by_decide. Defined.

Lemma extend_data_ex : extend_data ex_df ex_raw = Some ex_extended.
Proof. vm_compute. reflexivity. Defined.

Lemma extend_data_clean_witness :
  wf ex_extended ∧ nrows ex_extended = nrows ex_df ∧
  (∀ k s, cols ex_extended !! k = Some s → Forall (λ x, is_nan x = false) s) ∧
  (∀ k, k ∈ feature_cols →
     cols ex_extended !! k = Some (replicate (nrows ex_df) (Fin 0))).
Proof. exact (extend_data_clean ex_df ex_raw ex_extended wf_ex_df extend_data_ex). Defined.

Lemma key_le_rows_le (a b : string * Z * nat) : key_le a b → rows_le a.1 b.1.
Proof.
  destruct a as [[c1 d1] i], b as [[c2 d2] j]. unfold key_le, rows_le. simpl.
  destruct (decide (c1 = c2)) as [->|Hne].
  - rewrite key_leb_same, Is_true_true. right. split; [done|lia].
  - rewrite key_leb_other, Is_true_true by done. by left.
Qed.

Lemma StronglySorted_fmap_2 {A B} (R : relation A) (S : relation B) (g : A → B) l :
  (∀ x y, R x y → S (g x) (g y)) →
  StronglySorted R l → StronglySorted S (g <$> l).
Proof.
  intros HRS Hs. induction Hs as [|x l Hs IH Hall]; [constructor|].
  simpl. constructor; [done|]. apply Forall_fmap.
  eapply Forall_impl; [exact Hall|]. intros y Hy. by apply HRS.
Qed.

Lemma zip_fmap_fst_snd {A B C} (f : C → A) (g : C → B) (l : list C) :
  zip (f <$> l) (g <$> l) = (λ e, (f e, g e)) <$> l.
Proof.
  induction l as [|x l IH]; [done|]. rewrite !fmap_cons. cbn [zip_with].
  by f_equal.
Qed.

(** X4.  [extend_data] returns the rows of [df] in another order and
    loses none: there is a permutation of the row positions by which the
    two key columns and every column other than S1..S9 and the six
    features are rearranged (a NaN cell having become 0), and in the new
    order the rows are sorted by country code and, within a code, by
    date. *)
Theorem extend_data_sorts_rows df old_df df1 :
  wf df → extend_data df old_df = Some df1 →
  ∃ perm,
    perm ≡ₚ seq 0 (nrows df) ∧
    Country_Code df1 = take_rows EmptyString perm (Country_Code df) ∧
    DateTime df1 = take_rows 0%Z perm (DateTime df) ∧
    (∀ k, k ∉ COL.si_cols → k ∉ feature_cols →
       cols df1 !! k
       = (λ s, take_rows NaN perm (fillna (Fin 0) s)) <$> cols df !! k) ∧
    StronglySorted rows_le (zip (Country_Code df1) (DateTime df1)).
Proof.
  intros Hwf H. unfold extend_data in H.
  destruct (transform_all df old_df) as [dft|] eqn:E; [|done].
  change (Some (extended dft) = Some df1) in H. apply (inj Some) in H. subst df1.
  destruct (transform_all_wf _ _ _ Hwf E) as [Hwft [Hkc Hkd]].
  destruct (transform_all_spec df old_df (transform_all_reads _ _ _ E))
    as (dft' & E' & _ & _ & _ & Hother).
  rewrite E in E'. apply (inj Some) in E'. subst dft'.
  destruct (extended_spec dft) as (_ & Hc & Hd & Hcols).
  rewrite Hkc, Hkd in Hc, Hd, Hcols.
  exists (sort_order (Country_Code df) (DateTime df)).
  split; [|split; [done|split; [done|split]]].
  - rewrite sort_order_perm, length_zip_with. destruct Hwf as [Hlen _].
    unfold nrows in *. by rewrite Hlen, Nat.min_id.
  - intros k Hsi Hf. by rewrite (Hcols k Hf), (Hother k Hsi).
  - rewrite Hc, Hd.
    destruct (take_rows_sorted (Country_Code df) (DateTime df)) as [-> ->].
    rewrite zip_fmap_fst_snd.
    eapply (StronglySorted_fmap_2 key_le); [|apply (StronglySorted_merge_sort key_le)].
    intros a b. apply key_le_rows_le.
Qed.

Lemma extend_data_sorts_rows_witness :
  ∃ perm,
    perm ≡ₚ seq 0 (nrows ex_df) ∧
    Country_Code ex_extended = take_rows EmptyString perm (Country_Code ex_df) ∧
    DateTime ex_extended = take_rows 0%Z perm (DateTime ex_df) ∧
    (∀ k, k ∉ COL.si_cols → k ∉ feature_cols →
       cols ex_extended !! k
       = (λ s, take_rows NaN perm (fillna (Fin 0) s)) <$> cols ex_df !! k) ∧
    StronglySorted rows_le (zip (Country_Code ex_extended) (DateTime ex_extended)).
Proof. exact (extend_data_sorts_rows ex_df ex_raw ex_extended wf_ex_df extend_data_ex). Defined.

(** ** The transformer outside the pipeline *)

Lemma default_flag_cells d n (raw : Series) :
  Qeq_bool d 0 = false →
  let s := align n (zip_with (blend d) raw
                      ((λ x, num_add (num_mul x (Fin 0)) (Fin 1)) <$> raw)) in
  length s = n ∧
  (∀ (row : nat) r, row < n → raw !! row = Some (Fin r) →
     ∃ q, s !! row = Some (Fin q) ∧ (q == r / d * (1 - 0.28375) + 0.28375)%Q) ∧
  (∀ (row : nat) x, row < n → raw !! row = Some x → is_fin x = false →
     s !! row = Some NaN).
Proof.
  intros Hd s. split; [apply length_align|]. split.
  - intros row r Hrow Hr.
    destruct (blend_finite d r (r * 0 + 1) Hd) as (q & Hq & Heq).
    exists q. split.
    + apply align_lookup; [|done]. rewrite lookup_zip_with, Hr. simpl.
      rewrite list_lookup_fmap, Hr. simpl. by rewrite <- Hq.
    + rewrite Heq. ring.
  - intros row x Hrow Hx Hfin.
    apply align_lookup; [|done]. rewrite lookup_zip_with, Hx. simpl.
    rewrite list_lookup_fmap, Hx. simpl. f_equal.
    destruct x as [q| | |]; [done|..]; unfold blend; simpl.
    + by destruct (Qle_bool 0 d).
    + by destruct (Qle_bool 0 d).
    + done.
Qed.

(** X5.  Called without a flag on an indicator of C1..C7 or H1,
    [transform_to_mobility] reads no flag column and computes as if the
    flag were 1: a finite raw value r gives r/d * (1 - 0.28375) + 0.28375
    with the divisor d of the indicator, and a raw value that is NaN or
    infinite gives NaN. *)
Theorem transform_default_flag df old_df i col d raw :
  (i, col, d) ∈ flagged → getitem old_df col = Some raw →
  ∃ df' s,
    transform_to_mobility df old_df col false = Some df' ∧
    getitem df' ("S" +:+ pretty i) = Some s ∧ length s = nrows df ∧
    (∀ (row : nat) r, row < nrows df → raw !! row = Some (Fin r) →
       ∃ q, s !! row = Some (Fin q) ∧
            (q == r / d * (1 - 0.28375) + 0.28375)%Q) ∧
    (∀ (row : nat) x, row < nrows df → raw !! row = Some x →
       is_fin x = false → s !! row = Some NaN).
Proof.
  intros Hin Hraw. unfold flagged in Hin.
  rewrite !elem_of_cons, elem_of_nil in Hin.
  destruct Hin as [Hin|[Hin|[Hin|[Hin|[Hin|[Hin|[Hin|[Hin|[]]]]]]]]];
    injection Hin as -> -> ->;
    (eexists; eexists; split;
     [eapply transform_step; [reflexivity|reflexivity|exact Hraw|reflexivity]|];
     split; [unfold getitem, setitem; cbn [cols]; apply lookup_insert_eq|];
     apply default_flag_cells; reflexivity).
Qed.

Lemma transform_default_flag_witness :
  ∃ df' s,
    transform_to_mobility ex_df ex_raw COL.c1 false = Some df' ∧
    getitem df' ("S" +:+ pretty 1%N) = Some s ∧ length s = nrows ex_df ∧
    (∀ (row : nat) r, row < nrows ex_df →
       (ex_num <$> [0; 1; 2; 2; 0; 1; 2]%Z) !! row = Some (Fin r) →
       ∃ q, s !! row = Some (Fin q) ∧
            (q == r / 3 * (1 - 0.28375) + 0.28375)%Q) ∧
    (∀ (row : nat) x, row < nrows ex_df →
       (ex_num <$> [0; 1; 2; 2; 0; 1; 2]%Z) !! row = Some x →
       is_fin x = false → s !! row = Some NaN).
Proof.
  apply (transform_default_flag ex_df ex_raw 1%N COL.c1 3%Q
           (ex_num <$> [0; 1; 2; 2; 0; 1; 2]%Z));
    [unfold flagged; rewrite !elem_of_cons; auto|].
  vm_compute. reflexivity.
Defined.

(** X6.  A column whose name carries a number other than 1..9 after its
    first character is not refused: once the column (and, when asked
    for, its flag) is found in [old_df], [transform_to_mobility] writes 0
    in every row of the column S<number> and leaves the other columns of
    [df] as they are. *)
Theorem transform_unknown_index df old_df column (has_flag : bool) idx :
  index_of (split_head column) = Some idx →
  (idx = 0 ∨ 9 < idx)%N →
  is_Some (getitem old_df column) →
  (has_flag = true → is_Some (getitem old_df (flag_col column))) →
  transform_to_mobility df old_df column has_flag
  = Some (setscalar ("S" +:+ pretty idx) (Fin 0) df).
Proof.
  intros Hidx Hout [si Hsi] Hflag.
  assert (Hg : ∃ si_g,
    (if has_flag then getitem old_df (flag_col column)
     else Some ((λ x, num_add (num_mul x (Fin 0)) (Fin 1)) <$> si)) = Some si_g).
  { destruct has_flag; [|by eexists]. by destruct (Hflag eq_refl) as [f ->]; eexists. }
  destruct Hg as [si_g Hg].
  rewrite (transform_step _ _ _ _ idx _ si si_g Hidx eq_refl Hsi Hg).
  f_equal. unfold setscalar. f_equal. unfold level.
  repeat case_decide; try done;
    match goal with H : idx ∈ _ |- _ =>
      rewrite !elem_of_cons, elem_of_nil in H; lia end.
Qed.

Lemma transform_unknown_index_witness :
  transform_to_mobility ex_df ex_raw_wide "C12_Test" false
  = Some (setscalar ("S" +:+ pretty 12%N) (Fin 0) ex_df).
Proof.
  apply transform_unknown_index; [reflexivity|right; reflexivity| |discriminate].
  vm_compute. by eexists.
Defined.

(** ** The filler as a whole *)

(** X7.  A frame without rows is returned as it is, whatever columns it
    lacks, since the loop over the countries never runs; a frame with at
    least one row is filled exactly when it holds S1..S9, ConfirmedCases,
    ConfirmedDeaths, Recovered and StringencyIndex, a missing one being a
    [KeyError]. *)
Theorem fill_returns_iff df :
  wf df →
  (Country_Code df = [] → fill_missing_values df = Some df) ∧
  (Country_Code df ≠ [] →
   (is_Some (fill_missing_values df) ↔ has_cols ffill_cols df)).
Proof.
  intros Hwf. split.
  - intros Hnil. unfold fill_missing_values. by rewrite Hnil.
  - intros Hne. split.
    + intros [df' H]. by eapply fill_success_has_cols.
    + intros Hcols.
      destruct (fill_missing_values_loc df Hwf Hcols) as (df' & H & _).
      by eexists.
Qed.

Lemma fill_returns_iff_witness :
  (Country_Code ex_df = [] → fill_missing_values ex_df = Some ex_df) ∧
  (Country_Code ex_df ≠ [] →
   (is_Some (fill_missing_values ex_df) ↔ has_cols ffill_cols ex_df)).
Proof. exact (fill_returns_iff ex_df wf_ex_df). Defined.

Lemma column_ext_by_code df1 df2 k :
  wf df1 → wf df2 → same_keys df1 df2 → Country_Code df1 ≠ [] →
  (∀ c, c ∈ Country_Code df1 →
     cols (loc (code_mask c df2) df2) !! k
     = cols (loc (code_mask c df1) df1) !! k) →
  cols df2 !! k = cols df1 !! k.
Proof.
  intros Hwf1 Hwf2 Hk Hne H.
  assert (∃ c0, c0 ∈ Country_Code df1) as [c0 Hc0].
  { destruct (Country_Code df1) as [|c0 ks]; [done|]. exists c0. left. }
  assert (Hcol : ∀ c, c ∈ Country_Code df1 →
    select (code_mask c df1) <$> cols df2 !! k
    = select (code_mask c df1) <$> cols df1 !! k).
  { intros c Hin. specialize (H c Hin). cbn [cols loc] in H.
    rewrite !lookup_fmap in H. by rewrite (code_mask_keys c _ _ Hk) in H. }
  destruct (cols df2 !! k) as [s2|] eqn:E2, (cols df1 !! k) as [s1|] eqn:E1;
    try (specialize (Hcol c0 Hc0); done).
  f_equal. apply (select_by_code_ext (Country_Code df1)).
  - rewrite (wf_lookup _ _ _ Hwf2 E2). unfold nrows. by destruct Hk as [-> _].
  - exact (wf_lookup _ _ _ Hwf1 E1).
  - intros c Hin. specialize (Hcol c Hin). by simplify_eq/=.
Qed.

(** X8.  [fill_missing_values] keeps the rows and their keys, and writes
    to nineteen columns only: every column other than the thirteen it
    forward fills and pt, Pt, mt, Mt, st, St is returned as it was. *)
Theorem fill_keeps_rest df df' :
  wf df → fill_missing_values df = Some df' →
  wf df' ∧ same_keys df df' ∧
  ∀ k, k ∉ ffill_cols → k ∉ feature_cols → cols df' !! k = cols df !! k.
Proof.
  intros Hwf H.
  destruct (decide (Country_Code df = [])) as [Hnil|Hne].
  { unfold fill_missing_values in H. rewrite Hnil in H.
    apply (inj Some) in H. by subst df'. }
  pose proof (fill_success_has_cols _ _ Hwf Hne H) as Hcols.
  destruct (fill_missing_values_loc df Hwf Hcols)
    as (df0 & Hrun & Hwf' & Hk & Hloc).
  rewrite H in Hrun. apply (inj Some) in Hrun. subst df0.
  split; [done|]. split; [done|]. intros k Hk1 Hk2.
  apply column_ext_by_code; [done..|].
  intros c Hc. by apply (fill_sub_other _ _ _ (Hloc c Hc)).
Qed.

Lemma fill_keeps_rest_witness :
  wf ex_filled ∧ same_keys ex_df ex_filled ∧
  ∀ k, k ∉ ffill_cols → k ∉ feature_cols →
    cols ex_filled !! k = cols ex_df !! k.
Proof.
  apply (fill_keeps_rest ex_df ex_filled wf_ex_df). vm_compute. reflexivity.
Defined.

Lemma Forall_by_code (P : num → Prop) df (s : Series) :
  length s = nrows df →
  (∀ c, c ∈ Country_Code df → Forall P (select (code_mask c df) s)) →
  Forall P s.
Proof.
  intros Hlen H. apply Forall_lookup. intros i x Hx.
  destruct (lookup_lt_is_Some_2 (Country_Code df) i) as [c Hc].
  { apply lookup_lt_Some in Hx. unfold nrows in Hlen. lia. }
  assert (Hin : c ∈ Country_Code df) by (by eapply list_elem_of_lookup_2).
  apply (proj1 (Forall_forall _ _) (H c Hin)).
  eapply select_true_elem; [|exact Hx].
  unfold code_mask. rewrite list_lookup_fmap, Hc. simpl.
  by rewrite bool_decide_eq_true_2.
Qed.

Lemma all_cells_by_code p df col :
  wf df → is_Some (cols df !! col) →
  (∀ c, c ∈ Country_Code df →
     all_cells p (loc (code_mask c df) df) col = true) →
  all_cells p df col = true.
Proof.
  intros Hwf [s Hs] H. apply all_cells_spec. exists s. split; [done|].
  apply (Forall_by_code _ df); [by eapply wf_lookup|].
  intros c Hc. destruct (proj1 (all_cells_spec _ _ _) (H c Hc))
    as (s' & Hs' & Hall).
  cbn [cols loc] in Hs'. rewrite lookup_fmap, Hs in Hs'.
  apply (inj Some) in Hs'. by subst s'.
Qed.

Lemma fill_sub_unit sub r :
  wf sub → run_sub fill_prog sub = Some r →
  (∀ col, col ∈ COL.si_cols → all_cells (in_range 0 1) sub col = true) →
  all_cells (in_range 0 100) sub "StringencyIndex" = true →
  ∀ col, col ∈ unit_cols → all_cells (in_range 0 1) r col = true.
Proof.
  intros Hwf Hr Hs Hsi.
  pose proof (wf_run_sub _ _ _ Hwf prog_ok_fill Hr) as Hwfr.
  destruct (fill_sub_feature_cols _ _ Hr)
    as (ss & si & Hss & Hsir & Hpt & HPt & Hmt & HMt & Hst & HSt).
  assert (Hfilled : ∀ col, col ∈ COL.si_cols →
            all_cells (in_range 0 1) r col = true).
  { intros col Hcol. apply all_cells_spec.
    destruct (proj1 (all_cells_spec _ _ _) (Hs col Hcol)) as (s0 & Hs0 & Hall).
    exists (replace_ffill s0). split.
    - by rewrite (fill_sub_ffilled _ _ _ Hr (ffill_cols_si _ Hcol)), Hs0.
    - by apply Forall_pad. }
  assert (Hssu : Forall (Forall (λ x, in_range 0 1 x = true)) ss).
  { apply mapM_Some in Hss. apply Forall_forall. intros s Hin.
    apply list_elem_of_lookup in Hin as [j Hj].
    destruct (Forall2_lookup_r _ _ _ _ _ Hss Hj) as (c' & Hc' & Hget).
    assert (Hc'in : c' ∈ COL.si_cols) by (by eapply list_elem_of_lookup_2).
    destruct (proj1 (all_cells_spec _ _ _) (Hfilled c' Hc'in))
      as (s0 & Hs0 & Hall).
    unfold getitem in Hget. rewrite Hs0 in Hget.
    apply (inj Some) in Hget. by subst s0. }
  assert (Hlen : Forall (λ s : Series, length s = nrows r) ss)
    by (by eapply mapM_getitem_length).
  assert (H9 : length ss = 9%nat).
  { apply mapM_Some, Forall2_length in Hss. by rewrite <- Hss. }
  assert (Hptu := pt_of_unit _ _ H9 Hlen Hssu).
  assert (Hsiu : Forall (λ x, in_range 0 100 x = true) si).
  { unfold getitem in Hsir.
    rewrite (fill_sub_ffilled _ _ _ Hr) in Hsir by by_decide.
    destruct (proj1 (all_cells_spec _ _ _) Hsi) as (s0 & Hs0 & Hall).
    rewrite Hs0 in Hsir. apply (inj Some) in Hsir. subst si.
    by apply Forall_pad. }
  intros col Hcol. unfold unit_cols in Hcol. apply elem_of_app in Hcol.
  destruct Hcol as [Hcol|Hcol]; [by apply Hfilled|].
  rewrite !elem_of_cons, elem_of_nil in Hcol.
  destruct Hcol as [->|[->|[->|[]]]]; apply all_cells_spec; eexists;
    (split; [eassumption|]).
  - done.
  - by apply mt_of_unit.
  - by apply st_of_unit.
Qed.

Lemma extend_data_features df old_df df1 k :
  extend_data df old_df = Some df1 → k ∈ feature_cols →
  is_Some (cols df1 !! k).
Proof.
  unfold extend_data. intros H Hk.
  destruct (transform_all df old_df) as [dft|]; [|done].
  change (Some (extended dft) = Some df1) in H. apply (inj Some) in H. subst df1.
  rewrite (extended_features _ _ Hk). by eexists.
Qed.

(** X9.  With every raw code finite and between 0 and the divisor of its
    indicator, every flag 0 or 1 and every StringencyIndex between 0 and
    100, the table that [extend_data] and [fill_missing_values] give holds
    in every row a value between 0 and 1 in each of S1..S9, pt, mt and
    st. *)
Theorem unit_ranges df old_df :
  wf df → has_cols count_cols df → raw_in_range old_df = true →
  all_cells (in_range 0 100) df "StringencyIndex" = true →
  ∃ df1 df', extend_data df old_df = Some df1 ∧
    fill_missing_values df1 = Some df' ∧
    ∀ col, col ∈ unit_cols → all_cells (in_range 0 1) df' col = true.
Proof.
  intros Hwf Hcount Hraw Hsi.
  destruct (extend_data_ranges df old_df Hwf Hcount Hraw Hsi)
    as (df1 & Hext & Hwf1 & Hcols1 & HS & HSI).
  destruct (fill_missing_values_loc df1 Hwf1 Hcols1)
    as (df' & Hfill & Hwf' & [Hkc Hkd] & Hloc).
  exists df1, df'. split; [done|]. split; [done|]. intros col Hcol.
  apply all_cells_by_code; [done| |].
  - apply (fill_missing_values_present _ _ _ Hfill).
    unfold unit_cols in Hcol. apply elem_of_app in Hcol as [Hcol|Hcol].
    + eapply all_cells_present. by apply HS.
    + apply (extend_data_features _ _ _ _ Hext). revert Hcol.
      unfold feature_cols. rewrite !elem_of_cons, !elem_of_nil. tauto.
  - intros c Hc. rewrite Hkc in Hc.
    eapply (fill_sub_unit (loc (code_mask c df1) df1));
      [by apply wf_loc|exact (Hloc c Hc)| |by apply all_cells_loc|done].
    intros col' Hcol'. by apply all_cells_loc, HS.
Qed.

Lemma unit_ranges_witness :
  ∃ df1 df', extend_data ex_df ex_raw = Some df1 ∧
    fill_missing_values df1 = Some df' ∧
    ∀ col, col ∈ unit_cols → all_cells (in_range 0 1) df' col = true.
Proof.
  apply (unit_ranges ex_df ex_raw wf_ex_df);
    [by_decide|vm_compute; reflexivity|vm_compute; reflexivity].
Defined.

Lemma pt_of_fin n ss :
  Forall (λ s : Series, length s = n) ss →
  Forall (Forall (λ x, is_fin x = true)) ss →
  ∃ ps, pt_of n ss = Fin <$> ps.
Proof.
  intros Hlen Hfin. apply fin_list, Forall_lookup. intros i x Hx.
  assert (Hi : i < n).
  { apply lookup_lt_Some in Hx. unfold pt_of in Hx.
    by rewrite length_fmap, length_sum_axis1 in Hx. }
  destruct (rows_exist ss n i Hlen Hi) as (xs & Hxs & _ & HP).
  destruct (fin_list xs (HP _ Hfin)) as [qs ->].
  unfold pt_of in Hx.
  rewrite list_lookup_fmap, (sum_axis1_lookup _ _ _ _ Hi Hxs), foldl_add_fin in Hx.
  simpl in Hx. by injection Hx as <-.
Qed.

Lemma mt_of_fin ps : mt_of (Fin <$> ps) = Fin <$> ((λ p, 1 + - p)%Q <$> ps).
Proof. unfold mt_of. rewrite <- !list_fmap_compose. by apply list_fmap_ext. Qed.

Lemma Qsum_complement l :
  (Qsum ((λ p, 1 + - p) <$> l) == inject_Z (Z.of_nat (length l)) - Qsum l)%Q.
Proof.
  induction l as [|p l IH]; [done|].
  rewrite fmap_cons. cbn [Qsum foldr length]. fold (Qsum l).
  fold (Qsum ((λ p, 1 + - p)%Q <$> l)). rewrite IH.
  rewrite Nat2Z.inj_succ. unfold Z.succ. rewrite inject_Z_plus.
  change (inject_Z 1) with 1%Q. ring.
Qed.

Lemma fill_sub_complement sub r :
  wf sub → run_sub fill_prog sub = Some r →
  (∀ col, col ∈ COL.si_cols → all_cells is_fin sub col = true) →
  ∃ Pt Mt, cols r !! "Pt" = Some Pt ∧ cols r !! "Mt" = Some Mt ∧
    length Pt = nrows r ∧ length Mt = nrows r ∧
    ∀ (k : nat) P M, Pt !! k = Some P → Mt !! k = Some M →
      ∃ a b, P = Fin a ∧ M = Fin b ∧ (a + b == inject_Z (Z.of_nat (S k)))%Q.
Proof.
  intros Hwf Hr Hs.
  pose proof (wf_run_sub _ _ _ Hwf prog_ok_fill Hr) as Hwfr.
  destruct (fill_sub_feature_cols _ _ Hr)
    as (ss & si & Hss & Hsir & Hpt & HPt & Hmt & HMt & Hst & HSt).
  assert (Hssf : Forall (Forall (λ x, is_fin x = true)) ss).
  { apply mapM_Some in Hss. apply Forall_forall. intros s Hin.
    apply list_elem_of_lookup in Hin as [j Hj].
    destruct (Forall2_lookup_r _ _ _ _ _ Hss Hj) as (c' & Hc' & Hget).
    assert (Hc'in : c' ∈ COL.si_cols) by (by eapply list_elem_of_lookup_2).
    unfold getitem in Hget.
    rewrite (fill_sub_ffilled _ _ _ Hr (ffill_cols_si _ Hc'in)) in Hget.
    destruct (proj1 (all_cells_spec _ _ _) (Hs c' Hc'in)) as (s0 & Hs0 & Hall).
    rewrite Hs0 in Hget. apply (inj Some) in Hget. subst s.
    by apply Forall_pad. }
  assert (Hlen : Forall (λ s : Series, length s = nrows r) ss)
    by (by eapply mapM_getitem_length).
  destruct (pt_of_fin _ _ Hlen Hssf) as [ps Hps].
  rewrite Hps in HPt, HMt. rewrite mt_of_fin in HMt. rewrite !cumsum_fin in *.
  eexists _, _. split; [exact HPt|]. split; [exact HMt|].
  split; [exact (wf_lookup _ _ _ Hwfr HPt)|].
  split; [exact (wf_lookup _ _ _ Hwfr HMt)|].
  intros k P M HP HM. rewrite list_lookup_fmap in HP, HM.
  destruct (Qcumsum ps !! k) as [a|] eqn:Ea; [|done].
  destruct (Qcumsum _ !! k) as [b|] eqn:Eb in HM; [|done].
  simpl in HP, HM. apply (inj Some) in HP, HM. subst P M.
  exists a, b. split; [done|]. split; [done|].
  assert (Hk : k < length ps).
  { apply lookup_lt_Some in Ea. by rewrite length_Qcumsum in Ea. }
  rewrite (Qcumsum_lookup _ _ _ Ea), (Qcumsum_lookup _ _ _ Eb).
  rewrite <- fmap_take, Qsum_complement, length_take.
  rewrite Nat.min_l by lia. ring.
Qed.

(** X10.  When every cell of S1..S9 is finite, the two cumulative columns
    of a country add up to the number of its rows so far: in row k of the
    country, counted from 0, Pt + Mt is k + 1 (in exact arithmetic), since
    each row adds pt to the one and 1 - pt to the other. *)
Theorem cumulative_complement df :
  wf df → has_cols ffill_cols df →
  (∀ col, col ∈ COL.si_cols → all_cells is_fin df col = true) →
  ∃ df', fill_missing_values df = Some df' ∧
    ∀ c, c ∈ Country_Code df →
      let sub := loc (code_mask c df') df' in
      ∃ Pt Mt, cols sub !! "Pt" = Some Pt ∧ cols sub !! "Mt" = Some Mt ∧
        length Pt = nrows sub ∧ length Mt = nrows sub ∧
        ∀ (k : nat) P M, Pt !! k = Some P → Mt !! k = Some M →
          ∃ a b, P = Fin a ∧ M = Fin b ∧
                 (a + b == inject_Z (Z.of_nat (S k)))%Q.
Proof.
  intros Hwf Hcols Hfin.
  destruct (fill_missing_values_loc df Hwf Hcols)
    as (df' & Hfill & Hwf' & Hk & Hloc).
  exists df'. split; [done|]. intros c Hc sub.
  apply (fill_sub_complement (loc (code_mask c df) df));
    [by apply wf_loc|exact (Hloc c Hc)|].
  intros col Hcol. by apply all_cells_loc, Hfin.
Qed.

Lemma cumulative_complement_witness :
  ∃ df', fill_missing_values ex_df = Some df' ∧
    ∀ c, c ∈ Country_Code ex_df →
      let sub := loc (code_mask c df') df' in
      ∃ Pt Mt, cols sub !! "Pt" = Some Pt ∧ cols sub !! "Mt" = Some Mt ∧
        length Pt = nrows sub ∧ length Mt = nrows sub ∧
        ∀ (k : nat) P M, Pt !! k = Some P → Mt !! k = Some M →
          ∃ a b, P = Fin a ∧ M = Fin b ∧
                 (a + b == inject_Z (Z.of_nat (S k)))%Q.
Proof.
  apply (cumulative_complement ex_df wf_ex_df has_cols_ex_df).
  intros col Hcol. unfold COL.si_cols in Hcol.
  rewrite !elem_of_cons, elem_of_nil in Hcol.
  destruct Hcol as [->|[->|[->|[->|[->|[->|[->|[->|[->|[]]]]]]]]]];
    vm_compute; reflexivity.
Defined.

(** X11.  In a filled table a series has no gap left: within a country,
    in each of the thirteen forward-filled columns, once a cell is not
    zero no later cell of the country is zero. *)
Theorem fill_leaves_no_gap df :
  wf df → has_cols ffill_cols df →
  ∃ df', fill_missing_values df = Some df' ∧
    ∀ c col, c ∈ Country_Code df → col ∈ ffill_cols →
      ∃ s, getitem (loc (code_mask c df') df') col = Some s ∧
        ∀ (p i : nat) x y, p ≤ i →
          s !! p = Some x → num_is0 x = false →
          s !! i = Some y → num_is0 y = false.
Proof.
  intros Hwf Hcols.
  destruct (fill_missing_values_loc df Hwf Hcols)
    as (df' & Hfill & Hwf' & Hk & Hloc).
  exists df'. split; [done|]. intros c col Hc Hcol.
  pose proof (fill_sub_ffilled _ _ _ (Hloc c Hc) Hcol) as Hs.
  destruct (has_cols_lookup _ _ _ (has_cols_loc _ (code_mask c df) _ Hcols) Hcol)
    as [s0 Hs0].
  rewrite Hs0 in Hs. exists (replace_ffill s0). split; [exact Hs|].
  intros p i x y. apply replace_ffill_no_gap.
Qed.

Lemma fill_leaves_no_gap_witness :
  ∃ df', fill_missing_values ex_df = Some df' ∧
    ∀ c col, c ∈ Country_Code ex_df → col ∈ ffill_cols →
      ∃ s, getitem (loc (code_mask c df') df') col = Some s ∧
        ∀ (p i : nat) x y, p ≤ i →
          s !! p = Some x → num_is0 x = false →
          s !! i = Some y → num_is0 y = false.
Proof. exact (fill_leaves_no_gap ex_df wf_ex_df has_cols_ex_df). Defined.

(** ** [create_features] as a whole *)

Lemma set_binop_inv t op a b df df' :
  set_binop t op a b df = Some df' →
  ∃ x y, cols df !! a = Some x ∧ cols df !! b = Some y ∧
         df' = setitem t (zip_with op x y) df.
Proof.
  unfold set_binop, getitem. intros H.
  destruct (cols df !! a) as [x|]; [|done]. cbn [mbind option_bind] in H.
  destruct (cols df !! b) as [y|]; [|done]. cbn [mbind option_bind] in H.
  apply (inj Some) in H. subst df'. by exists x, y.
Qed.

Lemma features_prelude_cols df df1 :
  features_prelude df = Some df1 →
  has_cols features_inputs df ∧
  (∀ k, k ∉ created_cols → cols df1 !! k = cols df !! k) ∧
  (∀ k, k ∈ created_cols → is_Some (cols df1 !! k)) ∧
  ∃ cc cd rc,
    cols df !! "ConfirmedCases" = Some cc ∧
    cols df !! "ConfirmedDeaths" = Some cd ∧
    cols df !! "Recovered" = Some rc ∧
    cols df1 !! "Active" = Some (active_of cc cd rc).
Proof.
  unfold features_prelude, getitem. intros H.
  destruct (cols df !! "ConfirmedCases") as [cc|] eqn:Ecc; [|done].
  cbn [mbind option_bind] in H.
  destruct (cols df !! "ConfirmedDeaths") as [cd|] eqn:Ecd; [|done].
  cbn [mbind option_bind] in H.
  destruct (cols df !! "Recovered") as [rc|] eqn:Erc; [|done].
  cbn [mbind option_bind] in H.
  destruct (set_binop "RelativeConfirmedCases" _ _ _ _) as [d1|] eqn:E1; [|done].
  cbn [mbind option_bind] in H.
  destruct (set_binop "RelativeConfirmedDeaths" _ _ _ _) as [d2|] eqn:E2; [|done].
  cbn [mbind option_bind] in H.
  destruct (set_binop "RelativeRecovered" _ _ _ _) as [d3|] eqn:E3; [|done].
  cbn [mbind option_bind] in H.
  destruct (set_binop "RelativeActive" _ _ _ _) as [d4|] eqn:E4; [|done].
  cbn [mbind option_bind] in H. apply (inj Some) in H. subst df1.
  apply set_binop_inv in E1 as (x1 & pop & _ & Hpop & ->).
  apply set_binop_inv in E2 as (x2 & y2 & _ & _ & ->).
  apply set_binop_inv in E3 as (x3 & y3 & _ & _ & ->).
  apply set_binop_inv in E4 as (x4 & y4 & _ & _ & ->).
  cbn [cols setitem] in Hpop. rewrite lookup_insert_ne in Hpop by done.
  unfold setscalar, setitem, nrows; cbn [cols Country_Code].
  split; [|split; [|split]].
  - unfold has_cols, features_inputs.
    repeat apply Forall_cons_2; try apply Forall_nil_2; by eexists.
  - intros k Hk. unfold created_cols in Hk. rewrite !not_elem_of_cons in Hk.
    destruct Hk as (?&?&?&?&?&?&?&?&?&?&_).
    by rewrite !lookup_insert_ne by done.
  - intros k Hk. unfold created_cols in Hk.
    rewrite !elem_of_cons, elem_of_nil in Hk.
    destruct Hk as [->|[->|[->|[->|[->|[->|[->|[->|[->|[->|[]]]]]]]]]]];
      lookup_nest; by eexists.
  - exists cc, cd, rc. split; [done|]. split; [done|]. split; [done|].
    by lookup_nest.
Qed.

Lemma loc_update_other_cols c t rhs df df' k :
  loc_update c t rhs df = Some df' → k ≠ t → cols df' !! k = cols df !! k.
Proof.
  unfold loc_update. intros H Hk.
  destruct (rhs _) as [vals|]; [|done]. cbn [mbind option_bind] in H.
  apply (inj Some) in H. subst df'. unfold loc_set, setitem; cbn [cols].
  by rewrite lookup_insert_ne.
Qed.

Lemma run_loc_other_cols c prog df df' k :
  run_loc c prog df = Some df' → k ∉ targets prog →
  cols df' !! k = cols df !! k.
Proof.
  unfold run_loc, targets. revert df.
  induction prog as [|[t rhs] prog IH]; intros df H Hk; simpl in *.
  - apply (inj Some) in H. by subst.
  - destruct (loc_update c t rhs df) as [d1|] eqn:E; [|done]. simpl in H.
    rewrite not_elem_of_cons in Hk. destruct Hk as [Hk1 Hk2].
    rewrite (IH _ H Hk2). by eapply loc_update_other_cols.
Qed.

Lemma features_loop_cols cs df1 df2 k :
  wf df1 → for_each features_country cs df1 = Some df2 →
  k ∉ targets features_prog →
  wf df2 ∧ same_keys df1 df2 ∧ cols df2 !! k = cols df1 !! k.
Proof.
  intros Hwf H Hk.
  apply (for_each_invariant
           (λ d, wf d ∧ same_keys df1 d ∧ cols d !! k = cols df1 !! k)) in H;
    [done|split; [done|split; [by split|done]]|].
  intros d c d' (Hw & Hkeys & Hcol) Hb.
  rewrite features_country_prog in Hb by done.
  destruct (run_loc_keys _ _ _ _ Hw Hb) as [Hw' Hk'].
  split; [done|]. split; [by eapply same_keys_trans|].
  by rewrite (run_loc_other_cols _ _ _ _ _ Hb Hk).
Qed.

Lemma fillna_inplace_inv col df df' :
  fillna_inplace col df = Some df' →
  ∃ s, cols df !! col = Some s ∧ df' = setitem col (fillna (Fin 0) s) df.
Proof.
  unfold fillna_inplace, getitem. intros H.
  destruct (cols df !! col) as [s|]; [|done]. cbn [mbind option_bind] in H.
  apply (inj Some) in H. subst df'. by exists s.
Qed.

Lemma features_finale_cols df df' k :
  features_finale df = Some df' →
  k ∉ ["DailyConfirmedCases"; "DailyConfirmedDeaths"; "DailyRecovered";
       "DailyActive"] →
  cols df' !! k = cols df !! k.
Proof.
  unfold features_finale. intros H Hk.
  destruct (fillna_inplace "DailyConfirmedCases" df) as [d1|] eqn:E1; [|done].
  cbn [mbind option_bind] in H.
  destruct (fillna_inplace "DailyConfirmedDeaths" d1) as [d2|] eqn:E2; [|done].
  cbn [mbind option_bind] in H.
  destruct (fillna_inplace "DailyRecovered" d2) as [d3|] eqn:E3; [|done].
  cbn [mbind option_bind] in H.
  apply fillna_inplace_inv in E1 as (s1 & _ & ->).
  apply fillna_inplace_inv in E2 as (s2 & _ & ->).
  apply fillna_inplace_inv in E3 as (s3 & _ & ->).
  apply fillna_inplace_inv in H as (s4 & _ & ->).
  rewrite !not_elem_of_cons in Hk. destruct Hk as (?&?&?&?&_).
  cbn [cols setitem]. by rewrite !lookup_insert_ne by done.
Qed.

Lemma features_loop_present cs df1 df2 k :
  wf df1 → for_each features_country cs df1 = Some df2 →
  is_Some (cols df1 !! k) → is_Some (cols df2 !! k).
Proof.
  intros Hwf H Hk.
  apply (for_each_invariant (λ d, wf d ∧ is_Some (cols d !! k))) in H;
    [by destruct H|done|].
  intros d c d' [Hw Hcol] Hb.
  rewrite features_country_prog in Hb by done.
  destruct (run_loc_keys _ _ _ _ Hw Hb) as [Hw' _].
  split; [done|]. by eapply run_loc_present.
Qed.

Lemma features_finale_present df df' k :
  features_finale df = Some df' →
  is_Some (cols df !! k) → is_Some (cols df' !! k).
Proof.
  unfold features_finale. intros H Hk.
  destruct (fillna_inplace "DailyConfirmedCases" df) as [d1|] eqn:E1; [|done].
  cbn [mbind option_bind] in H.
  destruct (fillna_inplace "DailyConfirmedDeaths" d1) as [d2|] eqn:E2; [|done].
  cbn [mbind option_bind] in H.
  destruct (fillna_inplace "DailyRecovered" d2) as [d3|] eqn:E3; [|done].
  cbn [mbind option_bind] in H.
  apply (fillna_inplace_present _ _ _ _ H).
  apply (fillna_inplace_present _ _ _ _ E3).
  apply (fillna_inplace_present _ _ _ _ E2).
  by apply (fillna_inplace_present _ _ _ _ E1).
Qed.

Lemma create_features_inv df df' :
  wf df → create_features df = Some df' →
  ∃ df1 df2,
    features_prelude df = Some df1 ∧
    for_each features_country (unique (Country_Code df1)) df1 = Some df2 ∧
    features_finale df2 = Some df' ∧
    wf df1 ∧ wf df2 ∧ wf df' ∧ same_keys df df1 ∧ same_keys df1 df2 ∧
    same_keys df2 df'.
Proof.
  intros Hwf H. rewrite create_features_split in H.
  destruct (features_prelude df) as [df1|] eqn:E1; [|done].
  cbn [mbind option_bind] in H.
  destruct (for_each features_country _ df1) as [df2|] eqn:E2; [|done].
  cbn [mbind option_bind] in H.
  destruct (features_prelude_keys _ _ Hwf E1) as [Hwf1 Hk1].
  assert (Hnot : "Active" ∉ targets features_prog) by by_decide.
  destruct (features_loop_cols _ _ _ "Active" Hwf1 E2 Hnot) as (Hwf2 & Hk2 & _).
  destruct (features_finale_keys _ _ Hwf2 H) as [Hwf' Hk'].
  by exists df1, df2.
Qed.

(** X12.  [create_features] returns exactly when the frame holds
    ConfirmedCases, ConfirmedDeaths, Recovered and Population; unlike the
    filler it reads them before its loop, so a frame without rows that
    lacks one of them is refused as well. *)
Theorem create_features_returns_iff df :
  wf df →
  (is_Some (create_features df) ↔ has_cols features_inputs df).
Proof.
  intros Hwf. split.
  - intros [df' H].
    destruct (create_features_inv _ _ Hwf H) as (df1 & df2 & E1 & _).
    by destruct (features_prelude_cols _ _ E1) as [? _].
  - intros Hcols.
    destruct (create_features_loc df Hwf Hcols) as (df' & H & _). by eexists.
Qed.

Lemma create_features_returns_iff_witness :
  is_Some (create_features ex_joined) ↔ has_cols features_inputs ex_joined.
Proof. exact (create_features_returns_iff ex_joined wf_ex_joined). Defined.

Lemma create_features_other df df' k :
  wf df → create_features df = Some df' → k ∉ created_cols →
  cols df' !! k = cols df !! k.
Proof.
  intros Hwf H Hk.
  destruct (create_features_inv _ _ Hwf H)
    as (df1 & df2 & E1 & E2 & E3 & Hwf1 & _).
  destruct (features_prelude_cols _ _ E1) as (_ & Hrest & _).
  assert (Hk' : (k ∉ targets features_prog) ∧
                (k ∉ ["DailyConfirmedCases"; "DailyConfirmedDeaths";
                      "DailyRecovered"; "DailyActive"])).
  { revert Hk. unfold created_cols, targets, features_prog.
    cbn [fmap list_fmap fst]. rewrite !not_elem_of_cons. tauto. }
  destruct Hk' as [Hk1' Hk2'].
  rewrite (features_finale_cols _ _ _ E3 Hk2').
  destruct (features_loop_cols _ _ _ k Hwf1 E2 Hk1') as (_ & _ & ->).
  by apply Hrest.
Qed.

Lemma create_features_present df df' k :
  wf df → create_features df = Some df' → k ∈ created_cols →
  is_Some (cols df' !! k).
Proof.
  intros Hwf H Hk.
  destruct (create_features_inv _ _ Hwf H)
    as (df1 & df2 & E1 & E2 & E3 & Hwf1 & _).
  destruct (features_prelude_cols _ _ E1) as (_ & _ & Hpres & _).
  apply (features_finale_present _ _ _ E3).
  by apply (features_loop_present _ _ _ _ Hwf1 E2), Hpres.
Qed.

(** X13.  [create_features] keeps the rows and their keys and writes to
    ten columns only: every other column, the three counts and Population
    among them, is returned as it was; and Active holds, in every row,
    ConfirmedCases - ConfirmedDeaths - Recovered. *)
Theorem create_features_keeps_rest df df' :
  wf df → create_features df = Some df' →
  wf df' ∧ same_keys df df' ∧
  (∀ k, k ∉ created_cols → cols df' !! k = cols df !! k) ∧
  (∀ k, k ∈ created_cols → is_Some (cols df' !! k)) ∧
  ∃ cc cd rc,
    cols df !! "ConfirmedCases" = Some cc ∧
    cols df !! "ConfirmedDeaths" = Some cd ∧
    cols df !! "Recovered" = Some rc ∧
    cols df' !! "Active"
    = Some (zip_with num_sub (zip_with num_sub cc cd) rc).
Proof.
  intros Hwf H.
  destruct (create_features_inv _ _ Hwf H)
    as (df1 & df2 & E1 & E2 & E3 & Hwf1 & Hwf2 & Hwf' & Hk1 & Hk2 & Hk3).
  destruct (features_prelude_cols _ _ E1)
    as (_ & _ & _ & cc & cd & rc & Hcc & Hcd & Hrc & Hac).
  split; [done|].
  split; [exact (same_keys_trans _ _ _ (same_keys_trans _ _ _ Hk1 Hk2) Hk3)|].
  split; [intros k; exact (create_features_other df df' k Hwf H)|].
  split; [intros k; exact (create_features_present df df' k Hwf H)|].
  exists cc, cd, rc. split; [done|]. split; [done|]. split; [done|].
  rewrite (features_finale_cols _ _ _ E3) by by_decide.
  destruct (features_loop_cols _ _ _ "Active" Hwf1 E2) as (_ & _ & ->);
    [by_decide|].
  exact Hac.
Qed.

Lemma create_features_ex : create_features ex_joined = Some ex_features.
Proof. vm_compute. reflexivity. Defined.

Lemma create_features_keeps_rest_witness :
  wf ex_features ∧ same_keys ex_joined ex_features ∧
  (∀ k, k ∉ created_cols → cols ex_features !! k = cols ex_joined !! k) ∧
  (∀ k, k ∈ created_cols → is_Some (cols ex_features !! k)) ∧
  ∃ cc cd rc,
    cols ex_joined !! "ConfirmedCases" = Some cc ∧
    cols ex_joined !! "ConfirmedDeaths" = Some cd ∧
    cols ex_joined !! "Recovered" = Some rc ∧
    cols ex_features !! "Active"
    = Some (zip_with num_sub (zip_with num_sub cc cd) rc).
Proof.
  exact (create_features_keeps_rest ex_joined ex_features wf_ex_joined
           create_features_ex).
Defined.

Lemma wf_create_sub sub r : wf sub → create_sub sub = Some r → wf r.
Proof.
  unfold create_sub. intros Hwf H.
  destruct (features_prelude sub) as [s1|] eqn:E1; [|done].
  cbn [mbind option_bind] in H.
  destruct (run_sub features_prog s1) as [s2|] eqn:E2; [|done].
  cbn [mbind option_bind] in H.
  destruct (features_prelude_keys _ _ Hwf E1) as [Hwf1 _].
  pose proof (wf_run_sub _ _ _ Hwf1 prog_ok_features_country E2) as Hwf2.
  by destruct (features_finale_keys _ _ Hwf2 H).
Qed.

Lemma create_sub_idem sub r :
  wf sub → has_cols features_inputs sub →
  create_sub sub = Some r → create_sub r = Some r.
Proof.
  intros Hwf Hcols Hr.
  destruct (create_sub_spec sub Hwf Hcols)
    as (r0 & cc & cd & rc & pop & Hr0 & [Hkc Hkd] & Hcc & Hcd & Hrc & Hpop
        & Hac & Hrcc & Hrcd & Hrrc & Hrac & Hdcc & Hdcd & Hdrc & Hdac
        & Hdays & Hother).
  rewrite Hr in Hr0. apply (inj Some) in Hr0. subst r0.
  pose proof (wf_create_sub _ _ Hwf Hr) as Hwfr.
  assert (Hin : ∀ k, k ∈ features_inputs → cols r !! k = cols sub !! k).
  { intros k Hk. apply Hother. unfold features_inputs in Hk.
    rewrite !elem_of_cons, elem_of_nil in Hk.
    destruct Hk as [->|[->|[->|[->|[]]]]]; by_decide. }
  assert (Hcolsr : has_cols features_inputs r).
  { apply Forall_forall. intros k Hk. rewrite (Hin k Hk).
    exact (proj1 (Forall_forall _ _) Hcols k Hk). }
  destruct (create_sub_spec r Hwfr Hcolsr)
    as (r2 & cc' & cd' & rc' & pop' & Hr2 & [Hkc2 Hkd2] & Hcc' & Hcd' & Hrc'
        & Hpop' & Hac2 & Hrcc2 & Hrcd2 & Hrrc2 & Hrac2 & Hdcc2 & Hdcd2
        & Hdrc2 & Hdac2 & Hdays2 & Hother2).
  rewrite Hin, Hcc in Hcc' by by_decide. apply (inj Some) in Hcc'. subst cc'.
  rewrite Hin, Hcd in Hcd' by by_decide. apply (inj Some) in Hcd'. subst cd'.
  rewrite Hin, Hrc in Hrc' by by_decide. apply (inj Some) in Hrc'. subst rc'.
  rewrite Hin, Hpop in Hpop' by by_decide. apply (inj Some) in Hpop'. subst pop'.
  rewrite Hkd in Hdays2.
  rewrite Hr2. f_equal. apply frame_eq; [done..|].
  apply map_eq. intros k.
  destruct (decide (k ∈ created_cols)) as [Hk|Hk]; [|by apply Hother2].
  unfold created_cols in Hk. rewrite !elem_of_cons, elem_of_nil in Hk.
  destruct Hk as [->|[->|[->|[->|[->|[->|[->|[->|[->|[->|[]]]]]]]]]]];
    congruence.
Qed.

(** X14.  [create_features] is idempotent: applied to a frame it has
    returned, it returns the same frame, since it reads only the three
    counts and Population, which it never writes, and overwrites the ten
    columns it creates. *)
Theorem create_features_idempotent df df' :
  wf df → create_features df = Some df' →
  create_features df' = Some df'.
Proof.
  intros Hwf H.
  destruct (create_features_inv _ _ Hwf H) as (df1 & _ & E1 & _).
  destruct (features_prelude_cols _ _ E1) as (Hcols & _).
  destruct (create_features_loc df Hwf Hcols)
    as (df0 & Hrun & Hwf' & Hk & Hloc).
  rewrite H in Hrun. apply (inj Some) in Hrun. subst df0.
  assert (Hcols' : has_cols features_inputs df').
  { apply Forall_forall. intros k Hk0.
    rewrite (create_features_other _ _ k Hwf H).
    - exact (proj1 (Forall_forall _ _) Hcols k Hk0).
    - unfold features_inputs in Hk0.
      rewrite !elem_of_cons, elem_of_nil in Hk0.
      destruct Hk0 as [->|[->|[->|[->|[]]]]]; by_decide. }
  destruct (create_features_loc df' Hwf' Hcols')
    as (df'' & Hrun' & Hwf'' & Hk' & Hloc').
  rewrite Hrun'. f_equal. symmetry.
  destruct (decide (Country_Code df' = [])) as [Hnil|Hne].
  - apply frame_eq; [by destruct Hk' as [-> _]|by destruct Hk' as [_ ->]|].
    apply map_eq. intros k.
    destruct (decide (k ∈ created_cols)) as [Hc|Hc].
    + destruct (create_features_present _ _ k Hwf H Hc) as [s1 Hs1].
      destruct (create_features_present _ _ k Hwf' Hrun' Hc) as [s2 Hs2].
      pose proof (wf_lookup _ _ _ Hwf' Hs1) as Hl1.
      pose proof (wf_lookup _ _ _ Hwf'' Hs2) as Hl2.
      destruct Hk' as [Hkc' _]. unfold nrows in Hl1, Hl2.
      rewrite Hkc', Hnil in Hl2. rewrite Hnil in Hl1.
      rewrite Hs1, Hs2. by destruct s1, s2.
    + symmetry. by apply (create_features_other _ _ k Hwf' Hrun').
  - apply frames_ext; [done..|].
    intros c Hin. specialize (Hloc' c Hin).
    destruct Hk as [Hkc Hkd]. rewrite Hkc in Hin. specialize (Hloc c Hin).
    apply create_sub_idem in Hloc; [|by apply wf_loc|by apply has_cols_loc].
    rewrite Hloc in Hloc'. by apply (inj Some) in Hloc'.
Qed.

Lemma create_features_idempotent_witness :
  create_features ex_features = Some ex_features.
Proof.
  exact (create_features_idempotent ex_joined ex_features wf_ex_joined
           create_features_ex).
Defined.

(** ** The day count on counts as they come *)

Lemma dates_min_first_case dates cases m :
  length cases = length dates →
  dates_min (select (num_gt0 <$> cases) dates) = Some m →
  first_case_date dates cases m.
Proof.
  intros Hlen Hm. destruct (dates_min_spec _ _ Hm) as [Hin Hle]. split.
  - apply select_elem_inv in Hin as (j & Hj & Hd).
    rewrite list_lookup_fmap in Hj.
    destruct (cases !! j) as [x|] eqn:Ex; [|done].
    simpl in Hj. apply (inj Some) in Hj. by exists j, x.
  - intros j d x Hd Hx Hgt. apply Hle.
    eapply select_true_elem; [|exact Hd].
    by rewrite list_lookup_fmap, Hx; simpl; rewrite Hgt.
Qed.

(** X15.  On counts as they come (not filled, not ordered),
    [create_features] gives the day count row by row from the count of
    the row alone: a row of a country whose ConfirmedCases is above 0
    holds its date minus the earliest date of such a row of the country,
    and a row whose count is not above 0 (zero, negative or NaN) holds 0,
    also when it comes after the first case. *)
Theorem days_count_by_row df :
  wf df → has_cols features_inputs df →
  ∃ df', create_features df = Some df' ∧
    ∀ c, c ∈ Country_Code df →
      let sub := loc (code_mask c df') df' in
      ∃ cases days,
        getitem sub "ConfirmedCases" = Some cases ∧
        getitem sub "DaysCountFromFirstCase" = Some days ∧
        length cases = length (DateTime sub) ∧
        length days = length (DateTime sub) ∧
        (∀ (i : nat) x, cases !! i = Some x → num_gt0 x = false →
           days !! i = Some (Fin 0)) ∧
        (∀ (i : nat) x d, cases !! i = Some x → num_gt0 x = true →
           DateTime sub !! i = Some d →
           ∃ d0, first_case_date (DateTime sub) cases d0 ∧ (d0 ≤ d)%Z ∧
                 days !! i = Some (of_Z (d - d0))).
Proof.
  intros Hwf Hcols.
  destruct (create_features_loc df Hwf Hcols)
    as (df' & Hrun & Hwf' & [Hkc Hkd] & Hloc).
  exists df'. split; [done|]. intros c Hc sub.
  destruct (create_sub_spec (loc (code_mask c df) df))
    as (r & cc & cd & rc & pop & Hr & [_ Hkd'] & Hcc & _ & _ & _ & _ & _ & _
        & _ & _ & _ & _ & _ & _ & Hdays & Hother);
    [by apply wf_loc|by apply has_cols_loc|].
  rewrite (Hloc c Hc) in Hr. apply (inj Some) in Hr. fold sub in Hr.
  rewrite <- Hr in Hkd', Hdays, Hother. clear r Hr.
  assert (Hlen : length cc = length (DateTime sub)).
  { rewrite Hkd'.
    destruct (wf_loc (code_mask c df) df Hwf) as [Hd Hall].
    rewrite (Hall _ _ Hcc). by rewrite Hd. }
  rewrite <- Hkd' in Hdays.
  exists cc, (days_of cc (DateTime sub)).
  split; [unfold getitem; rewrite Hother by by_decide; exact Hcc|].
  split; [exact Hdays|]. split; [done|].
  split; [unfold days_of; by rewrite length_assign, length_replicate|].
  split.
  - intros i x Hx Hgt.
    destruct (lookup_lt_is_Some_2 (DateTime sub) i) as [d Hd].
    { apply lookup_lt_Some in Hx. lia. }
    by rewrite (days_of_lookup _ _ _ _ _ Hlen Hx Hd), Hgt.
  - intros i x d Hx Hgt Hd.
    rewrite (days_of_lookup _ _ _ _ _ Hlen Hx Hd), Hgt.
    destruct (dates_min_is_Some (select (num_gt0 <$> cc) (DateTime sub)))
      as [m Hm].
    { intros Hnil.
      assert (Hin : d ∈ select (num_gt0 <$> cc) (DateTime sub)).
      { eapply select_true_elem; [|exact Hd].
        by rewrite list_lookup_fmap, Hx; simpl; rewrite Hgt. }
      rewrite Hnil in Hin. by apply elem_of_nil in Hin. }
    pose proof (dates_min_first_case _ _ _ Hlen Hm) as Hfirst.
    exists m. split; [done|]. split.
    + destruct Hfirst as [_ Hle]. by eapply Hle.
    + by rewrite Hm.
Qed.

Lemma days_count_by_row_witness :
  ∃ df', create_features ex_joined = Some df' ∧
    ∀ c, c ∈ Country_Code ex_joined →
      let sub := loc (code_mask c df') df' in
      ∃ cases days,
        getitem sub "ConfirmedCases" = Some cases ∧
        getitem sub "DaysCountFromFirstCase" = Some days ∧
        length cases = length (DateTime sub) ∧
        length days = length (DateTime sub) ∧
        (∀ (i : nat) x, cases !! i = Some x → num_gt0 x = false →
           days !! i = Some (Fin 0)) ∧
        (∀ (i : nat) x d, cases !! i = Some x → num_gt0 x = true →
           DateTime sub !! i = Some d →
           ∃ d0, first_case_date (DateTime sub) cases d0 ∧ (d0 ≤ d)%Z ∧
                 days !! i = Some (of_Z (d - d0))).
Proof. exact (days_count_by_row ex_joined wf_ex_joined has_cols_ex_joined). Defined.

(** ** Daily deltas add up *)

Lemma diff_from_telescopes prev qs :
  ∃ ds, diff_from (Fin prev) (Fin <$> qs) = Fin <$> ds ∧
    ∀ (k : nat) v, qs !! k = Some v →
      (Qsum (take (S k) ds) == v - prev)%Q.
Proof.
  revert prev. induction qs as [|q qs IH]; intros prev.
  { exists []. split; [done|]. by intros k v Hk. }
  destruct (IH q) as (ds & Hds & Hsum).
  exists ((q + - prev)%Q :: ds). split.
  - rewrite fmap_cons. cbn [diff_from]. rewrite Hds. done.
  - intros [|k] v Hk.
    + cbn in Hk. apply (inj Some) in Hk. subst v.
      cbn [firstn Qsum foldr]. rewrite take_0. cbn [foldr]. ring.
    + cbn in Hk. specialize (Hsum k v Hk).
      change (take (S (S k)) ((q + - prev)%Q :: ds))
        with ((q + - prev)%Q :: take (S k) ds).
      cbn [Qsum foldr]. fold (Qsum (take (S k) ds)). rewrite Hsum. ring.
Qed.

Lemma daily_telescopes_list qs :
  ∃ ds, fillna (Fin 0) (diff (Fin <$> qs)) = Fin <$> ds ∧
    ∀ (k : nat) v v0, qs !! 0%nat = Some v0 → qs !! k = Some v →
      (Qsum (take (S k) ds) == v - v0)%Q.
Proof.
  destruct qs as [|q0 qs].
  { exists []. split; [done|]. by intros k v v0 H0. }
  destruct (diff_from_telescopes q0 qs) as (ds & Hds & Hsum).
  exists (0%Q :: ds). split.
  - rewrite fmap_cons. cbn [diff]. rewrite Hds.
    unfold fillna. rewrite !fmap_cons. cbn [is_nan]. f_equal.
    rewrite <- list_fmap_compose. by apply list_fmap_ext.
  - intros [|k] v v0 H0 Hk; cbn in H0; apply (inj Some) in H0; subst v0.
    + cbn in Hk. apply (inj Some) in Hk. subst v.
      cbn [firstn Qsum foldr]. rewrite take_0. cbn [foldr]. ring.
    + cbn in Hk. specialize (Hsum k v Hk).
      change (take (S (S k)) (0%Q :: ds)) with (0%Q :: take (S k) ds).
      cbn [Qsum foldr]. fold (Qsum (take (S k) ds)). rewrite Hsum. ring.
Qed.

(** X16.  The daily deltas of a country add up to its count: where the
    cells of ConfirmedCases, ConfirmedDeaths, Recovered or Active of a
    country are finite, the deltas of the country from its first row to
    row k sum (in exact arithmetic) to the count of row k minus the count
    of the first row. *)
Theorem daily_deltas_add_up df :
  wf df → has_cols features_inputs df →
  ∃ df', create_features df = Some df' ∧
    ∀ c src dst, c ∈ Country_Code df → (src, dst) ∈ delta_cols →
      ∃ s d,
        getitem (loc (code_mask c df') df') src = Some s ∧
        getitem (loc (code_mask c df') df') dst = Some d ∧
        ∀ qs, s = Fin <$> qs →
          ∃ ds, d = Fin <$> ds ∧
            ∀ (k : nat) v v0, qs !! 0%nat = Some v0 → qs !! k = Some v →
              (Qsum (take (S k) ds) == v - v0)%Q.
Proof.
  intros Hwf Hcols.
  destruct (create_features_loc df Hwf Hcols)
    as (df' & Hrun & Hwf' & Hk & Hloc).
  exists df'. split; [done|]. intros c src dst Hc Hin.
  destruct (create_sub_delta _ _ src dst (wf_loc _ _ Hwf)
              (has_cols_loc _ (code_mask c df) _ Hcols) (Hloc c Hc) Hin)
    as (s & Hs & Hd).
  exists s, (fillna (Fin 0) (diff s)). split; [done|]. split; [done|].
  intros qs ->. apply daily_telescopes_list.
Qed.

Lemma daily_deltas_add_up_witness :
  ∃ df', create_features ex_joined = Some df' ∧
    ∀ c src dst, c ∈ Country_Code ex_joined → (src, dst) ∈ delta_cols →
      ∃ s d,
        getitem (loc (code_mask c df') df') src = Some s ∧
        getitem (loc (code_mask c df') df') dst = Some d ∧
        ∀ qs, s = Fin <$> qs →
          ∃ ds, d = Fin <$> ds ∧
            ∀ (k : nat) v v0, qs !! 0%nat = Some v0 → qs !! k = Some v →
              (Qsum (take (S k) ds) == v - v0)%Q.
Proof. exact (daily_deltas_add_up ex_joined wf_ex_joined has_cols_ex_joined). Defined.
